(** * Ariakit composite / collection / tooltip stores: a shallow embedding

    Sources embedded here:
    - [packages/ariakit-core/src/composite/composite-store.ts]
      (composite store, followed in the same file by the collection store);
    - [packages/ariakit/src/combobox/store-combobox-popover.ts]
      (tooltip store and the second copy of the composite store).

    JavaScript values are modelled by small inductive types: an id position
    ([string | null | undefined]) is a [jsid]; an optional property of an
    object is an [option] ([None] = the property is absent / [undefined]);
    truthiness is written out where the source relies on it. Where the
    source spreads an object into another ([{ ...prevItem, ...item }]) it
    matters which properties the object owns: such an object is an
    [ItemObject]. *)

From Stdlib Require Import String Ascii DecimalString DecimalNat ZArith Bool
  Arith Lia List.
From Stdlib Require Import Permutation.
Import ListNotations.
Open Scope string_scope.
Open Scope list_scope.

Set Implicit Arguments.

(** ** JavaScript values used by the stores *)

(** [string | null | undefined]: the type of [activeId], of the ids returned
    by the navigation functions and of [item.id] ([NULL_ITEM] has id [null]). *)
Inductive jsid : Type :=
| Undefined
| Null
| Str (s : string).

Definition jsid_eqb (a b : jsid) : bool :=
  match a, b with
  | Undefined, Undefined => true
  | Null, Null => true
  | Str s, Str t => String.eqb s t
  | _, _ => false
  end.

(** [a == null] *)
Definition is_nullish (a : jsid) : bool :=
  match a with
  | Str _ => false
  | _ => true
  end.

(** Truthiness of a [string | null | undefined]: only a non-empty string. *)
Definition truthy_id (a : jsid) : bool :=
  match a with
  | Str s => negb (String.eqb s "")
  | _ => false
  end.

(** Truthiness of an optional string property. *)
Definition truthy_str (o : option string) : bool :=
  match o with
  | Some s => negb (String.eqb s "")
  | None => false
  end.

(** Truthiness of an optional boolean property. *)
Definition truthy_flag (o : option bool) : bool :=
  match o with
  | Some b => b
  | None => false
  end.

(** [a === b] on optional strings ([undefined === undefined] holds). *)
Definition opt_string_eqb (a b : option string) : bool :=
  match a, b with
  | None, None => true
  | Some s, Some t => String.eqb s t
  | _, _ => false
  end.

(** Template-literal rendering of an array index: [`${i}`]. *)
Definition index_to_string (i : nat) : string :=
  NilEmpty.string_of_uint (Nat.to_uint i).

Inductive Orientation : Type :=
| horizontal
| vertical
| both.

Definition Orientation_eqb (a b : Orientation) : bool :=
  match a, b with
  | horizontal, horizontal => true
  | vertical, vertical => true
  | both, both => true
  | _, _ => false
  end.

(** [boolean | Orientation]: the type of [focusLoop] and [focusWrap]. *)
Inductive FocusFlag : Type :=
| FBool (b : bool)
| FOri (o : Orientation).

(** Truthiness of a [boolean | Orientation]: every orientation is a
    non-empty string. *)
Definition truthy_focus (f : FocusFlag) : bool :=
  match f with
  | FBool b => b
  | FOri _ => true
  end.

(** [f !== o] for [f : boolean | Orientation] and
    [o : Orientation | undefined]. *)
Definition focus_differs (f : FocusFlag) (o : option Orientation) : bool :=
  match f, o with
  | FOri a, Some b => negb (Orientation_eqb a b)
  | _, _ => true
  end.

(** ** Items

    [type Item = CollectionStoreItem & { rowId?, disabled?, children? }] with
    [CollectionStoreItem = { id: string; element?: HTMLElement | null }].
    The DOM element is an opaque handle. *)
Record Item : Type := mkItem {
  id : jsid;
  element : option nat;
  rowId : option string;
  disabled : option bool;
  children : option string
}.

Definition option_eqb {A} (eqb : A -> A -> bool) (a b : option A) : bool :=
  match a, b with
  | None, None => true
  | Some x, Some y => eqb x y
  | _, _ => false
  end.

(** Object comparison used by [Array.prototype.indexOf]. The stores only look
    up objects that were just found in the same array, see [indexOf_find]. *)
Definition Item_eqb (a b : Item) : bool :=
  jsid_eqb (id a) (id b)
  && option_eqb Nat.eqb (element a) (element b)
  && opt_string_eqb (rowId a) (rowId b)
  && option_eqb Bool.eqb (disabled a) (disabled b)
  && opt_string_eqb (children a) (children b).

(** ** Objects given to the collection store

    The object handed to [registerItem] or [renderItem] is spread over the
    previous entry, [{ ...prevItem, ...item }]: every property the object
    owns is copied, also one whose value is [undefined] (or [null], for
    [element]), and only a property it does not own leaves the previous
    value in place. An optional property of such an object is therefore
    absent, or owned with a value that may be [undefined]. *)
Inductive Property (A : Type) : Type :=
| Absent
| Own (v : option A).

Arguments Absent {A}.
Arguments Own {A} v.

(** [{ id, element?, rowId?, disabled?, children? }] with its own
    properties; [id] is required. *)
Record ItemObject : Type := mkItemObject {
  objId : jsid;
  objElement : Property nat;
  objRowId : Property string;
  objDisabled : Property bool;
  objChildren : Property string
}.

(** [object.property]: [undefined] when the property is absent. *)
Definition read {A} (p : Property A) : option A :=
  match p with
  | Absent => None
  | Own v => v
  end.

(** The property of [{ ...prev, ...object }], [prev] having the value
    [previous] there. *)
Definition spread {A} (previous : option A) (p : Property A) : option A :=
  match p with
  | Absent => previous
  | Own v => v
  end.

(** The entries of the store's arrays are kept by the values that are read
    from them, as [Item]s; this is the object once it is an entry. *)
Definition asItem (o : ItemObject) : Item :=
  mkItem (objId o) (read (objElement o)) (read (objRowId o))
    (read (objDisabled o)) (read (objChildren o)).

Definition own {A} (o : option A) : Property A :=
  match o with
  | Some v => Own (Some v)
  | None => Absent
  end.

(** An [Item] written where an object is expected is the object that owns
    exactly the properties that have a value. *)
Definition ownProps (x : Item) : ItemObject :=
  mkItemObject (id x) (own (element x)) (own (rowId x)) (own (disabled x))
    (own (children x)).

Coercion ownProps : Item >-> ItemObject.

(** ** Array primitives of the host language *)

Section Arrays.
Variable A : Type.

(** [Array.prototype.slice(start, end)] with its treatment of negative and
    out-of-range bounds. *)
Definition slice (l : list A) (start : Z) (stop : option Z) : list A :=
  let len := Z.of_nat (length l) in
  let clamp k := if (k <? 0)%Z then Z.max (len + k) 0 else Z.min k len in
  let s := clamp start in
  let e := match stop with
           | None => len
           | Some k => clamp k
           end in
  firstn (Z.to_nat (e - s)) (skipn (Z.to_nat s) l).

(** [Array.prototype.findIndex]: [-1] when nothing matches. *)
Fixpoint findIndex (p : A -> bool) (l : list A) : Z :=
  match l with
  | [] => (-1)%Z
  | x :: l' =>
      if p x then 0%Z
      else let k := findIndex p l' in
           if (k <? 0)%Z then (-1)%Z else (k + 1)%Z
  end.

(** [array[i]] for a numeric index: [undefined] out of range, also for a
    negative index. *)
Definition at_index (l : list A) (i : Z) : option A :=
  if (i <? 0)%Z then None else nth_error l (Z.to_nat i).

(** [array[i] = v] for [0 <= i <= array.length]: replaces the element, or
    appends when [i] is the length. The stores never write further out
    (see [normalizeRow_length] and [register_index_in_range]); there the
    model appends as well, where the host language would leave holes. *)
Fixpoint array_set (l : list A) (i : nat) (v : A) : list A :=
  match l, i with
  | [], _ => [v]
  | _ :: l', O => v :: l'
  | x :: l', S i' => x :: array_set l' i' v
  end.
End Arrays.

(** Modelled from the spec: [reverseArray] of [utils/array], imported by both
    stores but not among the sources: a copy of the array in reverse order
    ([last()] is the first enabled item of [reverseArray(renderedItems)]). *)
Definition reverseArray {A} (l : list A) : list A := rev l.

(** Modelled from the spec: [flatten2DArray] of [utils/array], not among the
    sources: the rows of a two-dimensional array, one after the other. *)
Definition flatten2DArray {A} (rows : list (list A)) : list A := concat rows.

Definition indexOf (l : list Item) (x : Item) : Z :=
  findIndex (Item_eqb x) l.

(** ** Numbers

    A counter of the host language is a number, an IEEE 754 binary64. Every
    integer of magnitude up to 2^53 is a number; a larger number has a
    significand of 53 bits. [nearest_number z] is the number nearest to the
    integer [z], a tie going to the even significand, and the sum of two
    numbers is the number nearest to their exact sum. The counters here
    hold integers (they start at an integer and change by [+ 1]); fractions,
    [NaN] and the infinities are not represented, and [+ 1] never leaves
    the finite numbers. *)
Definition nearest_number (z : Z) : Z :=
  let a := Z.abs z in
  if (a <? 9007199254740992)%Z then z
  else
    let e := (Z.log2 a - 52)%Z in
    let q := Z.shiftr a e in
    let r := (a - Z.shiftl q e)%Z in
    let half := Z.shiftl 1 (e - 1) in
    let q' :=
      if (r <? half)%Z then q
      else if (half <? r)%Z then (q + 1)%Z
      else if Z.even q then q else (q + 1)%Z in
    (Z.sgn z * Z.shiftl q' e)%Z.

(** [a + b] on numbers. *)
Definition number_add (a b : Z) : Z := nearest_number (a + b).

(** ** State of a composite store ([CompositeStoreState]) *)
Record CompositeStoreState : Type := mkState {
  items : list Item;
  renderedItems : list Item;
  baseElement : option nat;
  virtualFocus : bool;
  orientation : Orientation;
  rtl : bool;
  focusLoop : FocusFlag;
  focusWrap : FocusFlag;
  focusShift : bool;
  moves : Z;
  includesBaseElement : bool;
  activeId : jsid
}.

Definition set_activeId (st : CompositeStoreState) (v : jsid) :=
  mkState (items st) (renderedItems st) (baseElement st) (virtualFocus st)
    (orientation st) (rtl st) (focusLoop st) (focusWrap st) (focusShift st)
    (moves st) (includesBaseElement st) v.

Definition set_moves (st : CompositeStoreState) (v : Z) :=
  mkState (items st) (renderedItems st) (baseElement st) (virtualFocus st)
    (orientation st) (rtl st) (focusLoop st) (focusWrap st) (focusShift st)
    v (includesBaseElement st) (activeId st).

Definition set_renderedItems (st : CompositeStoreState) (v : list Item) :=
  mkState (items st) v (baseElement st) (virtualFocus st)
    (orientation st) (rtl st) (focusLoop st) (focusWrap st) (focusShift st)
    (moves st) (includesBaseElement st) (activeId st).

(** [item?.id] *)
Definition id_of (o : option Item) : jsid :=
  match o with
  | Some item => id item
  | None => Undefined
  end.

(** * The composite store of [ariakit-core] *)
Module CompositeStore.

Definition NULL_ITEM : Item := mkItem Null None None None None.

Definition enabled_pred (excludeId : jsid) (item : Item) : bool :=
  if truthy_id excludeId
  then negb (truthy_flag (disabled item))
       && negb (jsid_eqb (id item) excludeId)
  else negb (truthy_flag (disabled item)).

Definition findFirstEnabledItem (l : list Item) (excludeId : jsid)
  : option Item :=
  find (enabled_pred excludeId) l.

Definition getEnabledItems (l : list Item) (excludeId : jsid) : list Item :=
  filter (enabled_pred excludeId) l.

Definition getOppositeOrientation (o : Orientation) : option Orientation :=
  match o with
  | vertical => Some horizontal
  | horizontal => Some vertical
  | both => None
  end.

Definition getItemsInRow (l : list Item) (r : option string) : list Item :=
  filter (fun item => opt_string_eqb (rowId item) r) l.

Definition flipItems (l : list Item) (active : jsid)
    (shouldInsertNullItem : bool) : list Item :=
  let index := findIndex (fun item => jsid_eqb (id item) active) l in
  slice l (index + 1) None
  ++ (if shouldInsertNullItem then [NULL_ITEM] else [])
  ++ slice l 0 (Some index).

Definition getActiveId (l : list Item) (active passedId : jsid) : jsid :=
  match passedId with
  | Undefined =>
      match active with
      | Undefined => id_of (findFirstEnabledItem l Undefined)
      | _ => active
      end
  | _ => passedId
  end.

(** [currentRow[0]?.rowId === item.rowId] *)
Definition row_matches (item : Item) (row : list Item) : bool :=
  match row with
  | [] => opt_string_eqb None (rowId item)
  | first :: _ => opt_string_eqb (rowId first) (rowId item)
  end.

(** One iteration of the loop of [groupItemsByRows]: push to the first row
    that matches, or open a new row at the end. *)
Fixpoint pushToRows (rows : list (list Item)) (item : Item)
  : list (list Item) :=
  match rows with
  | [] => [[item]]
  | row :: rest =>
      if row_matches item row then (row ++ [item]) :: rest
      else row :: pushToRows rest item
  end.

Definition groupItemsByRows (l : list Item) : list (list Item) :=
  fold_left pushToRows l [].

Definition getMaxRowLength (rows : list (list Item)) : nat :=
  fold_left
    (fun maxLength row =>
       if (maxLength <? length row)%nat then length row else maxLength)
    rows 0.

Definition createEmptyItem (r : option string) : Item :=
  mkItem (Str "__EMPTY_ITEM__") None r (Some true) None.

(** Body of the inner loop of [normalizeRows] at index [i]. *)
Definition normalizeCell (active : jsid) (shift : bool)
    (row : list Item) (i : nat) : list Item :=
  let item := nth_error row i in
  let needsFill :=
    match item with
    | None => true
    | Some it => shift && truthy_flag (disabled it)
    end in
  if needsFill then
    let isFirst := (i =? 0)%nat in
    let previousItem :=
      if isFirst && shift then findFirstEnabledItem row Undefined
      else at_index row (Z.of_nat i - 1) in
    let filler :=
      match previousItem with
      | Some p =>
          if negb (jsid_eqb active (id p)) && shift then p
          else createEmptyItem (rowId p)
      | None => createEmptyItem None
      end in
    array_set row i filler
  else row.

Definition normalizeRow (active : jsid) (shift : bool) (maxLength : nat)
    (row : list Item) : list Item :=
  fold_left (normalizeCell active shift) (seq 0 maxLength) row.

Definition normalizeRows (rows : list (list Item)) (active : jsid)
    (shift : bool) : list (list Item) :=
  let maxLength := getMaxRowLength rows in
  map (normalizeRow active shift maxLength) rows.

(** [{ ...item, rowId: item.rowId ? `${i}` : undefined }] *)
Definition verticalCell (i : nat) (item : Item) : Item :=
  mkItem (id item) (element item)
    (if truthy_str (rowId item) then Some (index_to_string i) else None)
    (disabled item) (children item).

Definition verticalizeItems (l : list Item) : list Item :=
  let rows := groupItemsByRows l in
  let maxLength := getMaxRowLength rows in
  flat_map
    (fun i =>
       flat_map
         (fun row =>
            match nth_error row i with
            | Some item => [verticalCell i item]
            | None => []
            end)
         rows)
    (seq 0 maxLength).

Section Navigation.
Variable st : CompositeStoreState.

Definition getNextId (l : list Item) (o : Orientation)
    (hasNullItem : bool) (skip : option Z) : jsid :=
  let isHorizontal := negb (Orientation_eqb o vertical) in
  let isRTL := rtl st && isHorizontal in
  let allItems := if isRTL then reverseArray l else l in
  if is_nullish (activeId st) then
    id_of (findFirstEnabledItem allItems Undefined)
  else
    match find (fun item => jsid_eqb (id item) (activeId st)) allItems with
    | None => id_of (findFirstEnabledItem allItems Undefined)
    | Some activeItem =>
        let isGrid := truthy_str (rowId activeItem) in
        let activeIndex := indexOf allItems activeItem in
        let nextItems := slice allItems (activeIndex + 1) None in
        let nextItemsInRow := getItemsInRow nextItems (rowId activeItem) in
        match skip with
        | Some n =>
            let nextEnabledItemsInRow :=
              getEnabledItems nextItemsInRow (activeId st) in
            let nextItem :=
              match at_index (slice nextEnabledItemsInRow n None) 0 with
              | Some it => Some it
              | None =>
                  at_index nextEnabledItemsInRow
                    (Z.of_nat (length nextEnabledItemsInRow) - 1)
              end in
            id_of nextItem
        | None =>
            (* [orientation || "horizontal"] is [orientation]: every
               orientation is a non-empty string *)
            let oppositeOrientation :=
              getOppositeOrientation (if isGrid then o else o) in
            let canLoop :=
              truthy_focus (focusLoop st)
              && focus_differs (focusLoop st) oppositeOrientation in
            let canWrap :=
              isGrid && truthy_focus (focusWrap st)
              && focus_differs (focusWrap st) oppositeOrientation in
            let hasNullItem' :=
              hasNullItem
              || (negb isGrid && canLoop && includesBaseElement st) in
            if canLoop then
              let loopItems :=
                if canWrap && negb hasNullItem' then allItems
                else getItemsInRow allItems (rowId activeItem) in
              let sortedItems :=
                flipItems loopItems (activeId st) hasNullItem' in
              id_of (findFirstEnabledItem sortedItems (activeId st))
            else if canWrap then
              let nextItem :=
                findFirstEnabledItem
                  (if hasNullItem' then nextItemsInRow else nextItems)
                  (activeId st) in
              if hasNullItem' then
                (if truthy_id (id_of nextItem) then id_of nextItem
                 else Null)
              else id_of nextItem
            else
              let nextItem :=
                findFirstEnabledItem nextItemsInRow (activeId st) in
              match nextItem with
              | None => if hasNullItem' then Null else Undefined
              | Some it => id it
              end
        end
    end.

Definition first : jsid :=
  id_of (findFirstEnabledItem (renderedItems st) Undefined).

Definition last : jsid :=
  id_of (findFirstEnabledItem (reverseArray (renderedItems st)) Undefined).

Definition next (skip : option Z) : jsid :=
  getNextId (renderedItems st) (orientation st) false skip.

Definition previous (skip : option Z) : jsid :=
  let isGrid :=
    match findFirstEnabledItem (renderedItems st) Undefined with
    | Some it => truthy_str (rowId it)
    | None => false
    end in
  let hasNullItem := negb isGrid && includesBaseElement st in
  getNextId (reverseArray (renderedItems st)) (orientation st)
    hasNullItem skip.

(** [!skip] for [skip?: number]. *)
Definition not_skip (skip : option Z) : bool :=
  match skip with
  | None => true
  | Some n => (n =? 0)%Z
  end.

Definition down (skip : option Z) : jsid :=
  let shouldShift := focusShift st && not_skip skip in
  let verticalItems :=
    verticalizeItems
      (flatten2DArray
         (normalizeRows (groupItemsByRows (renderedItems st))
            (activeId st) shouldShift)) in
  let canLoop :=
    truthy_focus (focusLoop st)
    && focus_differs (focusLoop st) (Some horizontal) in
  let hasNullItem := canLoop && includesBaseElement st in
  getNextId verticalItems vertical hasNullItem skip.

Definition up (skip : option Z) : jsid :=
  let shouldShift := focusShift st && not_skip skip in
  let verticalItems :=
    verticalizeItems
      (reverseArray
         (flatten2DArray
            (normalizeRows (groupItemsByRows (renderedItems st))
               (activeId st) shouldShift))) in
  let hasNullItem := includesBaseElement st in
  getNextId verticalItems vertical hasNullItem skip.
End Navigation.

(** *** State updates

    [createStore] of [utils/store] is not among the sources; what the
    specification says of it is used: [setState(key, value)] replaces the
    field when the value changed and then synchronously notifies the
    listeners registered for that key; a [setState] with an unchanged value
    triggers nothing. The only listener the composite store registers (in
    [setup], with [composite.sync], on [renderedItems] and [activeId]) is
    [activeIdListener]; the states below are those of a store that has been
    set up. *)

(** The listener: [composite.setState("activeId",
    getActiveId(state.renderedItems, state.activeId))]. Its own update
    notifies the listener once more, which then finds nothing to change
    (see [activeIdListener_stable]). *)
Definition activeIdListener (st : CompositeStoreState) : CompositeStoreState :=
  let v := getActiveId (renderedItems st) (activeId st) Undefined in
  if jsid_eqb v (activeId st) then st else set_activeId st v.

(** Modelled from the spec: [setState("activeId", v)], through [setState]
    of [utils/store] as described above. *)
Definition setActiveId (st : CompositeStoreState) (v : jsid)
  : CompositeStoreState :=
  if jsid_eqb v (activeId st) then st
  else activeIdListener (set_activeId st v).

(** Modelled from the spec: [setState("renderedItems", l)], as above; a new
    array is always a changed value. *)
Definition setRenderedItems (st : CompositeStoreState) (l : list Item)
  : CompositeStoreState :=
  activeIdListener (set_renderedItems st l).

(** Modelled from the spec: [setState("moves", v)], as above; no listener
    is registered for [moves]. *)
Definition setMoves (st : CompositeStoreState) (v : Z) : CompositeStoreState :=
  if (v =? moves st)%Z then st else set_moves st v.

(** [moves + 1] is the sum of the host numbers, see [number_add]. *)
Definition move (st : CompositeStoreState) (v : jsid) : CompositeStoreState :=
  match v with
  | Undefined => st
  | _ =>
      let st1 := setActiveId st v in
      setMoves st1 (number_add (moves st1) 1)
  end.

End CompositeStore.


(** * The composite store embedded in [store-combobox-popover.ts]

    The second copy of the algorithm, translated from its own source text:
    the helpers are declared again there, the store is assembled from
    separate [const] functions, and [setup] registers the same listener with
    [store.subscribe]. *)
Module ComboboxCompositeStore.

Definition NULL_ITEM : Item := mkItem Null None None None None.

Definition enabled_pred (excludeId : jsid) (item : Item) : bool :=
  if truthy_id excludeId
  then negb (truthy_flag (disabled item))
       && negb (jsid_eqb (id item) excludeId)
  else negb (truthy_flag (disabled item)).

Definition findFirstEnabledItem (l : list Item) (excludeId : jsid)
  : option Item :=
  find (enabled_pred excludeId) l.

Definition getEnabledItems (l : list Item) (excludeId : jsid) : list Item :=
  filter (enabled_pred excludeId) l.

Definition getOppositeOrientation (o : Orientation) : option Orientation :=
  match o with
  | vertical => Some horizontal
  | horizontal => Some vertical
  | both => None
  end.

Definition getItemsInRow (l : list Item) (r : option string) : list Item :=
  filter (fun item => opt_string_eqb (rowId item) r) l.

Definition flipItems (l : list Item) (active : jsid)
    (shouldInsertNullItem : bool) : list Item :=
  let index := findIndex (fun item => jsid_eqb (id item) active) l in
  slice l (index + 1) None
  ++ (if shouldInsertNullItem then [NULL_ITEM] else [])
  ++ slice l 0 (Some index).

Definition getActiveId (l : list Item) (active passedId : jsid) : jsid :=
  match passedId with
  | Undefined =>
      match active with
      | Undefined => id_of (findFirstEnabledItem l Undefined)
      | _ => active
      end
  | _ => passedId
  end.

(** [currentRow[0]?.rowId === item.rowId] *)
Definition row_matches (item : Item) (row : list Item) : bool :=
  match row with
  | [] => opt_string_eqb None (rowId item)
  | first :: _ => opt_string_eqb (rowId first) (rowId item)
  end.

(** One iteration of the loop of [groupItemsByRows]: push to the first row
    that matches, or open a new row at the end. *)
Fixpoint pushToRows (rows : list (list Item)) (item : Item)
  : list (list Item) :=
  match rows with
  | [] => [[item]]
  | row :: rest =>
      if row_matches item row then (row ++ [item]) :: rest
      else row :: pushToRows rest item
  end.

Definition groupItemsByRows (l : list Item) : list (list Item) :=
  fold_left pushToRows l [].

Definition getMaxRowLength (rows : list (list Item)) : nat :=
  fold_left
    (fun maxLength row =>
       if (maxLength <? length row)%nat then length row else maxLength)
    rows 0.

Definition createEmptyItem (r : option string) : Item :=
  mkItem (Str "__EMPTY_ITEM__") None r (Some true) None.

(** Body of the inner loop of [normalizeRows] at index [i]. *)
Definition normalizeCell (active : jsid) (shift : bool)
    (row : list Item) (i : nat) : list Item :=
  let item := nth_error row i in
  let needsFill :=
    match item with
    | None => true
    | Some it => shift && truthy_flag (disabled it)
    end in
  if needsFill then
    let isFirst := (i =? 0)%nat in
    let previousItem :=
      if isFirst && shift then findFirstEnabledItem row Undefined
      else at_index row (Z.of_nat i - 1) in
    let filler :=
      match previousItem with
      | Some p =>
          if negb (jsid_eqb active (id p)) && shift then p
          else createEmptyItem (rowId p)
      | None => createEmptyItem None
      end in
    array_set row i filler
  else row.

Definition normalizeRow (active : jsid) (shift : bool) (maxLength : nat)
    (row : list Item) : list Item :=
  fold_left (normalizeCell active shift) (seq 0 maxLength) row.

Definition normalizeRows (rows : list (list Item)) (active : jsid)
    (shift : bool) : list (list Item) :=
  let maxLength := getMaxRowLength rows in
  map (normalizeRow active shift maxLength) rows.

(** [{ ...item, rowId: item.rowId ? `${i}` : undefined }] *)
Definition verticalCell (i : nat) (item : Item) : Item :=
  mkItem (id item) (element item)
    (if truthy_str (rowId item) then Some (index_to_string i) else None)
    (disabled item) (children item).

Definition verticalizeItems (l : list Item) : list Item :=
  let rows := groupItemsByRows l in
  let maxLength := getMaxRowLength rows in
  flat_map
    (fun i =>
       flat_map
         (fun row =>
            match nth_error row i with
            | Some item => [verticalCell i item]
            | None => []
            end)
         rows)
    (seq 0 maxLength).

Section Navigation.
Variable st : CompositeStoreState.

Definition getNextId (l : list Item) (o : Orientation)
    (hasNullItem : bool) (skip : option Z) : jsid :=
  let isHorizontal := negb (Orientation_eqb o vertical) in
  let isRTL := rtl st && isHorizontal in
  let allItems := if isRTL then reverseArray l else l in
  if is_nullish (activeId st) then
    id_of (findFirstEnabledItem allItems Undefined)
  else
    match find (fun item => jsid_eqb (id item) (activeId st)) allItems with
    | None => id_of (findFirstEnabledItem allItems Undefined)
    | Some activeItem =>
        let isGrid := truthy_str (rowId activeItem) in
        let activeIndex := indexOf allItems activeItem in
        let nextItems := slice allItems (activeIndex + 1) None in
        let nextItemsInRow := getItemsInRow nextItems (rowId activeItem) in
        match skip with
        | Some n =>
            let nextEnabledItemsInRow :=
              getEnabledItems nextItemsInRow (activeId st) in
            let nextItem :=
              match at_index (slice nextEnabledItemsInRow n None) 0 with
              | Some it => Some it
              | None =>
                  at_index nextEnabledItemsInRow
                    (Z.of_nat (length nextEnabledItemsInRow) - 1)
              end in
            id_of nextItem
        | None =>
            (* [orientation || "horizontal"] is [orientation]: every
               orientation is a non-empty string *)
            let oppositeOrientation :=
              getOppositeOrientation (if isGrid then o else o) in
            let canLoop :=
              truthy_focus (focusLoop st)
              && focus_differs (focusLoop st) oppositeOrientation in
            let canWrap :=
              isGrid && truthy_focus (focusWrap st)
              && focus_differs (focusWrap st) oppositeOrientation in
            let hasNullItem' :=
              hasNullItem
              || (negb isGrid && canLoop && includesBaseElement st) in
            if canLoop then
              let loopItems :=
                if canWrap && negb hasNullItem' then allItems
                else getItemsInRow allItems (rowId activeItem) in
              let sortedItems :=
                flipItems loopItems (activeId st) hasNullItem' in
              id_of (findFirstEnabledItem sortedItems (activeId st))
            else if canWrap then
              let nextItem :=
                findFirstEnabledItem
                  (if hasNullItem' then nextItemsInRow else nextItems)
                  (activeId st) in
              if hasNullItem' then
                (if truthy_id (id_of nextItem) then id_of nextItem
                 else Null)
              else id_of nextItem
            else
              let nextItem :=
                findFirstEnabledItem nextItemsInRow (activeId st) in
              match nextItem with
              | None => if hasNullItem' then Null else Undefined
              | Some it => id it
              end
        end
    end.

Definition first : jsid :=
  id_of (findFirstEnabledItem (renderedItems st) Undefined).

Definition last : jsid :=
  id_of (findFirstEnabledItem (reverseArray (renderedItems st)) Undefined).

Definition next (skip : option Z) : jsid :=
  getNextId (renderedItems st) (orientation st) false skip.

Definition previous (skip : option Z) : jsid :=
  let isGrid :=
    match findFirstEnabledItem (renderedItems st) Undefined with
    | Some it => truthy_str (rowId it)
    | None => false
    end in
  let hasNullItem := negb isGrid && includesBaseElement st in
  getNextId (reverseArray (renderedItems st)) (orientation st)
    hasNullItem skip.

(** [!skip] for [skip?: number]. *)
Definition not_skip (skip : option Z) : bool :=
  match skip with
  | None => true
  | Some n => (n =? 0)%Z
  end.

Definition down (skip : option Z) : jsid :=
  let shouldShift := focusShift st && not_skip skip in
  let verticalItems :=
    verticalizeItems
      (flatten2DArray
         (normalizeRows (groupItemsByRows (renderedItems st))
            (activeId st) shouldShift)) in
  let canLoop :=
    truthy_focus (focusLoop st)
    && focus_differs (focusLoop st) (Some horizontal) in
  let hasNullItem := canLoop && includesBaseElement st in
  getNextId verticalItems vertical hasNullItem skip.

Definition up (skip : option Z) : jsid :=
  let shouldShift := focusShift st && not_skip skip in
  let verticalItems :=
    verticalizeItems
      (reverseArray
         (flatten2DArray
            (normalizeRows (groupItemsByRows (renderedItems st))
               (activeId st) shouldShift))) in
  let hasNullItem := includesBaseElement st in
  getNextId verticalItems vertical hasNullItem skip.
End Navigation.

(** *** State updates

    [createStore] of [utils/store] is not among the sources; what the
    specification says of it is used: [setState(key, value)] replaces the
    field when the value changed and then synchronously notifies the
    listeners registered for that key; a [setState] with an unchanged value
    triggers nothing. The only listener the composite store registers (in
    [setup], with [store.subscribe], on [renderedItems] and [activeId]) is
    [activeIdListener]; the states below are those of a store that has been
    set up. *)

(** The listener: [store.setState("activeId",
    getActiveId(state.renderedItems, state.activeId))]. Its own update
    notifies the listener once more, which then finds nothing to change
    (see [activeIdListener_stable]). *)
Definition activeIdListener (st : CompositeStoreState) : CompositeStoreState :=
  let v := getActiveId (renderedItems st) (activeId st) Undefined in
  if jsid_eqb v (activeId st) then st else set_activeId st v.

(** Modelled from the spec: [setState("activeId", v)], through [setState]
    of [utils/store] as described above. *)
Definition setActiveId (st : CompositeStoreState) (v : jsid)
  : CompositeStoreState :=
  if jsid_eqb v (activeId st) then st
  else activeIdListener (set_activeId st v).

(** Modelled from the spec: [setState("renderedItems", l)], as above; a new
    array is always a changed value. *)
Definition setRenderedItems (st : CompositeStoreState) (l : list Item)
  : CompositeStoreState :=
  activeIdListener (set_renderedItems st l).

(** Modelled from the spec: [setState("moves", v)], as above; no listener
    is registered for [moves]. *)
Definition setMoves (st : CompositeStoreState) (v : Z) : CompositeStoreState :=
  if (v =? moves st)%Z then st else set_moves st v.

(** [moves + 1] is the sum of the host numbers, see [number_add]. *)
Definition move (st : CompositeStoreState) (v : jsid) : CompositeStoreState :=
  match v with
  | Undefined => st
  | _ =>
      let st1 := setActiveId st v in
      setMoves st1 (number_add (moves st1) 1)
  end.

End ComboboxCompositeStore.


(** * The collection store ([createCollectionStore]) *)
Module CollectionStore.

Record State : Type := mkState {
  items : list Item;
  renderedItems : list Item
}.

(** What the closure of [mergeItem] remembers for its [unregisterItem]:
    [let prevItem: T | undefined; let index: number | undefined]. *)
Record Registration : Type := mkRegistration {
  prevItem : option Item;
  index : option Z
}.

(** [{ ...prevItem, ...item }]: every own property of [item] wins, also
    one whose value is [undefined]; a property absent from [item] keeps the
    value it has in [prevItem]; [id] is required in every item. *)
Definition mergeProps (prev : Item) (item : ItemObject) : Item :=
  mkItem (objId item)
    (spread (element prev) (objElement item))
    (spread (rowId prev) (objRowId item))
    (spread (disabled prev) (objDisabled item))
    (spread (children prev) (objChildren item)).

(** [array[index] = v] on a copy, for the [index] computed by [indexOf]:
    a negative index names no element of the array. *)
Definition assignAt (l : list Item) (i : Z) (v : Item) : list Item :=
  if (i <? 0)%Z then l else array_set l (Z.to_nat i) v.

(** The updater that [mergeItem] passes to [setItems], together with the
    variables it assigns. *)
Definition mergeUpdate (item : ItemObject) (l : list Item)
  : list Item * Registration :=
  match find (fun it => jsid_eqb (id it) (objId item)) l with
  | Some prev =>
      let i := indexOf l prev in
      (assignAt l i (mergeProps prev item),
       mkRegistration (Some prev) (Some i))
  | None => (l ++ [asItem item], mkRegistration None None)
  end.

(** The updater that [unregisterItem] passes to [setItems]. *)
Definition unregisterUpdate (item : ItemObject) (reg : Registration)
    (l : list Item) : list Item :=
  match prevItem reg with
  | None => filter (fun it => negb (jsid_eqb (id it) (objId item))) l
  | Some prev =>
      match index reg with
      | None => l
      | Some i => if (i <? 0)%Z then l else assignAt l i prev
      end
  end.

(** [registerItem(item)]: [mergeItem] over [store.setState("items", ...)].
    Returns the new state and the data of the returned unregister
    function. *)
Definition registerItem (st : State) (item : ItemObject)
  : State * Registration :=
  let (l, reg) := mergeUpdate item (items st) in
  (mkState l (renderedItems st), reg).

(** Calling the function returned by [registerItem(item)]. *)
Definition unregisterItem (item : ItemObject) (reg : Registration)
    (st : State) : State :=
  mkState (unregisterUpdate item reg (items st)) (renderedItems st).

End CollectionStore.

(** * The tooltip store ([createTooltipStore]) *)
Module TooltipStore.

(** The two callbacks handed to [afterTimeout]:
    [tooltips.setState("activeRef", ref)] and
    [tooltips.setState("activeRef", a => a === ref ? null : a)]. *)
Inductive Callback : Type :=
| Acquire
| Release.

(** A pending [setTimeout], scheduled by the listener of tooltip [owner]. *)
Record Timer : Type := mkTimer {
  owner : nat;
  delay : Z;
  callback : Callback
}.

(** One tooltip store that has been set up: its [Symbol()], its [timeout],
    its own [open] state, and the [open] state of its disclosure store
    (kept apart by [disclosure.omit("open", "mounted")]). *)
Record Tooltip : Type := mkTooltip {
  ref : nat;
  timeout : Z;
  open : bool;
  disclosureOpen : bool
}.

(** The process: the module-level store [tooltips] with its single field
    [activeRef : symbol | null], the tooltip stores in the order in which
    they subscribed, and the pending timers. *)
Record World : Type := mkWorld {
  activeRef : option nat;
  tooltips : list Tooltip;
  timers : list Timer
}.

Definition set_open (v : bool) (t : Tooltip) : Tooltip :=
  mkTooltip (ref t) (timeout t) v (disclosureOpen t).

Definition set_disclosureOpen (v : bool) (t : Tooltip) : Tooltip :=
  mkTooltip (ref t) (timeout t) (open t) v.

(** [tooltip.setState("open", v)] in the store whose symbol is [r]. *)
Definition setOpen (r : nat) (v : bool) (w : World) : World :=
  mkWorld (activeRef w)
    (map (fun t => if ref t =? r then set_open v t else t)%nat (tooltips w))
    (timers w).

(** The listener each tooltip registers on [activeRef]:
    [tooltip.setState("open", state.activeRef === ref)]. *)
Definition activeRefListener (a : option nat) (t : Tooltip) : Tooltip :=
  set_open (option_eqb Nat.eqb a (Some (ref t))) t.

(** Modelled from the spec: [setState] of [utils/store] (not among the
    sources): an unchanged value does nothing, a changed one is stored and
    the listeners of the key run synchronously, in subscription order. *)
Definition setActiveRef (a : option nat) (w : World) : World :=
  if option_eqb Nat.eqb a (activeRef w) then w
  else mkWorld a (map (activeRefListener a) (tooltips w)) (timers w).

(** [afterTimeout(timeoutMs, cb)] *)
Definition afterTimeout (r : nat) (ms : Z) (cb : Callback) (w : World)
  : World :=
  mkWorld (activeRef w) (tooltips w) (timers w ++ [mkTimer r ms cb]).

Definition isSome {A} (o : option A) : bool :=
  match o with
  | Some _ => true
  | None => false
  end.

(** The listener on the disclosure's [open], for the tooltip [t], called
    with [state.open] and [prev.open]. *)
Definition disclosureListener (t : Tooltip) (stateOpen prevOpen : bool)
    (w : World) : World :=
  let r := ref t in
  if stateOpen then
    if (timeout t =? 0)%Z || isSome (activeRef w) then
      setOpen r true (setActiveRef (Some r) w)
    else
      afterTimeout r (timeout t) Acquire (setActiveRef None w)
  else if negb (Bool.eqb stateOpen prevOpen) then
    afterTimeout r (timeout t) Release (setOpen r false w)
  else w.

(** Modelled from the spec: the cleanup returned by a [sync] listener runs
    before the listener is called again; here it is the [clearTimeout] of
    the timer that the previous call scheduled. *)
Definition cleanup (r : nat) (w : World) : World :=
  mkWorld (activeRef w) (tooltips w)
    (filter (fun tm => negb (owner tm =? r)%nat) (timers w)).

(** The disclosure of the tooltip with symbol [r] changes its [open] state
    to [v] (its [show], [hide], [toggle] or [setOpen]). *)
Definition setDisclosureOpen (r : nat) (v : bool) (w : World) : World :=
  match find (fun t => ref t =? r)%nat (tooltips w) with
  | None => w
  | Some t =>
      if Bool.eqb v (disclosureOpen t) then w
      else
        let w1 :=
          mkWorld (activeRef w)
            (map (fun u => if (ref u =? r)%nat
                           then set_disclosureOpen v u else u)
               (tooltips w))
            (timers w) in
        disclosureListener t v (disclosureOpen t) (cleanup r w1)
  end.

(** The callback of a timer runs. *)
Definition runCallback (tm : Timer) (w : World) : World :=
  match callback tm with
  | Acquire => setActiveRef (Some (owner tm)) w
  | Release =>
      setActiveRef
        (if option_eqb Nat.eqb (activeRef w) (Some (owner tm)) then None
         else activeRef w)
        w
  end.

(** The [n]-th pending timer fires: it leaves the pending list and its
    callback runs. *)
Definition fire (n : nat) (w : World) : World :=
  match nth_error (timers w) n with
  | None => w
  | Some tm =>
      runCallback tm
        (mkWorld (activeRef w) (tooltips w)
           (firstn n (timers w) ++ skipn (S n) (timers w)))
  end.

(** Open state of the tooltip with symbol [r]. *)
Definition isOpen (r : nat) (w : World) : option bool :=
  option_map open (find (fun t => ref t =? r)%nat (tooltips w)).

End TooltipStore.

(** ** Sample items and states *)

Definition plain (name : string) : Item :=
  mkItem (Str name) None None None None.

Definition cell (name row : string) : Item :=
  mkItem (Str name) None (Some row) None None.

(** State of a freshly created store ([createCompositeStore] with only
    [activeId] given) once [l] has been rendered. *)
Definition defaultState (l : list Item) (active : jsid) : CompositeStoreState :=
  mkState l l None false both false (FBool false) (FBool false) false 0%Z
    (match active with Null => true | _ => false end) active.

Definition grid2x2 : list Item :=
  [cell "A" "r1"; cell "B" "r1"; cell "C" "r2"; cell "D" "r2"].

Definition abc : list Item := [plain "A"; plain "B"; plain "C"].

(** A state with every option spelled out. *)
Definition stateWith (l : list Item) (active : jsid) (o : Orientation)
    (isRtl : bool) (loop wrap : FocusFlag) (shift base : bool)
  : CompositeStoreState :=
  mkState l l None false o isRtl loop wrap shift 0%Z base active.

(** ** Reference notions for the statements

    These are written independently of the store's code: the first and the
    last enabled item of a list, and membership of an id. *)

Definition is_enabled (x : Item) : bool := negb (truthy_flag (disabled x)).

Fixpoint firstEnabled (l : list Item) : option Item :=
  match l with
  | [] => None
  | x :: l' => if is_enabled x then Some x else firstEnabled l'
  end.

Fixpoint lastEnabled (l : list Item) : option Item :=
  match l with
  | [] => None
  | x :: l' =>
      match lastEnabled l' with
      | Some y => Some y
      | None => if is_enabled x then Some x else None
      end
  end.

(** The order in which horizontal navigation walks the rendered items:
    render order, mirrored when [rtl] is set and the orientation is not
    vertical. *)
Definition navigationOrder (st : CompositeStoreState) : list Item :=
  if rtl st && negb (Orientation_eqb (orientation st) vertical)
  then rev (renderedItems st)
  else renderedItems st.

(** [first()] and [last()] as the specification words them: first and last
    enabled item of the render order "respecting RTL reversal for horizontal
    cases only". *)
Definition first_as_specified (st : CompositeStoreState) : jsid :=
  id_of (firstEnabled (navigationOrder st)).

Definition last_as_specified (st : CompositeStoreState) : jsid :=
  id_of (lastEnabled (navigationOrder st)).

(** The invariant as the specification words it: [activeId], if it is a
    string, is the id of a rendered item, unless no enabled item exists. *)
Definition activeId_valid (st : CompositeStoreState) : Prop :=
  match activeId st with
  | Str s =>
      (exists x, In x (renderedItems st) /\ id x = Str s)
      \/ firstEnabled (renderedItems st) = None
  | _ => True
  end.

(** What a navigation function may return at state [st]: [undefined],
    [null], or the id of a rendered item. *)
Definition candidate_ok (st : CompositeStoreState) (r : jsid) : Prop :=
  r = Undefined \/ r = Null
  \/ exists x, In x (renderedItems st) /\ id x = r.

(** [next()] from the last enabled item as the specification words it, for
    a single row: [undefined] without [focusLoop], the first enabled item's
    id with [focusLoop]. *)
Definition next_from_last_as_specified (st : CompositeStoreState) : Prop :=
  (forall y, In y (renderedItems st) -> rowId y = None) ->
  lastEnabled (renderedItems st) <> None ->
  activeId st = id_of (lastEnabled (renderedItems st)) ->
  (focusLoop st = FBool false -> CompositeStore.next st None = Undefined)
  /\ (focusLoop st = FBool true ->
      CompositeStore.next st None = id_of (firstEnabled (renderedItems st))).

(** The tooltip scenario of the specification: two tooltips with
    [timeout = 500]; the disclosure of tooltip 1 opens and its timer fires. *)
Definition twoTooltips : TooltipStore.World :=
  TooltipStore.mkWorld None
    [TooltipStore.mkTooltip 1 500 false false;
     TooltipStore.mkTooltip 2 500 false false]
    [].

Definition tooltip1Waiting : TooltipStore.World :=
  TooltipStore.setDisclosureOpen 1 true twoTooltips.

Definition tooltip1Open : TooltipStore.World :=
  TooltipStore.fire 0 tooltip1Waiting.

Definition grid21 : list Item := [cell "A" "r1"; cell "B" "r1"; cell "C" "r2"].

(** [r] is [undefined], [null], or the id of an enabled item of [l]. *)
Definition from_list (l : list Item) (r : jsid) : Prop :=
  r = Undefined \/ r = Null
  \/ exists x, In x l /\ is_enabled x = true /\ id x = r.

(** Every item of [l'] is an item of [l] or the null item. *)
Definition sub_null (l' l : list Item) : Prop :=
  forall x, In x l' -> In x l \/ x = CompositeStore.NULL_ITEM.

(** Grids, for the statements about [down]: the [rowId] of a row is that
    of its first item; a grid row is non-empty, has a truthy [rowId], shared
    by all its items; a grid is a list of grid rows with different
    [rowId]s. *)
Definition rowKey (row : list Item) : option string :=
  match row with
  | h :: _ => rowId h
  | [] => None
  end.

Definition grid_row (row : list Item) : Prop :=
  row <> []
  /\ truthy_str (rowKey row) = true
  /\ forall y, In y row -> rowId y = rowKey row.

Definition grid (rows : list (list Item)) : Prop :=
  Forall grid_row rows /\ NoDup (map rowKey rows).





(** * The collection store: rendering and lookup

    The parts of [createCollectionStore] next to [registerItem]:
    [renderItem] and [item]. *)
Module CollectionRender.

(** The state of the two stores that [createCollectionStore] creates: the
    public [store] and the private store, whose [renderedItems] list is the
    one [renderItem] writes (the public list follows it when [sortItems]
    runs). *)
Record Stores : Type := mkStores {
  store : CollectionStore.State;
  privateRenderedItems : list Item
}.

(** [renderItem(item)]: [registerItem(item)] and [mergeItem] over the
    private [renderedItems]. The two unregister functions are returned
    together. *)
Definition renderItem (s : Stores) (item : ItemObject)
  : Stores * (CollectionStore.Registration * CollectionStore.Registration) :=
  let r1 := CollectionStore.registerItem (store s) item in
  let r2 := CollectionStore.mergeUpdate item (privateRenderedItems s) in
  (mkStores (fst r1) (fst r2), (snd r1, snd r2)).

(** Modelled from the spec: [chain] of [utils/misc], not among the sources:
    the function returned by [chain(f, g)] calls [f], then [g]. Here it is
    the unregister function returned by [renderItem(item)]. *)
Definition unrenderItem (item : ItemObject)
    (regs : CollectionStore.Registration * CollectionStore.Registration)
    (s : Stores) : Stores :=
  let st1 := CollectionStore.unregisterItem item (fst regs) (store s) in
  mkStores st1
    (CollectionStore.unregisterUpdate item (snd regs)
       (privateRenderedItems s)).

(** The single-entry cache of [item]:
    [{ id: string | null; items: T[]; item: T | null }]. Its [items] field
    holds a reference to an array, and [cache.items === items] compares
    references: an array is named here by its address, and [heap] gives the
    contents of the array at each address. The store never writes into an
    array it has published (every updater copies first, with [slice] or
    [filter]), so the contents at an address do not change. *)
Record Cache : Type := mkCache {
  cachedId : jsid;
  cachedItems : nat;
  cachedItem : option Item
}.

(** [const cache = { id: null, item: null, items }], for the initial
    [items] array at address [a]. *)
Definition initialCache (a : nat) : Cache := mkCache Null a None.

(** [item(id)], when [store.getState().items] is the array at address [a]:
    [null] for a falsy id; the cached item when the cache holds this id for
    this array; otherwise the first item with the id (or [null]), which is
    then cached. *)
Definition item (heap : nat -> list Item) (c : Cache) (a : nat) (k : jsid)
  : option Item * Cache :=
  if negb (truthy_id k) then (None, c)
  else if jsid_eqb (cachedId c) k && (cachedItems c =? a)%nat
  then (cachedItem c, c)
  else
    let found := find (fun it => jsid_eqb (id it) k) (heap a) in
    (found, mkCache k a found).

(** A sequence of calls of [item], each with the address of the [items]
    array of the moment and an id; the results in order. *)
Fixpoint itemCalls (heap : nat -> list Item) (c : Cache)
    (calls : list (nat * jsid)) : list (option Item) :=
  match calls with
  | [] => []
  | (a, k) :: rest =>
      let (r, c') := item heap c a k in
      r :: itemCalls heap c' rest
  end.

(** What [item(id)] is meant to return: the first item of the array with
    that id, nothing for a falsy id. *)
Definition lookup (l : list Item) (k : jsid) : option Item :=
  if truthy_id k then find (fun it => jsid_eqb (id it) k) l else None.

(** What the cache promises: the item it holds is the one a search in the
    array it remembers would find. *)
Definition cache_ok (heap : nat -> list Item) (c : Cache) : Prop :=
  truthy_id (cachedId c) = true ->
  cachedItem c = lookup (heap (cachedItems c)) (cachedId c).

End CollectionRender.

(** * Keyboard navigation of a composite item

    The [onKeyDown] handler of [useCompositeItem], after its guards
    ([defaultPrevented], [isSelfTarget], a store being present), for the
    arrow keys, [Home] and [End]. [PageUp] and [PageDown] depend on the
    layout of the page and are left out. *)
Module CompositeItemKeys.

Inductive Key : Type :=
| ArrowUp
| ArrowRight
| ArrowDown
| ArrowLeft
| Home
| End_
| OtherKey.

(** [store.item(id)] for the item's own id. *)
Definition ownItem (st : CompositeStoreState) (k : jsid) : option Item :=
  if negb (truthy_id k) then None
  else find (fun it => jsid_eqb (id it) k) (items st).

(** [keyMap[event.key]] called without arguments: [None] when the entry is
    [false] or missing, otherwise the id it returns. *)
Definition keyAction (st : CompositeStoreState) (k : jsid) (key : Key)
    (ctrlKey : bool) : option jsid :=
  let isGrid :=
    match ownItem st k with
    | Some it => truthy_str (rowId it)
    | None => false
    end in
  let isVertical := negb (Orientation_eqb (orientation st) horizontal) in
  let isHorizontal := negb (Orientation_eqb (orientation st) vertical) in
  match key with
  | ArrowUp =>
      if isGrid || isVertical then Some (CompositeStore.up st None) else None
  | ArrowRight =>
      if isGrid || isHorizontal then Some (CompositeStore.next st None)
      else None
  | ArrowDown =>
      if isGrid || isVertical then Some (CompositeStore.down st None)
      else None
  | ArrowLeft =>
      if isGrid || isHorizontal then Some (CompositeStore.previous st None)
      else None
  | Home =>
      Some (if negb isGrid || ctrlKey then CompositeStore.first st
            else CompositeStore.previous st (Some (-1)%Z))
  | End_ =>
      Some (if negb isGrid || ctrlKey then CompositeStore.last st
            else CompositeStore.next st (Some (-1)%Z))
  | OtherKey => None
  end.

(** The handler: [preventScroll] and [moveOnKeyPress] are the values of
    [preventScrollOnKeyDownProp(event)] and [moveOnKeyPressProp(event)]. *)
Definition onKeyDown (st : CompositeStoreState) (k : jsid) (key : Key)
    (ctrlKey preventScroll moveOnKeyPress : bool) : CompositeStoreState :=
  match keyAction st k key ctrlKey with
  | None => st
  | Some nextId =>
      if preventScroll || negb (jsid_eqb nextId Undefined) then
        if negb moveOnKeyPress then st
        else CompositeStore.move st nextId
      else st
  end.

End CompositeItemKeys.

(** ** Further notions for the statements *)

Definition set_rtl (st : CompositeStoreState) (v : bool) :=
  mkState (items st) (renderedItems st) (baseElement st) (virtualFocus st)
    (orientation st) v (focusLoop st) (focusWrap st) (focusShift st)
    (moves st) (includesBaseElement st) (activeId st).

(** The [rowId] that the padding of a row carries without [focusShift]:
    that of the row's last item. *)
Definition padRowId (row : list Item) : option string :=
  match rev row with
  | p :: _ => rowId p
  | [] => None
  end.

(** A row as [groupItemsByRows] builds it: not empty, and every item has the
    [rowId] of the first one. *)
Definition uniform_row (row : list Item) : Prop :=
  row <> [] /\ forall y, In y row -> rowId y = rowKey row.

(** Tooltips: an open tooltip holds the token. *)
Definition exclusive (w : TooltipStore.World) : Prop :=
  forall t, In t (TooltipStore.tooltips w) ->
    TooltipStore.open t = true ->
    TooltipStore.activeRef w = Some (TooltipStore.ref t).

(** The worlds that the tooltips can reach: from a start where nothing is
    open and no token is held (whatever timers are pending), by disclosures
    opening or closing and by timers firing. *)
Inductive reachable : TooltipStore.World -> Prop :=
| reach_start (w : TooltipStore.World) :
    TooltipStore.activeRef w = None ->
    (forall t, In t (TooltipStore.tooltips w) ->
       TooltipStore.open t = false) ->
    reachable w
| reach_disclosure (w : TooltipStore.World) (r : nat) (v : bool) :
    reachable w -> reachable (TooltipStore.setDisclosureOpen r v w)
| reach_fire (w : TooltipStore.World) (n : nat) :
    reachable w -> reachable (TooltipStore.fire n w).

(** [r] is [undefined] or the id of an enabled item of [l]. *)
Definition enabled_id (l : list Item) (r : jsid) : Prop :=
  r = Undefined \/ exists x, In x l /\ is_enabled x = true /\ id x = r.

(** The picking of [getNextId] when [skip] is given:
    [items.slice(skip)[0] || items[items.length - 1]]. *)
Definition pickSkip (en : list Item) (n : Z) : option Item :=
  match at_index (slice en n None) 0 with
  | Some it => Some it
  | None => at_index en (Z.of_nat (length en) - 1)
  end.

(** The cells of column [j] of a grid, from the top row down; a row that
    is too short has no cell there. *)
Definition column (j : nat) (rows : list (list Item)) : list Item :=
  flat_map (fun row => match nth_error row j with
                       | Some it => [it]
                       | None => []
                       end) rows.

(** * Properties *)

(** ** Equality tests *)

Lemma jsid_eqb_eq (a b : jsid) : jsid_eqb a b = true <-> a = b.
Proof.
  destruct a, b; simpl; split; intro H; try congruence; try reflexivity.
  - apply String.eqb_eq in H. now subst.
  - injection H as ->. apply String.eqb_refl.
Qed.

Lemma jsid_eqb_refl (a : jsid) : jsid_eqb a a = true.
Proof. now apply jsid_eqb_eq. Qed.

Lemma jsid_eqb_neq (a b : jsid) : jsid_eqb a b = false <-> a <> b.
Proof.
  split.
  - intros H E. apply jsid_eqb_eq in E. congruence.
  - intros H. destruct (jsid_eqb a b) eqn:E; [|reflexivity].
    apply jsid_eqb_eq in E. contradiction.
Qed.

Lemma opt_string_eqb_eq (a b : option string) :
  opt_string_eqb a b = true <-> a = b.
Proof.
  destruct a, b; simpl; split; intro H; try congruence; try reflexivity.
  - apply String.eqb_eq in H. now subst.
  - injection H as ->. apply String.eqb_refl.
Qed.

Lemma opt_string_eqb_refl (a : option string) : opt_string_eqb a a = true.
Proof. now apply opt_string_eqb_eq. Qed.

Lemma option_eqb_refl {A} (eqb : A -> A -> bool) :
  (forall x, eqb x x = true) -> forall o, option_eqb eqb o o = true.
Proof. intros H [x|]; simpl; auto. Qed.

Lemma Item_eqb_refl (x : Item) : Item_eqb x x = true.
Proof.
  unfold Item_eqb.
  rewrite jsid_eqb_refl, !opt_string_eqb_refl.
  rewrite (option_eqb_refl Nat.eqb Nat.eqb_refl).
  rewrite (option_eqb_refl Bool.eqb).
  - reflexivity.
  - now intros [].
Qed.

Lemma Item_eqb_id (x y : Item) : Item_eqb x y = true -> id x = id y.
Proof.
  unfold Item_eqb. intros H.
  repeat (apply andb_prop in H; destruct H as [H ?]).
  now apply jsid_eqb_eq.
Qed.

(** ** State updates: [move] *)

Lemma set_activeId_same (st : CompositeStoreState) :
  set_activeId st (activeId st) = st.
Proof. now destruct st. Qed.

(** The listener leaves a defined [activeId] alone. *)
Lemma activeIdListener_defined (st : CompositeStoreState) :
  activeId st <> Undefined -> CompositeStore.activeIdListener st = st.
Proof.
  intros H. unfold CompositeStore.activeIdListener, CompositeStore.getActiveId.
  destruct (activeId st) eqn:E; try congruence; simpl.
  - reflexivity.
  - now rewrite String.eqb_refl.
Qed.

(** Integers of magnitude up to 2^53 are numbers. *)
Lemma nearest_number_exact (z : Z) :
  (- 9007199254740992 <= z <= 9007199254740992)%Z -> nearest_number z = z.
Proof.
  intros H. unfold nearest_number.
  destruct (Z.abs z <? 9007199254740992)%Z eqn:E; [reflexivity|].
  apply Z.ltb_ge in E.
  assert (C : z = 9007199254740992%Z \/ z = (- 9007199254740992)%Z) by lia.
  destruct C as [-> | ->]; reflexivity.
Qed.

(** On the integers from -2^53 to 2^53 - 1 the increment is exact. *)
Lemma number_add_one (m : Z) :
  (- 9007199254740992 <= m < 9007199254740992)%Z ->
  number_add m 1 = (m + 1)%Z.
Proof. intros H. apply nearest_number_exact. lia. Qed.

Lemma set_moves_same (st : CompositeStoreState) :
  set_moves st (moves st) = st.
Proof. now destruct st. Qed.

(** [move] with a defined id: the two [setState] calls. *)
Lemma move_defined (st : CompositeStoreState) (v : jsid) :
  v <> Undefined ->
  CompositeStore.move st v
  = set_moves (set_activeId st v) (number_add (moves st) 1).
Proof.
  intros Hv.
  assert (S1 : CompositeStore.setActiveId st v = set_activeId st v).
  { unfold CompositeStore.setActiveId.
    destruct (jsid_eqb v (activeId st)) eqn:Q.
    - apply jsid_eqb_eq in Q. subst v. symmetry. apply set_activeId_same.
    - apply activeIdListener_defined. simpl. exact Hv. }
  assert (M : CompositeStore.move st v
              = CompositeStore.setMoves (CompositeStore.setActiveId st v)
                  (number_add (moves (CompositeStore.setActiveId st v)) 1)).
  { destruct v; [congruence | reflexivity | reflexivity]. }
  rewrite M, S1. unfold CompositeStore.setMoves.
  cbn [moves set_activeId].
  destruct (number_add (moves st) 1 =? moves st)%Z eqn:Q; [|reflexivity].
  apply Z.eqb_eq in Q. rewrite Q.
  symmetry. apply (set_moves_same (set_activeId st v)).
Qed.

(** C6 (amended). [move(undefined)] returns the state unchanged, so neither
    [activeId] nor [moves] nor any other field changes. For every other
    argument [v] (a string or [null]) the state after [move(v)] is the state
    before with [activeId] replaced by [v] and [moves] replaced by the sum
    [moves + 1] of the host numbers, and nothing else changed. That sum is
    [moves + 1] exactly, so that the counter grows by exactly one, when
    [moves] is an integer from -2^53 to 2^53 - 1. *)
Theorem move_spec (st : CompositeStoreState) :
  CompositeStore.move st Undefined = st
  /\ forall v, v <> Undefined ->
       CompositeStore.move st v
       = set_moves (set_activeId st v) (number_add (moves st) 1)
       /\ activeId (CompositeStore.move st v) = v
       /\ ((- 9007199254740992 <= moves st < 9007199254740992)%Z ->
           moves (CompositeStore.move st v) = (moves st + 1)%Z).
Proof.
  split; [reflexivity|].
  intros v Hv. rewrite (move_defined st Hv). cbn [activeId moves set_moves].
  split; [reflexivity|]. split; [reflexivity|].
  apply number_add_one.
Qed.

Lemma move_spec_witness :
  CompositeStore.move (defaultState abc (Str "A")) Null
  = set_moves (set_activeId (defaultState abc (Str "A")) Null) 1
  /\ activeId (CompositeStore.move (defaultState abc (Str "A")) Null) = Null
  /\ moves (CompositeStore.move (defaultState abc (Str "A")) Null) = 1%Z.
Proof.
  destruct (proj2 (move_spec (defaultState abc (Str "A"))) Null
              ltac:(discriminate)) as (A & B & C).
  refine (conj A (conj B (C _))).
  cbn [moves defaultState]. lia.
Defined.

(** At [moves = 2^53] the sum [moves + 1] is 2^53 again: [move("B")] sets
    [activeId] and leaves the counter where it was. *)
Lemma move_saturates_counterexample :
  let st := set_moves (defaultState abc (Str "A")) 9007199254740992 in
  activeId (CompositeStore.move st (Str "B")) = Str "B"
  /\ moves (CompositeStore.move st (Str "B")) = moves st
  /\ moves (CompositeStore.move st (Str "B")) <> (moves st + 1)%Z.
Proof.
  vm_compute. repeat split; try reflexivity.
  intros H. discriminate H.
Qed.

(** Beyond 2^53 the numbers are two apart, then four: [+ 1] moves to the
    nearest of them. *)
Example number_add_beyond :
  number_add 9007199254740992 1 = 9007199254740992%Z
  /\ number_add 9007199254740994 1 = 9007199254740996%Z
  /\ number_add 18014398509481984 1 = 18014398509481984%Z
  /\ number_add (- 9007199254740992) 1 = (- 9007199254740991)%Z
  /\ number_add (- 9007199254740994) 1 = (- 9007199254740992)%Z.
Proof. repeat split. Qed.

(** ** The 2x2 grid *)

(** C2. On the grid [[A,B],[C,D]] with default options, [down()] from [B]
    returns ["D"] and [up()] from [D] returns ["B"]. *)
Theorem grid2x2_down_up :
  CompositeStore.down (defaultState grid2x2 (Str "B")) None = Str "D"
  /\ CompositeStore.up (defaultState grid2x2 (Str "D")) None = Str "B".
Proof. split; vm_compute; reflexivity. Qed.

(** The intermediate order that [down] navigates: the grid read column by
    column, each item tagged with its column index. *)
Example grid2x2_verticalized :
  map (fun it => (id it, rowId it))
    (CompositeStore.verticalizeItems
       (flatten2DArray
          (CompositeStore.normalizeRows
             (CompositeStore.groupItemsByRows grid2x2) (Str "B") false)))
  = [(Str "A", Some "0"); (Str "C", Some "0");
     (Str "B", Some "1"); (Str "D", Some "1")].
Proof. vm_compute. reflexivity. Qed.

(** ** The two copies of the navigation algorithm *)

(** C9. On every state and every argument, the functions of the copy in
    [store-combobox-popover.ts] return what those of [ariakit-core] return:
    [next], [previous], [up], [down] (for every [skip]), [first], [last], and
    [move] (for every id). *)
Theorem copies_agree (st : CompositeStoreState) (skip : option Z) (v : jsid) :
  ComboboxCompositeStore.next st skip = CompositeStore.next st skip
  /\ ComboboxCompositeStore.previous st skip = CompositeStore.previous st skip
  /\ ComboboxCompositeStore.up st skip = CompositeStore.up st skip
  /\ ComboboxCompositeStore.down st skip = CompositeStore.down st skip
  /\ ComboboxCompositeStore.first st = CompositeStore.first st
  /\ ComboboxCompositeStore.last st = CompositeStore.last st
  /\ ComboboxCompositeStore.move st v = CompositeStore.move st v.
Proof. repeat split; reflexivity. Qed.

(** ** Arrays: looking an object up again, slicing, assigning *)

(** An item found by its id sits behind a prefix without that id, and
    [indexOf] and [findIndex] both return the length of that prefix. *)
Lemma find_split (k : jsid) (l : list Item) (p : Item) :
  find (fun it => jsid_eqb (id it) k) l = Some p ->
  exists pre post,
    l = pre ++ p :: post
    /\ (forall x, In x pre -> jsid_eqb (id x) k = false)
    /\ id p = k
    /\ indexOf l p = Z.of_nat (length pre)
    /\ findIndex (fun it => jsid_eqb (id it) k) l = Z.of_nat (length pre).
Proof.
  induction l as [|x l IH]; simpl; [discriminate|].
  destruct (jsid_eqb (id x) k) eqn:E.
  - intros [= ->]. exists [], l. simpl. unfold indexOf. simpl.
    rewrite Item_eqb_refl, ?E. apply jsid_eqb_eq in E.
    repeat split; auto. intros ? [].
  - intros H. destruct (IH H) as (pre & post & -> & Hpre & Hid & Hi & Hf).
    exists (x :: pre), post. unfold indexOf in *. simpl.
    assert (N : Item_eqb p x = false).
    { destruct (Item_eqb p x) eqn:Q; [|reflexivity].
      apply Item_eqb_id in Q. rewrite <- Q, Hid, jsid_eqb_refl in E.
      discriminate. }
    rewrite N, ?E, Hi, ?Hf.
    assert (B : (Z.of_nat (length pre) <? 0)%Z = false)
      by (apply Z.ltb_ge; lia).
    rewrite B. repeat split; auto.
    + intros y [<-|Hy]; auto.
    + lia.
    + lia.
Qed.

Lemma array_set_middle {A} (pre post : list A) (x v : A) :
  array_set (pre ++ x :: post) (length pre) v = pre ++ v :: post.
Proof. induction pre as [|y pre IH]; simpl; [reflexivity|]. now rewrite IH. Qed.

Lemma slice_suffix {A} (pre post : list A) :
  slice (pre ++ post) (Z.of_nat (length pre)) None = post.
Proof.
  unfold slice.
  assert (L : length (pre ++ post) = length pre + length post)
    by apply length_app.
  rewrite L.
  replace (Z.of_nat (length pre) <? 0)%Z with false
    by (symmetry; apply Z.ltb_ge; lia).
  rewrite Z.min_l by lia. rewrite Nat2Z.id.
  rewrite skipn_app, skipn_all, Nat.sub_diag. simpl.
  apply firstn_all2. lia.
Qed.

Lemma slice_prefix {A} (pre post : list A) :
  slice (pre ++ post) 0 (Some (Z.of_nat (length pre))) = pre.
Proof.
  unfold slice.
  assert (L : length (pre ++ post) = length pre + length post)
    by apply length_app.
  rewrite L. simpl.
  replace (Z.of_nat (length pre) <? 0)%Z with false
    by (symmetry; apply Z.ltb_ge; lia).
  rewrite !Z.min_l by lia. rewrite Z.sub_0_r, Nat2Z.id.
  change (Z.to_nat 0) with 0. simpl skipn.
  rewrite firstn_app, firstn_all, Nat.sub_diag. simpl.
  apply app_nil_r.
Qed.

(** ** Collection store: register, then unregister *)

Lemma filter_all_true {A} (p : A -> bool) (l : list A) :
  (forall x, In x l -> p x = true) -> filter p l = l.
Proof.
  induction l as [|x l IH]; simpl; intros H; [reflexivity|].
  rewrite (H x) by now left. f_equal. apply IH. intros. apply H. now right.
Qed.

(** The index remembered by [mergeItem] is the position of the previous
    entry, inside the array. *)
Lemma register_index_in_range (item : Item) (l : list Item) (prev : Item) :
  find (fun it => jsid_eqb (id it) (id item)) l = Some prev ->
  exists n,
    indexOf l prev = Z.of_nat n /\ nth_error l n = Some prev /\ n < length l.
Proof.
  intros H. destruct (find_split _ _ H) as (pre & post & -> & _ & _ & Hi & _).
  exists (length pre). split; [exact Hi|].
  rewrite nth_error_app2, Nat.sub_diag by lia. simpl. split; [reflexivity|].
  rewrite length_app. simpl. lia.
Qed.

Lemma mergeUpdate_unregisterUpdate (item : ItemObject) (l : list Item) :
  CollectionStore.unregisterUpdate item
    (snd (CollectionStore.mergeUpdate item l))
    (fst (CollectionStore.mergeUpdate item l)) = l.
Proof.
  unfold CollectionStore.mergeUpdate, CollectionStore.unregisterUpdate.
  destruct (find (fun it => jsid_eqb (id it) (objId item)) l)
    as [prev|] eqn:F; simpl.
  - destruct (find_split _ _ F) as (pre & post & -> & _ & _ & Hi & _).
    rewrite Hi. unfold CollectionStore.assignAt.
    replace (Z.of_nat (length pre) <? 0)%Z with false
      by (symmetry; apply Z.ltb_ge; lia).
    rewrite Nat2Z.id, !array_set_middle. reflexivity.
  - rewrite filter_app. simpl. rewrite jsid_eqb_refl. simpl.
    rewrite app_nil_r. apply filter_all_true. intros x Hx.
    now rewrite (find_none _ _ F x Hx).
Qed.

(** C7. For every collection state and every item, [registerItem(item)]
    followed by the unregister function it returned gives back the state it
    started from: the [items] list has the same entries in the same order.
    When an entry with the same id existed, the registration replaced it in
    place by the spread [{ ...prevItem, ...item }] and the unregister puts
    the previous entry (with all its fields) back at its index; when none
    existed, the item was appended and the unregister removes it. *)
Theorem registerItem_unregister (st : CollectionStore.State)
    (item : ItemObject) :
  CollectionStore.unregisterItem item
    (snd (CollectionStore.registerItem st item))
    (fst (CollectionStore.registerItem st item)) = st
  /\ match find (fun it => jsid_eqb (id it) (objId item))
             (CollectionStore.items st) with
     | Some prev =>
         exists pre post,
           CollectionStore.items st = pre ++ prev :: post
           /\ CollectionStore.items (fst (CollectionStore.registerItem st item))
              = pre ++ CollectionStore.mergeProps prev item :: post
     | None =>
         CollectionStore.items (fst (CollectionStore.registerItem st item))
         = CollectionStore.items st ++ [asItem item]
     end.
Proof.
  split.
  - unfold CollectionStore.registerItem, CollectionStore.unregisterItem.
    pose proof (mergeUpdate_unregisterUpdate item (CollectionStore.items st))
      as H.
    destruct (CollectionStore.mergeUpdate item (CollectionStore.items st))
      as [l reg]. simpl in *. rewrite H. now destruct st.
  - unfold CollectionStore.registerItem, CollectionStore.mergeUpdate.
    destruct (find (fun it => jsid_eqb (id it) (objId item))
                (CollectionStore.items st)) as [prev|] eqn:F; simpl.
    + destruct (find_split _ _ F) as (pre & post & E & _ & _ & Hi & _).
      exists pre, post. split; [exact E|].
      rewrite E in *. rewrite Hi. unfold CollectionStore.assignAt.
      replace (Z.of_nat (length pre) <? 0)%Z with false
        by (symmetry; apply Z.ltb_ge; lia).
      now rewrite Nat2Z.id, array_set_middle.
    + reflexivity.
Qed.

(** A registration that merges into an existing entry, and its undoing:
    the properties the new object lacks keep their previous value. *)
Example registerItem_merge_roundtrip :
  let old := mkItem (Str "B") (Some 7) (Some "r1") (Some true) None in
  let st := CollectionStore.mkState [plain "A"; old; plain "C"] [] in
  let new := mkItemObject (Str "B") Absent Absent (Own (Some false))
               (Own (Some "b")) in
  CollectionStore.items (fst (CollectionStore.registerItem st new))
  = [plain "A"; mkItem (Str "B") (Some 7) (Some "r1") (Some false) (Some "b");
     plain "C"]
  /\ CollectionStore.unregisterItem new
       (snd (CollectionStore.registerItem st new))
       (fst (CollectionStore.registerItem st new)) = st.
Proof. vm_compute. split; reflexivity. Qed.

(** An own property whose value is [undefined] replaces the previous value
    all the same: the object [{ id: "B", rowId: undefined, disabled: false }]
    registered over an entry of row ["r1"] leaves an entry without [rowId];
    the unregister function brings the row back. *)
Example registerItem_own_undefined :
  let old := mkItem (Str "B") (Some 7) (Some "r1") (Some true) None in
  let st := CollectionStore.mkState [plain "A"; old] [] in
  let new := mkItemObject (Str "B") Absent (Own None) (Own (Some false))
               Absent in
  CollectionStore.items (fst (CollectionStore.registerItem st new))
  = [plain "A"; mkItem (Str "B") (Some 7) None (Some false) None]
  /\ CollectionStore.unregisterItem new
       (snd (CollectionStore.registerItem st new))
       (fst (CollectionStore.registerItem st new)) = st.
Proof. vm_compute. split; reflexivity. Qed.

(** ** [first] and [last] *)

Lemma findFirstEnabledItem_firstEnabled (l : list Item) :
  CompositeStore.findFirstEnabledItem l Undefined = firstEnabled l.
Proof.
  unfold CompositeStore.findFirstEnabledItem, CompositeStore.enabled_pred.
  simpl. induction l as [|x l IH]; simpl; [reflexivity|].
  unfold is_enabled. destruct (negb (truthy_flag (disabled x))); auto.
Qed.

Lemma firstEnabled_app (l1 l2 : list Item) :
  firstEnabled (l1 ++ l2)
  = match firstEnabled l1 with
    | Some x => Some x
    | None => firstEnabled l2
    end.
Proof.
  induction l1 as [|x l1 IH]; simpl; [reflexivity|].
  destruct (is_enabled x); auto.
Qed.

Lemma firstEnabled_rev (l : list Item) : firstEnabled (rev l) = lastEnabled l.
Proof.
  induction l as [|x l IH]; simpl; [reflexivity|].
  rewrite firstEnabled_app, IH. simpl.
  destruct (lastEnabled l); [reflexivity|].
  now destruct (is_enabled x).
Qed.

(** [first()] and [last()] at a state with RTL and horizontal orientation:
    the code does not mirror the order. *)
Lemma first_last_rtl_counterexample :
  let st := stateWith abc (Str "B") horizontal true
              (FBool false) (FBool false) false false in
  CompositeStore.first st = Str "A"
  /\ first_as_specified st = Str "C"
  /\ CompositeStore.last st = Str "C"
  /\ last_as_specified st = Str "A"
  /\ ~ (CompositeStore.first st = first_as_specified st
        /\ CompositeStore.last st = last_as_specified st).
Proof.
  vm_compute. repeat split; try reflexivity.
  intros [H _]. discriminate H.
Qed.

(** C5 (amended). For every state, [first()] returns the id of the first
    enabled item of [renderedItems] in render order and [last()] the id of
    the last enabled one ([undefined] when no item is enabled). The result
    depends on [renderedItems] alone: not on [activeId], and not on [rtl] or
    [orientation] -- [first] and [last] apply no RTL reversal. *)
Theorem first_last_render_order (st : CompositeStoreState) :
  CompositeStore.first st = id_of (firstEnabled (renderedItems st))
  /\ CompositeStore.last st = id_of (lastEnabled (renderedItems st))
  /\ forall st', renderedItems st' = renderedItems st ->
       CompositeStore.first st' = CompositeStore.first st
       /\ CompositeStore.last st' = CompositeStore.last st.
Proof.
  unfold CompositeStore.first, CompositeStore.last, reverseArray.
  rewrite !findFirstEnabledItem_firstEnabled, firstEnabled_rev.
  repeat split; auto.
  - now rewrite findFirstEnabledItem_firstEnabled, H.
  - now rewrite findFirstEnabledItem_firstEnabled, firstEnabled_rev, H.
Qed.

Lemma first_last_render_order_witness :
  let st := stateWith abc (Str "B") horizontal true
              (FBool false) (FBool false) false false in
  let st' := defaultState abc Undefined in
  CompositeStore.first st' = CompositeStore.first st
  /\ CompositeStore.last st' = CompositeStore.last st.
Proof.
  intros st st'.
  apply (proj2 (proj2 (first_last_render_order st)) st').
  reflexivity.
Defined.

(** Scenario of the specification: items [A(disabled), B, C] with
    [activeId = undefined]. *)
Example first_skips_disabled :
  CompositeStore.first
    (defaultState [mkItem (Str "A") None None (Some true) None;
                   plain "B"; plain "C"] Undefined) = Str "B".
Proof. reflexivity. Qed.

(** ** The [activeId] listener *)

Lemma activeIdListener_activeId (st : CompositeStoreState) :
  activeId (CompositeStore.activeIdListener st)
  = match activeId st with
    | Undefined => id_of (firstEnabled (renderedItems st))
    | a => a
    end.
Proof.
  unfold CompositeStore.activeIdListener, CompositeStore.getActiveId.
  rewrite findFirstEnabledItem_firstEnabled.
  destruct (activeId st) eqn:E; simpl.
  - destruct (jsid_eqb _ _) eqn:Q; simpl; [|reflexivity].
    apply jsid_eqb_eq in Q. now rewrite E, Q.
  - now rewrite E.
  - now rewrite String.eqb_refl, E.
Qed.

Lemma activeIdListener_renderedItems (st : CompositeStoreState) :
  renderedItems (CompositeStore.activeIdListener st) = renderedItems st.
Proof.
  unfold CompositeStore.activeIdListener.
  now destruct (jsid_eqb _ _).
Qed.

(** The notification caused by the listener's own update changes nothing. *)
Lemma activeIdListener_stable (st : CompositeStoreState) :
  CompositeStore.activeIdListener (CompositeStore.activeIdListener st)
  = CompositeStore.activeIdListener st.
Proof.
  set (st1 := CompositeStore.activeIdListener st).
  unfold CompositeStore.activeIdListener at 1.
  replace (CompositeStore.getActiveId (renderedItems st1) (activeId st1)
             Undefined) with (activeId st1).
  - now rewrite jsid_eqb_refl.
  - unfold CompositeStore.getActiveId.
    rewrite findFirstEnabledItem_firstEnabled.
    subst st1. rewrite activeIdListener_renderedItems.
    rewrite activeIdListener_activeId.
    destruct (activeId st); try reflexivity.
    now destruct (id_of (firstEnabled (renderedItems st))).
Qed.

(** Items [A] and [B] are rendered, [A] is active; then [A] unmounts: its
    unregister function removes it from the rendered list, the store
    publishes the new list, and the listener runs. The stale id stays. *)
Lemma stale_activeId_counterexample :
  let A := plain "A" in
  let B := plain "B" in
  let r1 := CollectionStore.mergeUpdate A [] in
  let r2 := CollectionStore.mergeUpdate B (fst r1) in
  let st := CompositeStore.setRenderedItems (defaultState [A; B] (Str "A"))
              (fst r2) in
  let st' := CompositeStore.setRenderedItems st
               (CollectionStore.unregisterUpdate A (snd r1) (fst r2)) in
  activeId_valid st
  /\ renderedItems st' = [B]
  /\ activeId st' = Str "A"
  /\ firstEnabled (renderedItems st') = Some B
  /\ ~ activeId_valid st'.
Proof.
  vm_compute. repeat split; auto.
  - left. exists (plain "A"). split; [now left | reflexivity].
  - intros [(x & [<-|[]] & H) | H]; discriminate H.
Qed.

(** C3 (amended). Whenever [renderedItems] or [activeId] is updated, the
    listener replaces [activeId] only when it is [undefined], by the id of
    the first enabled rendered item ([undefined] if there is none); an
    [activeId] that is [null] or a string is kept as it is, whether or not
    it references a rendered item. The state reached is stable under the
    listener. *)
Theorem activeId_after_update (st : CompositeStoreState) (l : list Item)
    (v : jsid) :
  (let st' := CompositeStore.setRenderedItems st l in
   renderedItems st' = l
   /\ activeId st'
      = match activeId st with
        | Undefined => id_of (firstEnabled l)
        | a => a
        end
   /\ CompositeStore.activeIdListener st' = st')
  /\ (let st' := CompositeStore.setActiveId st v in
      renderedItems st' = renderedItems st
      /\ activeId st'
         = match v with
           | Undefined =>
               match activeId st with
               | Undefined => Undefined
               | _ => id_of (firstEnabled (renderedItems st))
               end
           | _ => v
           end).
Proof.
  split.
  - unfold CompositeStore.setRenderedItems. cbv zeta.
    rewrite activeIdListener_renderedItems, activeIdListener_activeId.
    rewrite activeIdListener_stable. simpl. auto.
  - unfold CompositeStore.setActiveId. cbv zeta.
    destruct (jsid_eqb v (activeId st)) eqn:Q.
    + apply jsid_eqb_eq in Q. subst v. split; [reflexivity|].
      now destruct (activeId st).
    + rewrite activeIdListener_renderedItems, activeIdListener_activeId.
      simpl. split; [reflexivity|].
      destruct v; try reflexivity.
      destruct (activeId st); try reflexivity. discriminate Q.
Qed.

(** ** Every candidate is the id of an enabled item of the list searched *)

Lemma enabled_pred_enabled (ex : jsid) (x : Item) :
  CompositeStore.enabled_pred ex x = true -> is_enabled x = true.
Proof.
  unfold CompositeStore.enabled_pred, is_enabled.
  destruct (truthy_id ex); [|auto].
  intros H. now apply andb_prop in H.
Qed.

Lemma from_list_item (l l' : list Item) (x : Item) :
  sub_null l' l -> In x l' -> is_enabled x = true -> from_list l (id x).
Proof.
  intros S Hx He. destruct (S x Hx) as [H| ->].
  - right. right. exists x. auto.
  - right. now left.
Qed.

Lemma from_list_find (l l' : list Item) (ex : jsid) :
  sub_null l' l ->
  from_list l (id_of (CompositeStore.findFirstEnabledItem l' ex)).
Proof.
  intros S. unfold CompositeStore.findFirstEnabledItem.
  destruct (find _ l') as [x|] eqn:F; simpl; [|now left].
  apply find_some in F. destruct F as [Hx He].
  eapply from_list_item; eauto using enabled_pred_enabled.
Qed.

Lemma sub_null_refl (l : list Item) : sub_null l l.
Proof. intros x Hx. now left. Qed.

Lemma sub_null_trans (l1 l2 l3 : list Item) :
  sub_null l1 l2 -> sub_null l2 l3 -> sub_null l1 l3.
Proof.
  intros A B x Hx. destruct (A x Hx) as [H| ->]; [now apply B | now right].
Qed.

Lemma sub_null_incl (l1 l2 : list Item) : incl l1 l2 -> sub_null l1 l2.
Proof. intros H x Hx. left. now apply H. Qed.

Lemma firstn_incl {A} (n : nat) (l : list A) : incl (firstn n l) l.
Proof.
  intros x Hx. rewrite <- (firstn_skipn n l). apply in_or_app. now left.
Qed.

Lemma skipn_incl {A} (n : nat) (l : list A) : incl (skipn n l) l.
Proof.
  intros x Hx. rewrite <- (firstn_skipn n l). apply in_or_app. now right.
Qed.

Lemma slice_incl {A} (l : list A) (a : Z) (b : option Z) :
  incl (slice l a b) l.
Proof.
  unfold slice. intros x Hx.
  apply firstn_incl in Hx. now apply skipn_incl in Hx.
Qed.

Lemma at_index_In {A} (l : list A) (i : Z) (x : A) :
  at_index l i = Some x -> In x l.
Proof.
  unfold at_index. destruct (i <? 0)%Z; [discriminate|].
  apply nth_error_In.
Qed.

Lemma getItemsInRow_incl (l : list Item) (r : option string) :
  incl (CompositeStore.getItemsInRow l r) l.
Proof. intros x Hx. now apply filter_In in Hx. Qed.

Lemma flipItems_sub (l : list Item) (a : jsid) (b : bool) :
  sub_null (CompositeStore.flipItems l a b) l.
Proof.
  unfold CompositeStore.flipItems. intros x Hx.
  apply in_app_or in Hx. destruct Hx as [Hx|Hx].
  - left. eapply slice_incl; eauto.
  - apply in_app_or in Hx. destruct Hx as [Hx|Hx].
    + destruct b; [|destruct Hx]. destruct Hx as [<-|[]]. now right.
    + left. eapply slice_incl; eauto.
Qed.

Lemma getNextId_from_list (st : CompositeStoreState) (l : list Item)
    (o : Orientation) (h : bool) (skip : option Z) :
  from_list l (CompositeStore.getNextId st l o h skip).
Proof.
  unfold CompositeStore.getNextId.
  set (allItems := if rtl st && negb (Orientation_eqb o vertical)
                   then reverseArray l else l).
  assert (A : incl allItems l).
  { subst allItems. destruct (rtl st && _); [|apply incl_refl].
    intros x Hx. unfold reverseArray in Hx. now apply in_rev. }
  assert (S : sub_null allItems l) by now apply sub_null_incl.
  destruct (is_nullish (activeId st)); [now apply from_list_find|].
  destruct (find _ allItems) as [activeItem|] eqn:F;
    [|now apply from_list_find].
  set (nextItems := slice allItems (indexOf allItems activeItem + 1) None).
  assert (N : incl nextItems l).
  { intros x Hx. apply A. eapply slice_incl; eauto. }
  set (inRow := CompositeStore.getItemsInRow nextItems (rowId activeItem)).
  assert (R : incl inRow l).
  { intros x Hx. apply N. eapply getItemsInRow_incl; eauto. }
  destruct skip as [n|].
  - set (en := CompositeStore.getEnabledItems inRow (activeId st)).
    assert (E : forall x, In x en -> from_list l (id x)).
    { intros x Hx. apply filter_In in Hx. destruct Hx as [Hx He].
      right. right. exists x. eauto using enabled_pred_enabled. }
    destruct (at_index (slice en n None) 0) as [x|] eqn:Q; simpl.
    + apply E. apply at_index_In in Q. eapply slice_incl; eauto.
    + destruct (at_index en _) as [x|] eqn:Q'; simpl; [|now left].
      apply E. eapply at_index_In; eauto.
  - match goal with |- context [if ?c then _ else _] => destruct c end.
    + apply from_list_find.
      eapply sub_null_trans; [apply flipItems_sub|].
      match goal with |- context [if ?c then _ else _] => destruct c end;
        [exact S|].
      apply sub_null_incl. intros x Hx. apply A.
      eapply getItemsInRow_incl; eauto.
    + match goal with |- context [if ?c then _ else _] => destruct c end.
      * match goal with
        | |- context [CompositeStore.findFirstEnabledItem ?l' ?e] =>
            assert (Q : from_list l
                          (id_of (CompositeStore.findFirstEnabledItem l' e)))
        end.
        { apply from_list_find.
          match goal with |- context [if ?c then _ else _] => destruct c end;
            now apply sub_null_incl. }
        match goal with |- context [if ?c then _ else _] => destruct c end;
          [|exact Q].
        match goal with |- context [if ?c then _ else _] => destruct c end;
          [exact Q | right; now left].
      * pose proof (@from_list_find l inRow (activeId st)
                      (sub_null_incl R)) as Q.
        fold inRow.
        destruct (CompositeStore.findFirstEnabledItem inRow (activeId st));
          [exact Q|].
        match goal with |- context [if ?c then _ else _] => destruct c end;
          [right; now left | now left].
Qed.

(** ** Where the items of the verticalized order come from *)

Lemma pushToRows_origin (rows : list (list Item)) (item : Item)
    (row : list Item) (y : Item) :
  In row (CompositeStore.pushToRows rows item) -> In y row ->
  y = item \/ exists row0, In row0 rows /\ In y row0.
Proof.
  induction rows as [|r rows IH]; simpl.
  - intros [<-|[]] [<-|[]]. now left.
  - destruct (CompositeStore.row_matches item r).
    + intros [<-|H] Hy.
      * apply in_app_or in Hy. destruct Hy as [Hy|[<-|[]]]; [|now left].
        right. exists r. auto.
      * right. exists row. auto.
    + intros [<-|H] Hy.
      * right. exists r. auto.
      * destruct (IH H Hy) as [E|(row0 & H0 & H1)]; [now left|].
        right. exists row0. auto.
Qed.

Lemma groupItemsByRows_origin_acc (l : list Item) (acc : list (list Item))
    (row : list Item) (y : Item) :
  In row (fold_left CompositeStore.pushToRows l acc) -> In y row ->
  In y l \/ exists row0, In row0 acc /\ In y row0.
Proof.
  revert acc. induction l as [|x l IH]; simpl; intros acc Hr Hy.
  - right. exists row. auto.
  - destruct (IH _ Hr Hy) as [H|(row0 & H0 & H1)]; [auto|].
    destruct (pushToRows_origin _ _ _ _ H0 H1) as [->|H]; auto.
Qed.

Lemma groupItemsByRows_origin (l : list Item) (row : list Item) (y : Item) :
  In row (CompositeStore.groupItemsByRows l) -> In y row -> In y l.
Proof.
  intros Hr Hy.
  destruct (groupItemsByRows_origin_acc _ _ _ _ Hr Hy) as [H|(? & [] & _)].
  exact H.
Qed.

Lemma array_set_In {A} (l : list A) (i : nat) (v y : A) :
  In y (array_set l i v) -> In y l \/ y = v.
Proof.
  revert i. induction l as [|x l IH]; intros i; simpl.
  - intros [<-|[]]. now right.
  - destruct i as [|i]; simpl.
    + intros [<-|H]; auto.
    + intros [<-|H]; auto. destruct (IH _ H); auto.
Qed.

(** A cell written by [normalizeRows] is an item of the same row or an empty
    item. *)
Lemma normalizeCell_origin (a : jsid) (s : bool) (row : list Item) (i : nat)
    (y : Item) :
  In y (CompositeStore.normalizeCell a s row i) ->
  In y row \/ exists r, y = CompositeStore.createEmptyItem r.
Proof.
  unfold CompositeStore.normalizeCell.
  match goal with |- context [if ?c then _ else _] => destruct c end;
    [|auto].
  intros H. apply array_set_In in H. destruct H as [H|H]; [auto|].
  match type of H with
  | _ = match ?p with _ => _ end => destruct p as [q|] eqn:P
  end.
  - assert (Q : In q row).
    { destruct ((i =? 0)%nat && s).
      - apply find_some in P. tauto.
      - eapply at_index_In; eauto. }
    destruct (negb (jsid_eqb a (id q)) && s); subst y; eauto.
  - eauto.
Qed.

Lemma normalizeRow_origin (a : jsid) (s : bool) (n : nat) (row : list Item)
    (y : Item) :
  In y (CompositeStore.normalizeRow a s n row) ->
  In y row \/ exists r, y = CompositeStore.createEmptyItem r.
Proof.
  unfold CompositeStore.normalizeRow. generalize (seq 0 n) as idx.
  intros idx. revert row. induction idx as [|i idx IH]; simpl; intros row H.
  - auto.
  - destruct (IH _ H) as [Q|Q]; [|auto].
    now apply normalizeCell_origin in Q.
Qed.

Lemma verticalizeItems_origin (l : list Item) (x : Item) :
  In x (CompositeStore.verticalizeItems l) ->
  exists y, In y l /\ id y = id x /\ disabled y = disabled x.
Proof.
  unfold CompositeStore.verticalizeItems. intros H.
  apply in_flat_map in H. destruct H as (i & _ & H).
  apply in_flat_map in H. destruct H as (row & Hrow & H).
  destruct (nth_error row i) as [y|] eqn:N; [|destruct H].
  destruct H as [<-|[]]. exists y. simpl. repeat split.
  apply nth_error_In in N. eapply groupItemsByRows_origin; eauto.
Qed.

Lemma createEmptyItem_disabled (r : option string) :
  is_enabled (CompositeStore.createEmptyItem r) = false.
Proof. reflexivity. Qed.

(** An enabled item of the order that [down] and [up] navigate carries the
    id of an enabled rendered item: the padding is disabled. *)
Lemma vertical_enabled_origin (l : list Item) (a : jsid) (s : bool)
    (flip : bool) (x : Item) :
  In x (CompositeStore.verticalizeItems
          ((if flip then @reverseArray Item else fun l0 => l0)
             (flatten2DArray
                (CompositeStore.normalizeRows
                   (CompositeStore.groupItemsByRows l) a s)))) ->
  is_enabled x = true ->
  exists y, In y l /\ is_enabled y = true /\ id y = id x.
Proof.
  intros H He. apply verticalizeItems_origin in H.
  destruct H as (y & Hy & Hid & Hd).
  assert (Hy' : In y (flatten2DArray
                        (CompositeStore.normalizeRows
                           (CompositeStore.groupItemsByRows l) a s))).
  { destruct flip; [|exact Hy]. unfold reverseArray in Hy. now apply in_rev. }
  unfold flatten2DArray in Hy'. apply in_concat in Hy'.
  destruct Hy' as (row' & Hr & Hin).
  unfold CompositeStore.normalizeRows in Hr. apply in_map_iff in Hr.
  destruct Hr as (row & <- & Hrow).
  assert (Ey : is_enabled y = true).
  { unfold is_enabled in *. now rewrite Hd. }
  apply normalizeRow_origin in Hin. destruct Hin as [Hin|(r & ->)].
  - exists y. repeat split; auto. eapply groupItemsByRows_origin; eauto.
  - rewrite createEmptyItem_disabled in Ey. discriminate.
Qed.

Lemma from_list_vertical (l : list Item) (a : jsid) (s flip : bool)
    (r : jsid) :
  from_list
    (CompositeStore.verticalizeItems
       ((if flip then @reverseArray Item else fun l0 => l0)
          (flatten2DArray
             (CompositeStore.normalizeRows
                (CompositeStore.groupItemsByRows l) a s)))) r ->
  from_list l r.
Proof.
  intros [H|[H|(x & Hx & He & Hid)]]; [now left | right; now left |].
  destruct (vertical_enabled_origin _ _ _ _ _ Hx He) as (y & Hy & Ey & Iy).
  right. right. exists y. repeat split; auto. congruence.
Qed.

Lemma from_list_rev (l : list Item) (r : jsid) :
  from_list (rev l) r -> from_list l r.
Proof.
  intros [H|[H|(x & Hx & He & Hid)]]; [now left | right; now left |].
  right. right. exists x. repeat split; auto. now apply in_rev.
Qed.

(** Each navigation function returns [undefined], [null], or the id of an
    enabled rendered item. *)
Lemma navigation_from_rendered (st : CompositeStoreState) (skip : option Z) :
  from_list (renderedItems st) (CompositeStore.next st skip)
  /\ from_list (renderedItems st) (CompositeStore.previous st skip)
  /\ from_list (renderedItems st) (CompositeStore.up st skip)
  /\ from_list (renderedItems st) (CompositeStore.down st skip)
  /\ from_list (renderedItems st) (CompositeStore.first st)
  /\ from_list (renderedItems st) (CompositeStore.last st).
Proof.
  repeat split.
  - apply getNextId_from_list.
  - apply from_list_rev. apply getNextId_from_list.
  - unfold CompositeStore.up.
    apply (@from_list_vertical _ (activeId st)
             (focusShift st && CompositeStore.not_skip skip) true).
    apply getNextId_from_list.
  - unfold CompositeStore.down.
    apply (@from_list_vertical _ (activeId st)
             (focusShift st && CompositeStore.not_skip skip) false).
    apply getNextId_from_list.
  - apply from_list_find, sub_null_refl.
  - apply from_list_rev. apply from_list_find, sub_null_refl.
Qed.

Lemma from_list_candidate (st : CompositeStoreState) (r : jsid) :
  (forall x, In x (renderedItems st) -> id x <> Str "__EMPTY_ITEM__") ->
  from_list (renderedItems st) r ->
  candidate_ok st r /\ r <> Str "__EMPTY_ITEM__".
Proof.
  intros H [->|[->|(x & Hx & _ & <-)]].
  - split; [now left | discriminate].
  - split; [right; now left | discriminate].
  - split; [|now apply H]. right. right. exists x. auto.
Qed.

(** C10. At every state in which no rendered item has the id
    ["__EMPTY_ITEM__"], every id returned by [next], [previous], [up],
    [down] (for every [skip]), [first] or [last] is [undefined], [null], or
    the id of an item of [renderedItems]; in particular it is never the id
    ["__EMPTY_ITEM__"] of the disabled placeholder that row normalization
    inserts, because every candidate search only takes enabled items. *)
Theorem navigation_candidates (st : CompositeStoreState) (skip : option Z) :
  (forall x, In x (renderedItems st) -> id x <> Str "__EMPTY_ITEM__") ->
  (candidate_ok st (CompositeStore.next st skip)
   /\ CompositeStore.next st skip <> Str "__EMPTY_ITEM__")
  /\ (candidate_ok st (CompositeStore.previous st skip)
      /\ CompositeStore.previous st skip <> Str "__EMPTY_ITEM__")
  /\ (candidate_ok st (CompositeStore.up st skip)
      /\ CompositeStore.up st skip <> Str "__EMPTY_ITEM__")
  /\ (candidate_ok st (CompositeStore.down st skip)
      /\ CompositeStore.down st skip <> Str "__EMPTY_ITEM__")
  /\ (candidate_ok st (CompositeStore.first st)
      /\ CompositeStore.first st <> Str "__EMPTY_ITEM__")
  /\ (candidate_ok st (CompositeStore.last st)
      /\ CompositeStore.last st <> Str "__EMPTY_ITEM__").
Proof.
  intros H.
  destruct (navigation_from_rendered st skip) as (A & B & C & D & E & F).
  repeat apply conj; apply (from_list_candidate st); assumption.
Qed.

(** ** [next()] from the last enabled item of a single row *)

Lemma lastEnabled_none (l : list Item) :
  lastEnabled l = None -> forall y, In y l -> is_enabled y = false.
Proof.
  induction l as [|x l IH]; simpl; [intros _ y []|].
  destruct (lastEnabled l); [discriminate|].
  destruct (is_enabled x) eqn:E; [discriminate|].
  intros _ y [<-|H]; auto.
Qed.

Lemma lastEnabled_split (l : list Item) (x : Item) :
  lastEnabled l = Some x ->
  exists pre post,
    l = pre ++ x :: post /\ is_enabled x = true
    /\ forall y, In y post -> is_enabled y = false.
Proof.
  induction l as [|y l IH]; simpl; [discriminate|].
  destruct (lastEnabled l) as [z|] eqn:L.
  - intros [= ->]. destruct (IH eq_refl) as (pre & post & -> & E & P).
    exists (y :: pre), post. auto.
  - destruct (is_enabled y) eqn:E; [|discriminate].
    intros [= ->]. exists [], l. repeat split; auto.
    now apply lastEnabled_none.
Qed.

Lemma find_at (k : jsid) (pre post : list Item) (x : Item) :
  (forall y, In y pre -> jsid_eqb (id y) k = false) -> id x = k ->
  find (fun it => jsid_eqb (id it) k) (pre ++ x :: post) = Some x
  /\ indexOf (pre ++ x :: post) x = Z.of_nat (length pre)
  /\ findIndex (fun it => jsid_eqb (id it) k) (pre ++ x :: post)
     = Z.of_nat (length pre).
Proof.
  intros Hpre Hx. unfold indexOf.
  induction pre as [|y pre IH].
  - simpl. now rewrite Hx, jsid_eqb_refl, Item_eqb_refl.
  - destruct IH as (F & Hi & Hf); [intros; apply Hpre; now right|].
    assert (Ey : jsid_eqb (id y) k = false) by (apply Hpre; now left).
    assert (N : Item_eqb x y = false).
    { destruct (Item_eqb x y) eqn:Q; [|reflexivity].
      apply Item_eqb_id in Q. rewrite <- Q, Hx, jsid_eqb_refl in Ey.
      discriminate. }
    assert (B : (Z.of_nat (length pre) <? 0)%Z = false)
      by (apply Z.ltb_ge; lia).
    cbn [app find findIndex length]. rewrite Ey, N, F, Hi, Hf, B.
    repeat split; lia.
Qed.

Lemma slice_after {A} (pre post : list A) (x : A) :
  slice (pre ++ x :: post) (Z.of_nat (length pre) + 1) None = post.
Proof.
  replace (pre ++ x :: post) with ((pre ++ [x]) ++ post)
    by now rewrite <- app_assoc.
  replace (Z.of_nat (length pre) + 1)%Z with (Z.of_nat (length (pre ++ [x])))
    by (rewrite length_app; simpl; lia).
  apply slice_suffix.
Qed.

Lemma getItemsInRow_all (l : list Item) (r : option string) :
  (forall y, In y l -> rowId y = r) -> CompositeStore.getItemsInRow l r = l.
Proof.
  intros H. apply filter_all_true. intros x Hx.
  rewrite (H x Hx). apply opt_string_eqb_refl.
Qed.

Lemma find_none_all {A} (p : A -> bool) (l : list A) :
  (forall y, In y l -> p y = false) -> find p l = None.
Proof.
  induction l as [|x l IH]; simpl; intros H; [reflexivity|].
  rewrite (H x) by now left. apply IH. intros. apply H. now right.
Qed.

Lemma find_app_none {A} (p : A -> bool) (l1 l2 : list A) :
  (forall y, In y l1 -> p y = false) -> find p (l1 ++ l2) = find p l2.
Proof.
  induction l1 as [|x l IH]; simpl; intros H; [reflexivity|].
  rewrite (H x) by now left. apply IH. intros. apply H. now right.
Qed.

Lemma enabled_pred_disabled (ex : jsid) (x : Item) :
  is_enabled x = false -> CompositeStore.enabled_pred ex x = false.
Proof.
  unfold CompositeStore.enabled_pred, is_enabled. intros ->.
  now destruct (truthy_id ex).
Qed.

Lemma enabled_pred_other (ex : jsid) (x : Item) :
  jsid_eqb (id x) ex = false ->
  CompositeStore.enabled_pred ex x = is_enabled x.
Proof.
  unfold CompositeStore.enabled_pred, is_enabled. intros ->.
  destruct (truthy_id ex); [|reflexivity]. apply andb_true_r.
Qed.

Lemma find_enabled_others (ex : jsid) (l : list Item) :
  (forall y, In y l -> jsid_eqb (id y) ex = false) ->
  CompositeStore.findFirstEnabledItem l ex = firstEnabled l.
Proof.
  unfold CompositeStore.findFirstEnabledItem.
  induction l as [|x l IH]; simpl; intros H; [reflexivity|].
  rewrite enabled_pred_other by (apply H; now left).
  destruct (is_enabled x); [reflexivity|].
  apply IH. intros. apply H. now right.
Qed.

Lemma navigationOrder_In (st : CompositeStoreState) (y : Item) :
  In y (navigationOrder st) -> In y (renderedItems st).
Proof.
  unfold navigationOrder. destruct (rtl st && _); [|auto].
  intros H. now apply in_rev.
Qed.

Lemma navigationOrder_NoDup (st : CompositeStoreState) :
  NoDup (map id (renderedItems st)) -> NoDup (map id (navigationOrder st)).
Proof.
  unfold navigationOrder. destruct (rtl st && _); [|auto].
  intros H. rewrite map_rev. now apply NoDup_rev.
Qed.

Lemma NoDup_ids_split (pre post : list Item) (x : Item) :
  NoDup (map id (pre ++ x :: post)) ->
  forall y, In y pre -> jsid_eqb (id y) (id x) = false.
Proof.
  rewrite map_app. simpl. intros H y Hy.
  apply NoDup_remove_2 in H. apply jsid_eqb_neq. intros E.
  apply H. apply in_or_app. left. rewrite <- E. now apply in_map.
Qed.

(** C1 (amended). For a single row (no item has a [rowId]) with unique ids,
    let the active item be the last enabled item in navigation order (render
    order, mirrored when [rtl] is set and the orientation is not vertical).
    Then [next()] returns [undefined] when looping is off ([focusLoop] is
    false, or names the orientation opposite to the store's). When looping is
    on ([focusLoop] is true or an orientation other than the opposite one),
    [next()] returns [null] if [includesBaseElement] is set, and otherwise
    the id of the first enabled item in navigation order, or [undefined] when
    that item is the active item itself. *)
Theorem next_from_last_enabled (st : CompositeStoreState) (x : Item)
    (s : string) :
  (forall y, In y (renderedItems st) -> rowId y = None) ->
  NoDup (map id (renderedItems st)) ->
  lastEnabled (navigationOrder st) = Some x ->
  activeId st = Str s ->
  id x = Str s ->
  let canLoop :=
    truthy_focus (focusLoop st)
    && focus_differs (focusLoop st)
         (CompositeStore.getOppositeOrientation (orientation st)) in
  (canLoop = false -> CompositeStore.next st None = Undefined)
  /\ (canLoop = true ->
      CompositeStore.next st None
      = if includesBaseElement st then Null
        else match firstEnabled (navigationOrder st) with
             | Some y => if jsid_eqb (id y) (id x) then Undefined else id y
             | None => Undefined
             end).
Proof.
  intros Hrow Hnd Hlast Hact Hid canLoop.
  destruct (lastEnabled_split _ Hlast) as (pre & post & Enav & Ex & Hpost).
  assert (Hpre : forall y, In y pre -> jsid_eqb (id y) (Str s) = false).
  { rewrite <- Hid. apply NoDup_ids_split with (post := post).
    rewrite <- Enav. now apply navigationOrder_NoDup. }
  assert (Hrows : forall y, In y (navigationOrder st) -> rowId y = None).
  { intros y Hy. apply Hrow. now apply navigationOrder_In. }
  destruct (@find_at (Str s) pre post x Hpre Hid) as (F & Hi & Hf).
  assert (Rx : rowId x = None).
  { apply Hrows. rewrite Enav. apply in_or_app. right. now left. }
  assert (Rpost : CompositeStore.getItemsInRow post None = post).
  { apply getItemsInRow_all. intros y Hy. apply Hrows. rewrite Enav.
    apply in_or_app. right. now right. }
  assert (Dpost : forall ex y, In y post ->
                    CompositeStore.enabled_pred ex y = false).
  { intros ex y Hy. apply enabled_pred_disabled. now apply Hpost. }
  unfold CompositeStore.next, CompositeStore.getNextId.
  change (if rtl st && negb (Orientation_eqb (orientation st) vertical)
          then reverseArray (renderedItems st) else renderedItems st)
    with (navigationOrder st).
  rewrite Hact. cbn [is_nullish]. rewrite Enav, F, Hi, slice_after, Rx, Rpost.
  cbn [truthy_str negb andb orb]. fold canLoop.
  split; intros C; rewrite C; cbn [andb orb].
  - unfold CompositeStore.findFirstEnabledItem.
    rewrite find_none_all by (intros; now apply Dpost). reflexivity.
  - rewrite <- Enav, (getItemsInRow_all _ Hrows), Enav.
    unfold CompositeStore.flipItems. rewrite Hf, slice_after.
    replace (pre ++ x :: post) with (pre ++ (x :: post)) by reflexivity.
    rewrite slice_prefix.
    unfold CompositeStore.findFirstEnabledItem.
    rewrite find_app_none by (intros; now apply Dpost).
    destruct (includesBaseElement st); simpl.
    + unfold CompositeStore.enabled_pred. simpl.
      now destruct (negb (String.eqb s "")).
    + fold (CompositeStore.findFirstEnabledItem pre (Str s)).
      rewrite (@find_enabled_others (Str s) pre Hpre), firstEnabled_app.
      destruct (firstEnabled pre) as [y|] eqn:P; simpl.
      * assert (Hy : In y pre).
        { clear - P. induction pre as [|z pre IH]; simpl in *; [discriminate|].
          destruct (is_enabled z); [injection P as ->; now left|].
          right. now apply IH. }
        rewrite Hid, (Hpre y Hy). reflexivity.
      * now rewrite Ex, jsid_eqb_refl.
Qed.

Lemma abc_single_row (y : Item) : In y abc -> rowId y = None.
Proof. intros [<-|[<-|[<-|[]]]]; reflexivity. Qed.

Lemma abc_unique_ids : NoDup (map id abc).
Proof.
  repeat constructor; simpl; intros H;
    repeat (destruct H as [H|H]; [discriminate H|]); exact H.
Qed.

(** The scenario of the specification: items [A, B, C], [activeId = C];
    [next()] is [undefined] with [focusLoop = false] and ["A"] with
    [focusLoop = true]. *)
Lemma next_from_last_enabled_witness :
  CompositeStore.next (defaultState abc (Str "C")) None = Undefined
  /\ CompositeStore.next
       (stateWith abc (Str "C") both false (FBool true) (FBool false)
          false false) None = Str "A".
Proof.
  split.
  - apply (proj1 (@next_from_last_enabled (defaultState abc (Str "C"))
                    (plain "C") "C" abc_single_row abc_unique_ids
                    eq_refl eq_refl eq_refl)).
    reflexivity.
  - apply (proj2 (@next_from_last_enabled
                    (stateWith abc (Str "C") both false (FBool true)
                       (FBool false) false false)
                    (plain "C") "C" abc_single_row abc_unique_ids
                    eq_refl eq_refl eq_refl)).
    reflexivity.
Defined.

(** Three single-row states whose active item is the last enabled rendered
    item, at which [next()] is not what the specification says:
    with [focusLoop] and [includesBaseElement] it returns [null], the stop
    at the composite container; with [focusLoop] and a single enabled item
    it returns [undefined], since the active item is excluded from the
    search; with [rtl] and no [focusLoop] it walks the mirrored order and
    returns ["B"]. *)
Lemma next_from_last_counterexample :
  let withBase := stateWith abc (Str "C") both false (FBool true)
                    (FBool false) false true in
  let single := stateWith [plain "A"] (Str "A") both false (FBool true)
                  (FBool false) false false in
  let mirrored := stateWith abc (Str "C") both true (FBool false)
                    (FBool false) false false in
  (CompositeStore.next withBase None = Null
   /\ ~ next_from_last_as_specified withBase)
  /\ (CompositeStore.next single None = Undefined
      /\ ~ next_from_last_as_specified single)
  /\ (CompositeStore.next mirrored None = Str "B"
      /\ ~ next_from_last_as_specified mirrored).
Proof.
  cbv zeta. repeat split; try reflexivity; intros H.
  - destruct H as [_ H]; [apply abc_single_row | discriminate | reflexivity |].
    specialize (H eq_refl). discriminate H.
  - destruct H as [_ H].
    + intros y [<-|[]]. reflexivity.
    + discriminate.
    + reflexivity.
    + specialize (H eq_refl). discriminate H.
  - destruct H as [H _]; [apply abc_single_row | discriminate | reflexivity |].
    specialize (H eq_refl). discriminate H.
Qed.

(** ** Tooltips: opening while another tooltip is active *)

Lemma find_map_ref (f : TooltipStore.Tooltip -> TooltipStore.Tooltip)
    (r : nat) (l : list TooltipStore.Tooltip) :
  (forall u, TooltipStore.ref (f u) = TooltipStore.ref u) ->
  find (fun u => TooltipStore.ref u =? r)%nat (map f l)
  = option_map f (find (fun u => TooltipStore.ref u =? r)%nat l).
Proof.
  intros H. induction l as [|u l IH]; simpl; [reflexivity|].
  rewrite H. destruct (TooltipStore.ref u =? r)%nat; [reflexivity | exact IH].
Qed.

Lemma isOpen_setOpen_same (r : nat) (v : bool) (w : TooltipStore.World)
    (t : TooltipStore.Tooltip) :
  find (fun u => TooltipStore.ref u =? r)%nat (TooltipStore.tooltips w)
  = Some t ->
  TooltipStore.isOpen r (TooltipStore.setOpen r v w) = Some v.
Proof.
  intros F. unfold TooltipStore.isOpen, TooltipStore.setOpen. simpl.
  rewrite find_map_ref, F.
  - simpl. apply find_some in F. destruct F as [_ F]. now rewrite F.
  - intros u. now destruct (TooltipStore.ref u =? r)%nat.
Qed.

Lemma isOpen_setOpen_other (r r' : nat) (v : bool) (w : TooltipStore.World) :
  r' <> r ->
  TooltipStore.isOpen r' (TooltipStore.setOpen r v w)
  = TooltipStore.isOpen r' w.
Proof.
  intros N. unfold TooltipStore.isOpen, TooltipStore.setOpen. simpl.
  rewrite find_map_ref.
  - destruct (find _ (TooltipStore.tooltips w)) as [u|] eqn:F; [|reflexivity].
    simpl. apply find_some in F. destruct F as [_ F].
    apply Nat.eqb_eq in F.
    replace (TooltipStore.ref u =? r)%nat with false; [reflexivity|].
    symmetry. apply Nat.eqb_neq. congruence.
  - intros u. now destruct (TooltipStore.ref u =? r)%nat.
Qed.

Lemma setActiveRef_activeRef (a : option nat) (w : TooltipStore.World) :
  TooltipStore.activeRef (TooltipStore.setActiveRef a w) = a.
Proof.
  unfold TooltipStore.setActiveRef.
  destruct (option_eqb Nat.eqb a (TooltipStore.activeRef w)) eqn:E;
    [|reflexivity].
  destruct a as [x|], (TooltipStore.activeRef w) as [y|];
    simpl in *; try discriminate; [|reflexivity].
  apply Nat.eqb_eq in E. now subst.
Qed.

Lemma setActiveRef_timers (a : option nat) (w : TooltipStore.World) :
  TooltipStore.timers (TooltipStore.setActiveRef a w) = TooltipStore.timers w.
Proof.
  unfold TooltipStore.setActiveRef. now destruct (option_eqb _ _ _).
Qed.

Lemma setActiveRef_find (a : option nat) (r : nat) (w : TooltipStore.World) :
  option_map TooltipStore.ref
    (find (fun u => TooltipStore.ref u =? r)%nat
       (TooltipStore.tooltips (TooltipStore.setActiveRef a w)))
  = option_map TooltipStore.ref
      (find (fun u => TooltipStore.ref u =? r)%nat (TooltipStore.tooltips w)).
Proof.
  unfold TooltipStore.setActiveRef. destruct (option_eqb _ _ _); [reflexivity|].
  simpl. rewrite find_map_ref by reflexivity.
  now destruct (find _ (TooltipStore.tooltips w)).
Qed.

(** When the token moves from [r'] to another tooltip, the listener of [r']
    closes it. *)
Lemma setActiveRef_closes (r r' : nat) (w : TooltipStore.World)
    (u : TooltipStore.Tooltip) :
  TooltipStore.activeRef w = Some r' -> r' <> r ->
  find (fun u => TooltipStore.ref u =? r')%nat (TooltipStore.tooltips w)
  = Some u ->
  TooltipStore.isOpen r' (TooltipStore.setActiveRef (Some r) w) = Some false.
Proof.
  intros A N F. unfold TooltipStore.setActiveRef, TooltipStore.isOpen.
  rewrite A. simpl.
  replace (r =? r')%nat with false by (symmetry; apply Nat.eqb_neq; congruence).
  simpl. rewrite find_map_ref by reflexivity. rewrite F. simpl.
  apply find_some in F. destruct F as [_ F]. apply Nat.eqb_eq in F.
  rewrite F. f_equal. apply Nat.eqb_neq. congruence.
Qed.

(** C8. Let the disclosure of a set-up tooltip [r] go from closed to open
    while another tooltip [r'] holds the shared [activeRef] token, or while
    the timeout of [r] is zero. Then, within that same update: the tooltip's
    own [open] state is true; the token belongs to [r]; the tooltip [r'] that
    held the token before, if it is another one, has its [open] state false;
    and no timer has been scheduled (the pending timers are the earlier ones,
    less those that the listener of [r] had pending itself). *)
Theorem tooltip_opens_immediately (w : TooltipStore.World) (r : nat)
    (t : TooltipStore.Tooltip) :
  find (fun u => TooltipStore.ref u =? r)%nat (TooltipStore.tooltips w)
  = Some t ->
  TooltipStore.disclosureOpen t = false ->
  (TooltipStore.timeout t = 0%Z
   \/ exists r', TooltipStore.activeRef w = Some r' /\ r' <> r) ->
  let w' := TooltipStore.setDisclosureOpen r true w in
  TooltipStore.isOpen r w' = Some true
  /\ TooltipStore.activeRef w' = Some r
  /\ (forall r' u,
        TooltipStore.activeRef w = Some r' -> r' <> r ->
        find (fun u => TooltipStore.ref u =? r')%nat (TooltipStore.tooltips w)
        = Some u ->
        TooltipStore.isOpen r' w' = Some false)
  /\ TooltipStore.timers w'
     = filter (fun tm => negb (TooltipStore.owner tm =? r)%nat)
         (TooltipStore.timers w).
Proof.
  intros F D C w'. subst w'. unfold TooltipStore.setDisclosureOpen.
  rewrite F, D. cbn [Bool.eqb].
  set (w1 := TooltipStore.cleanup r _).
  assert (R : TooltipStore.ref t = r).
  { apply find_some in F. destruct F as [_ F]. now apply Nat.eqb_eq in F. }
  assert (A1 : TooltipStore.activeRef w1 = TooltipStore.activeRef w)
    by reflexivity.
  assert (F1 : forall q u,
             find (fun u => TooltipStore.ref u =? q)%nat
               (TooltipStore.tooltips w) = Some u ->
             exists u1,
               find (fun u => TooltipStore.ref u =? q)%nat
                 (TooltipStore.tooltips w1) = Some u1).
  { intros q u Fq. subst w1. simpl. rewrite find_map_ref, Fq.
    - simpl. eauto.
    - intros v. now destruct (TooltipStore.ref v =? r)%nat. }
  unfold TooltipStore.disclosureListener. rewrite R.
  assert (G : ((TooltipStore.timeout t =? 0)%Z
               || TooltipStore.isSome (TooltipStore.activeRef w1)) = true).
  { rewrite A1. destruct C as [->|(r' & -> & _)]; [reflexivity|].
    apply orb_true_r. }
  rewrite G.
  assert (F2 : exists u2,
             find (fun u => TooltipStore.ref u =? r)%nat
               (TooltipStore.tooltips
                  (TooltipStore.setActiveRef (Some r) w1)) = Some u2).
  { destruct (F1 r t F) as (u1 & Fu1).
    pose proof (setActiveRef_find (Some r) r w1) as Q. rewrite Fu1 in Q.
    destruct (find _ (TooltipStore.tooltips
                        (TooltipStore.setActiveRef (Some r) w1))) as [u2|];
      [eauto | discriminate Q]. }
  destruct F2 as (u2 & Fu2).
  repeat split.
  - eapply isOpen_setOpen_same; eauto.
  - simpl. apply setActiveRef_activeRef.
  - intros r' u Ha N Fu. rewrite isOpen_setOpen_other by exact N.
    destruct (F1 r' u Fu) as (u1 & Fu1).
    eapply setActiveRef_closes; eauto; rewrite A1; assumption.
  - simpl. now rewrite setActiveRef_timers.
Qed.

(** The scenario: tooltip 1 (timeout 500) is open and holds the token; the
    disclosure of tooltip 2 opens. Tooltip 2 is open at once, tooltip 1 is
    closed, and no timer is pending. *)
Lemma tooltip_opens_immediately_witness :
  TooltipStore.isOpen 1 tooltip1Open = Some true
  /\ TooltipStore.activeRef tooltip1Open = Some 1
  /\ (let w' := TooltipStore.setDisclosureOpen 2 true tooltip1Open in
      TooltipStore.isOpen 2 w' = Some true
      /\ TooltipStore.activeRef w' = Some 2
      /\ TooltipStore.isOpen 1 w' = Some false
      /\ TooltipStore.timers w' = []).
Proof.
  split; [reflexivity|]. split; [reflexivity|].
  destruct (@tooltip_opens_immediately tooltip1Open 2
              (TooltipStore.mkTooltip 2 500 false false)
              eq_refl eq_refl
              (or_intror (ex_intro _ 1 (conj eq_refl (n_Sn 1)))))
    as (A & B & C & D).
  refine (conj A (conj B (conj _ D))).
  exact (C 1 (TooltipStore.mkTooltip 1 500 true true) eq_refl (n_Sn 1)
           eq_refl).
Defined.

(** Before its timer fires, tooltip 1 is still closed and waits 500 ms. *)
Example tooltip1_waits :
  TooltipStore.isOpen 1 tooltip1Waiting = Some false
  /\ TooltipStore.timers tooltip1Waiting
     = [TooltipStore.mkTimer 1 500 TooltipStore.Acquire].
Proof. split; reflexivity. Qed.

(** ** Grids: grouping, padding and transposing the rows *)

Lemma array_set_length_ge {A} (l : list A) (i : nat) (v : A) :
  i <= length l -> S i <= length (array_set l i v).
Proof.
  revert i. induction l as [|x l IH]; intros i H; simpl in *.
  - lia.
  - destruct i as [|i]; simpl; [lia|].
    specialize (IH i). lia.
Qed.



(** Each write of the loop of [normalizeRows] is inside the row or right at
    its end: starting at an index within the row, after [m] cells the row is
    at least [m] cells longer than that index. *)
Lemma normalizeRow_length (a : jsid) (s : bool) (m : nat) :
  forall (k : nat) (row : list Item),
    k <= length row ->
    k + m <= length (fold_left (CompositeStore.normalizeCell a s)
                       (seq k m) row).
Proof.
  induction m as [|m IH]; intros k row H; simpl; [lia|].
  assert (C : S k <= length (CompositeStore.normalizeCell a s row k)).
  { unfold CompositeStore.normalizeCell.
    destruct (nth_error row k) as [it|] eqn:N.
    - assert (L : S k <= length row).
      { apply Nat.le_succ_l. apply nth_error_Some. congruence. }
      destruct (s && truthy_flag (disabled it)); [|exact L].
      now apply array_set_length_ge.
    - now apply array_set_length_ge. }
  specialize (IH (S k) _ C). lia.
Qed.

Lemma firstEnabled_some (l : list Item) (x : Item) :
  firstEnabled l = Some x -> In x l /\ is_enabled x = true.
Proof.
  induction l as [|y l IH]; simpl; [discriminate|].
  destruct (is_enabled y) eqn:E.
  - intros [= ->]. auto.
  - intros H. destruct (IH H). auto.
Qed.




Lemma filter_none {A} (p : A -> bool) (l : list A) :
  (forall y, In y l -> p y = false) -> filter p l = [].
Proof.
  induction l as [|x l IH]; simpl; intros H; [reflexivity|].
  rewrite (H x) by now left. apply IH. intros. apply H. now right.
Qed.


Lemma row_matches_key (item : Item) (row : list Item) :
  CompositeStore.row_matches item row
  = opt_string_eqb (rowKey row) (rowId item).
Proof. now destruct row. Qed.

Lemma opt_string_eqb_neq (a b : option string) :
  a <> b -> opt_string_eqb a b = false.
Proof.
  intros N. destruct (opt_string_eqb a b) eqn:E; [|reflexivity].
  apply opt_string_eqb_eq in E. contradiction.
Qed.

Lemma pushToRows_new (acc : list (list Item)) (item : Item) :
  (forall r, In r acc -> rowKey r <> rowId item) ->
  CompositeStore.pushToRows acc item = acc ++ [[item]].
Proof.
  induction acc as [|r acc IH]; intros H; simpl; [reflexivity|].
  rewrite row_matches_key, opt_string_eqb_neq by (apply H; now left).
  rewrite IH by (intros; apply H; now right). reflexivity.
Qed.

Lemma pushToRows_last (acc : list (list Item)) (row : list Item)
    (item : Item) :
  (forall r, In r acc -> rowKey r <> rowId item) ->
  rowKey row = rowId item ->
  CompositeStore.pushToRows (acc ++ [row]) item = acc ++ [row ++ [item]].
Proof.
  intros H K. induction acc as [|r acc IH]; simpl.
  - now rewrite row_matches_key, K, opt_string_eqb_refl.
  - rewrite row_matches_key, opt_string_eqb_neq by (apply H; now left).
    rewrite IH by (intros; apply H; now right). reflexivity.
Qed.

Lemma group_acc_last (acc : list (list Item)) (h : Item) (l t : list Item) :
  (forall r, In r acc -> rowKey r <> rowId h) ->
  (forall y, In y l -> rowId y = rowId h) ->
  fold_left CompositeStore.pushToRows l (acc ++ [h :: t])
  = acc ++ [h :: t ++ l].
Proof.
  intros Hacc. revert t. induction l as [|x l IH]; intros t H; simpl.
  - now rewrite app_nil_r.
  - assert (Rx : rowId x = rowId h) by (apply H; now left).
    rewrite pushToRows_last.
    + change ((h :: t) ++ [x]) with (h :: (t ++ [x])).
      rewrite IH by (intros; apply H; now right).
      now rewrite <- app_assoc.
    + intros r Hr. rewrite Rx. now apply Hacc.
    + simpl. now rewrite Rx.
Qed.

(** Grouping the concatenation of the rows of a grid gives the rows back. *)
Lemma group_concat_acc (rows acc : list (list Item)) :
  Forall grid_row rows ->
  NoDup (map rowKey (acc ++ rows)) ->
  fold_left CompositeStore.pushToRows (concat rows) acc = acc ++ rows.
Proof.
  revert acc. induction rows as [|row rows IH]; intros acc F N; simpl.
  - now rewrite app_nil_r.
  - inversion F as [|? ? (Hne & _ & Hu) F']; subst.
    destruct row as [|h t]; [congruence|]. simpl in Hu.
    assert (Hacc : forall r, In r acc -> rowKey r <> rowId h).
    { intros r Hr E. rewrite map_app in N. simpl in N.
      apply NoDup_remove_2 in N. apply N. apply in_or_app. left.
      rewrite <- E. now apply in_map. }
    rewrite fold_left_app. cbn [fold_left].
    rewrite (@pushToRows_new acc h Hacc).
    rewrite (@group_acc_last acc h t [] Hacc)
      by (intros; apply Hu; now right).
    cbn [app]. rewrite IH.
    + now rewrite <- app_assoc.
    + exact F'.
    + now rewrite <- app_assoc.
Qed.

Lemma group_concat (rows : list (list Item)) :
  grid rows -> CompositeStore.groupItemsByRows (concat rows) = rows.
Proof.
  intros [F N]. unfold CompositeStore.groupItemsByRows.
  now rewrite (@group_concat_acc rows [] F N).
Qed.

Lemma getMaxRowLength_ge_acc (rows : list (list Item)) (m : nat) :
  let step := fun maxLength (row : list Item) =>
                if (maxLength <? length row)%nat then length row
                else maxLength in
  m <= fold_left step rows m
  /\ forall row, In row rows -> length row <= fold_left step rows m.
Proof.
  intros step. revert m. induction rows as [|r rows IH]; intros m; simpl.
  - split; [lia | intros ? []].
  - destruct (IH (step m r)) as [A B].
    assert (S1 : m <= step m r /\ length r <= step m r).
    { unfold step. destruct (Nat.ltb_spec m (length r)); lia. }
    split; [lia|]. intros row [<-|H]; [lia | now apply B].
Qed.

Lemma getMaxRowLength_ge (rows : list (list Item)) (row : list Item) :
  In row rows -> length row <= CompositeStore.getMaxRowLength rows.
Proof. intros H. now apply (@getMaxRowLength_ge_acc rows 0). Qed.














(** Finite case analysis on membership in a literal list. *)
Ltac in_literal H :=
  simpl in H;
  repeat (destruct H as [H|H]; [try subst|]); try contradiction.





(** Where the padding is met: in the grid [[A,B],[C]], moving down from [B]
    in the second column. Without [focusShift] the cell below is the
    disabled placeholder and [down] has no candidate; with [focusShift] the
    placeholder's position holds the row's last item, ["C"]. *)
Example down_into_short_row :
  CompositeStore.down
    (stateWith grid21 (Str "B") both false (FBool false) (FBool false)
       false false) (Some 0%Z) = Undefined
  /\ CompositeStore.down
       (stateWith grid21 (Str "B") both false (FBool false) (FBool false)
          true false) (Some 0%Z) = Str "C"
  /\ CompositeStore.normalizeRows (CompositeStore.groupItemsByRows grid21)
       (Str "B") false
     = [[cell "A" "r1"; cell "B" "r1"];
        [cell "C" "r2"; CompositeStore.createEmptyItem (Some "r2")]]
  /\ CompositeStore.normalizeRows (CompositeStore.groupItemsByRows grid21)
       (Str "B") true
     = [[cell "A" "r1"; cell "B" "r1"]; [cell "C" "r2"; cell "C" "r2"]].
Proof. repeat split; reflexivity. Qed.

(** A grid with rows of unequal length and no item named like the
    placeholder: the candidates of [down] and the other functions. *)
Lemma navigation_candidates_witness :
  let st := stateWith grid21 (Str "B") both false (FBool false) (FBool false)
              false false in
  (candidate_ok st (CompositeStore.next st None)
   /\ CompositeStore.next st None <> Str "__EMPTY_ITEM__")
  /\ (candidate_ok st (CompositeStore.previous st None)
      /\ CompositeStore.previous st None <> Str "__EMPTY_ITEM__")
  /\ (candidate_ok st (CompositeStore.up st None)
      /\ CompositeStore.up st None <> Str "__EMPTY_ITEM__")
  /\ (candidate_ok st (CompositeStore.down st None)
      /\ CompositeStore.down st None <> Str "__EMPTY_ITEM__")
  /\ (candidate_ok st (CompositeStore.first st)
      /\ CompositeStore.first st <> Str "__EMPTY_ITEM__")
  /\ (candidate_ok st (CompositeStore.last st)
      /\ CompositeStore.last st <> Str "__EMPTY_ITEM__").
Proof.
  intros st. apply (@navigation_candidates st None).
  intros x [<-|[<-|[<-|[]]]]; discriminate.
Defined.

(** * Further properties of the composite store *)

Unset Implicit Arguments.

(** ** [groupItemsByRows] *)

Lemma rowKey_app (row : list Item) (x : Item) :
  row <> [] -> rowKey (row ++ [x]) = rowKey row.
Proof. destruct row; [congruence | reflexivity]. Qed.

Lemma pushToRows_perm (rows : list (list Item)) (x : Item) :
  Permutation (concat (CompositeStore.pushToRows rows x)) (x :: concat rows).
Proof.
  induction rows as [|row rows IH]; simpl; [apply Permutation_refl|].
  destruct (CompositeStore.row_matches x row); simpl.
  - rewrite <- app_assoc. simpl.
    apply Permutation_sym, Permutation_middle.
  - eapply Permutation_trans; [apply Permutation_app_head, IH|].
    apply Permutation_sym, (Permutation_middle row (concat rows) x).
Qed.

Lemma pushToRows_keys (rows : list (list Item)) (x : Item) (k : option string) :
  Forall uniform_row rows ->
  In k (map rowKey (CompositeStore.pushToRows rows x)) ->
  In k (map rowKey rows) \/ k = rowId x.
Proof.
  induction rows as [|row rows IH]; simpl; intros F H.
  - destruct H as [<-|[]]. now right.
  - inversion F as [|? ? [Hne Hu] F']; subst.
    destruct (CompositeStore.row_matches x row); simpl in H.
    + rewrite rowKey_app in H by exact Hne. now left.
    + destruct H as [<-|H]; [left; now left|].
      destruct (IH F' H) as [Q|Q]; [left; now right | now right].
Qed.

Lemma pushToRows_uniform (rows : list (list Item)) (x : Item) :
  Forall uniform_row rows /\ NoDup (map rowKey rows) ->
  Forall uniform_row (CompositeStore.pushToRows rows x)
  /\ NoDup (map rowKey (CompositeStore.pushToRows rows x)).
Proof.
  induction rows as [|row rows IH]; simpl; intros [F N].
  - split.
    + constructor; [|constructor]. split; [discriminate|].
      intros y [<-|[]]. reflexivity.
    + constructor; [intros [] | constructor].
  - inversion F as [|? ? [Hne Hu] F']; subst.
    inversion N as [|? ? Hnot N']; subst.
    rewrite row_matches_key.
    destruct (opt_string_eqb (rowKey row) (rowId x)) eqn:M; simpl.
    + apply opt_string_eqb_eq in M. rewrite rowKey_app by exact Hne.
      split; [|exact N]. constructor; [|exact F'].
      split; [now destruct row|].
      intros y Hy. rewrite rowKey_app by exact Hne.
      apply in_app_or in Hy. destruct Hy as [Hy|[<-|[]]]; auto.
    + destruct (IH (conj F' N')) as [A B].
      split; [constructor; [now split | exact A]|].
      constructor; [|exact B].
      intros H. apply (pushToRows_keys rows x _ F') in H.
      destruct H as [H|H].
      * contradiction.
      * rewrite H, opt_string_eqb_refl in M. discriminate.
Qed.

Lemma groupItemsByRows_acc (l : list Item) (acc : list (list Item)) :
  Forall uniform_row acc /\ NoDup (map rowKey acc) ->
  Permutation (concat (fold_left CompositeStore.pushToRows l acc))
    (concat acc ++ l)
  /\ Forall uniform_row (fold_left CompositeStore.pushToRows l acc)
  /\ NoDup (map rowKey (fold_left CompositeStore.pushToRows l acc)).
Proof.
  revert acc. induction l as [|x l IH]; intros acc H; simpl.
  - rewrite app_nil_r. destruct H. repeat split; auto.
  - destruct (IH _ (pushToRows_uniform acc x H)) as (P & F & N).
    split; [|split; assumption].
    eapply Permutation_trans; [exact P|].
    eapply Permutation_trans;
      [apply Permutation_app_tail, pushToRows_perm|].
    simpl. apply Permutation_middle.
Qed.

(** X1. [groupItemsByRows] partitions its input: the rows together hold
    exactly the items given (nothing lost, nothing duplicated); no row is
    empty; all items of a row have the [rowId] of the row's first item; and
    no two rows have the same [rowId]. *)
Theorem groupItemsByRows_partition (l : list Item) :
  Permutation (concat (CompositeStore.groupItemsByRows l)) l
  /\ Forall uniform_row (CompositeStore.groupItemsByRows l)
  /\ NoDup (map rowKey (CompositeStore.groupItemsByRows l)).
Proof.
  unfold CompositeStore.groupItemsByRows.
  apply (groupItemsByRows_acc l []). split; constructor.
Qed.

(** ** [normalizeRows] *)

Lemma array_set_length {A} (l : list A) (i : nat) (v : A) :
  i <= length l -> length (array_set l i v) = Nat.max (S i) (length l).
Proof.
  revert i. induction l as [|x l IH]; intros i H; simpl in *.
  - assert (i = 0) by lia. subst. reflexivity.
  - destruct i as [|i]; simpl; [lia|].
    rewrite IH by lia. lia.
Qed.

Lemma normalizeCell_length (a : jsid) (s : bool) (row : list Item) (k : nat) :
  k <= length row ->
  length (CompositeStore.normalizeCell a s row k)
  = Nat.max (S k) (length row).
Proof.
  intros H. unfold CompositeStore.normalizeCell.
  destruct (nth_error row k) as [it|] eqn:N.
  - assert (L : S k <= length row).
    { apply Nat.le_succ_l. apply nth_error_Some. congruence. }
    destruct (s && truthy_flag (disabled it)).
    + rewrite array_set_length by exact H. reflexivity.
    + lia.
  - now apply array_set_length.
Qed.

Lemma normalizeRow_length_acc (a : jsid) (s : bool) (m : nat) :
  forall (k : nat) (row : list Item),
    k <= length row ->
    length (fold_left (CompositeStore.normalizeCell a s) (seq k m) row)
    = Nat.max (k + m) (length row).
Proof.
  induction m as [|m IH]; intros k row H; simpl; [lia|].
  rewrite IH; rewrite normalizeCell_length by exact H; lia.
Qed.

Lemma normalizeRow_length_max (a : jsid) (s : bool) (n : nat)
    (row : list Item) :
  length (CompositeStore.normalizeRow a s n row) = Nat.max n (length row).
Proof.
  unfold CompositeStore.normalizeRow.
  rewrite normalizeRow_length_acc; simpl; lia.
Qed.

(** X2. After [normalizeRows], every row has the same number of cells: the
    length of the longest row given, for every [activeId] and with or
    without [focusShift]; and there are as many rows as before. *)
Theorem normalizeRows_equal_length (rows : list (list Item)) (a : jsid)
    (s : bool) (row' : list Item) :
  In row' (CompositeStore.normalizeRows rows a s) ->
  length row' = CompositeStore.getMaxRowLength rows
  /\ length (CompositeStore.normalizeRows rows a s) = length rows.
Proof.
  unfold CompositeStore.normalizeRows. intros H.
  split; [|apply length_map].
  apply in_map_iff in H. destruct H as (row & <- & Hr).
  rewrite normalizeRow_length_max.
  pose proof (@getMaxRowLength_ge rows row Hr). lia.
Qed.

Lemma normalizeRows_equal_length_witness :
  length [cell "C" "r2"; CompositeStore.createEmptyItem (Some "r2")]
  = CompositeStore.getMaxRowLength (CompositeStore.groupItemsByRows grid21)
  /\ length (CompositeStore.normalizeRows
               (CompositeStore.groupItemsByRows grid21) (Str "B") false)
     = length (CompositeStore.groupItemsByRows grid21).
Proof.
  apply (normalizeRows_equal_length
           (CompositeStore.groupItemsByRows grid21) (Str "B") false).
  right. left. reflexivity.
Defined.

Lemma normalizeCell_kept (a : jsid) (row : list Item) (k : nat) :
  k < length row -> CompositeStore.normalizeCell a false row k = row.
Proof.
  intros H. unfold CompositeStore.normalizeCell.
  destruct (nth_error row k) eqn:N; [reflexivity|].
  apply nth_error_None in N. lia.
Qed.

Lemma normalizeRow_kept (a : jsid) (m : nat) :
  forall (k : nat) (row : list Item),
    k + m <= length row ->
    fold_left (CompositeStore.normalizeCell a false) (seq k m) row = row.
Proof.
  induction m as [|m IH]; intros k row H; simpl; [reflexivity|].
  rewrite normalizeCell_kept by lia. apply IH. lia.
Qed.

Lemma padRowId_app (row : list Item) (x : Item) :
  padRowId (row ++ [x]) = rowId x.
Proof. unfold padRowId. now rewrite rev_app_distr. Qed.

Lemma array_set_append {A} (l : list A) (v : A) :
  array_set l (length l) v = l ++ [v].
Proof.
  induction l as [|y l IH]; simpl; [reflexivity|].
  now rewrite IH.
Qed.

Lemma normalizeCell_pad (a : jsid) (row : list Item) :
  CompositeStore.normalizeCell a false row (length row)
  = row ++ [CompositeStore.createEmptyItem (padRowId row)].
Proof.
  unfold CompositeStore.normalizeCell.
  replace (nth_error row (length row)) with (@None Item)
    by (symmetry; apply nth_error_None; lia).
  rewrite andb_false_r, array_set_append.
  f_equal. f_equal.
  induction row as [|x row _] using rev_ind.
  - reflexivity.
  - rewrite padRowId_app, length_app. simpl. unfold at_index.
    replace (Z.of_nat (length row + 1) - 1 <? 0)%Z with false
      by (symmetry; apply Z.ltb_ge; lia).
    replace (Z.to_nat (Z.of_nat (length row + 1) - 1)) with (length row)
      by lia.
    rewrite nth_error_app2, Nat.sub_diag by lia. simpl.
    now rewrite andb_false_r.
Qed.

Lemma normalizeRow_pad (a : jsid) (m : nat) :
  forall row : list Item,
    fold_left (CompositeStore.normalizeCell a false) (seq (length row) m) row
    = row ++ repeat (CompositeStore.createEmptyItem (padRowId row)) m.
Proof.
  induction m as [|m IH]; intros row; simpl.
  - now rewrite app_nil_r.
  - rewrite normalizeCell_pad.
    set (e := CompositeStore.createEmptyItem (padRowId row)).
    specialize (IH (row ++ [e])).
    rewrite length_app, Nat.add_1_r, padRowId_app in IH.
    rewrite IH, <- app_assoc. reflexivity.
Qed.

(** X3. Without [focusShift], normalizing a row to [n] cells changes none of
    its cells: it appends [n - length] placeholders (none when the row is
    long enough), each of them a disabled item with id ["__EMPTY_ITEM__"]
    and the [rowId] of the row's last item. *)
Theorem normalizeRow_appends_placeholders (a : jsid) (n : nat)
    (row : list Item) :
  CompositeStore.normalizeRow a false n row
  = row ++ repeat (CompositeStore.createEmptyItem (padRowId row))
             (n - length row).
Proof.
  unfold CompositeStore.normalizeRow.
  destruct (Nat.le_gt_cases n (length row)) as [H|H].
  - rewrite (normalizeRow_kept a n 0 row) by lia.
    replace (n - length row) with 0 by lia. simpl. now rewrite app_nil_r.
  - replace n with (length row + (n - length row)) at 1 by lia.
    rewrite seq_app, fold_left_app.
    rewrite (normalizeRow_kept a (length row) 0 row) by lia.
    apply normalizeRow_pad.
Qed.

(** ** What [getNextId] reads *)

(** [getNextId] reads the state only through [activeId], [focusLoop],
    [focusWrap], [includesBaseElement], and [rtl] in the order it gives to
    the items. *)
Lemma getNextId_congr (st st' : CompositeStoreState) (l l' : list Item)
    (o : Orientation) (h : bool) (skip : option Z) :
  activeId st = activeId st' ->
  focusLoop st = focusLoop st' ->
  focusWrap st = focusWrap st' ->
  includesBaseElement st = includesBaseElement st' ->
  (if rtl st && negb (Orientation_eqb o vertical) then rev l else l)
  = (if rtl st' && negb (Orientation_eqb o vertical) then rev l' else l') ->
  CompositeStore.getNextId st l o h skip
  = CompositeStore.getNextId st' l' o h skip.
Proof.
  intros Ha Hl Hw Hb Hall. unfold CompositeStore.getNextId, reverseArray.
  rewrite Ha, Hl, Hw, Hb, Hall. reflexivity.
Qed.

Lemma getNextId_no_active (st : CompositeStoreState) (l : list Item)
    (o : Orientation) (h : bool) (skip : option Z) :
  (is_nullish (activeId st) = true
   \/ forall x, In x l -> id x <> activeId st) ->
  CompositeStore.getNextId st l o h skip
  = id_of (firstEnabled
             (if rtl st && negb (Orientation_eqb o vertical)
              then rev l else l)).
Proof.
  intros H. unfold CompositeStore.getNextId, reverseArray.
  set (allItems := if rtl st && negb (Orientation_eqb o vertical)
                   then rev l else l).
  rewrite findFirstEnabledItem_firstEnabled.
  destruct (is_nullish (activeId st)) eqn:Q; [reflexivity|].
  destruct H as [H|H]; [discriminate|].
  rewrite find_none_all; [reflexivity|].
  intros y Hy. apply jsid_eqb_neq. apply H.
  subst allItems. destruct (rtl st && _); [now apply in_rev | exact Hy].
Qed.

Lemma previous_order (st : CompositeStoreState) :
  (if rtl st && negb (Orientation_eqb (orientation st) vertical)
   then rev (rev (renderedItems st)) else rev (renderedItems st))
  = rev (navigationOrder st).
Proof.
  unfold navigationOrder. now destruct (rtl st && _).
Qed.

(** X4. When no item is active -- [activeId] is [null] or [undefined], or it
    is the id of no rendered item (a stale id) -- [next(skip)] returns the id
    of the first enabled item in navigation order and [previous(skip)] that
    of the last one, for every [skip] ([undefined] when nothing is
    enabled). *)
Theorem navigation_without_active_item (st : CompositeStoreState)
    (skip : option Z) :
  (is_nullish (activeId st) = true
   \/ forall x, In x (renderedItems st) -> id x <> activeId st) ->
  CompositeStore.next st skip = id_of (firstEnabled (navigationOrder st))
  /\ CompositeStore.previous st skip
     = id_of (lastEnabled (navigationOrder st)).
Proof.
  intros H. split.
  - unfold CompositeStore.next. now rewrite getNextId_no_active.
  - unfold CompositeStore.previous, reverseArray.
    rewrite getNextId_no_active.
    + now rewrite previous_order, firstEnabled_rev.
    + destruct H as [H|H]; [now left | right].
      intros x Hx. apply H. now apply in_rev.
Qed.

Lemma navigation_without_active_item_witness :
  CompositeStore.next (defaultState abc (Str "Z")) None = Str "A"
  /\ CompositeStore.previous (defaultState abc (Str "Z")) None = Str "C".
Proof.
  apply (navigation_without_active_item (defaultState abc (Str "Z")) None).
  right. intros x H. in_literal H; discriminate.
Defined.

(** X5. [rtl] mirrors horizontal navigation and nothing else. When the
    orientation is not vertical and [includesBaseElement] is off, [next] in
    the RTL store is [previous] in the LTR store and the other way round, for
    every [skip]. [up] and [down] do not depend on [rtl], and when the
    orientation is vertical neither do [next] and [previous]. *)
Theorem rtl_mirrors_horizontal (st : CompositeStoreState) (skip : option Z)
    (b : bool) :
  (orientation st <> vertical -> includesBaseElement st = false ->
   CompositeStore.next (set_rtl st true) skip
   = CompositeStore.previous (set_rtl st false) skip
   /\ CompositeStore.previous (set_rtl st true) skip
      = CompositeStore.next (set_rtl st false) skip)
  /\ CompositeStore.up (set_rtl st b) skip = CompositeStore.up st skip
  /\ CompositeStore.down (set_rtl st b) skip = CompositeStore.down st skip
  /\ (orientation st = vertical ->
      CompositeStore.next (set_rtl st b) skip = CompositeStore.next st skip
      /\ CompositeStore.previous (set_rtl st b) skip
         = CompositeStore.previous st skip).
Proof.
  split; [|split; [|split]].
  - intros Ho Hb.
    assert (V : negb (Orientation_eqb (orientation st) vertical) = true)
      by (destruct (orientation st); [reflexivity | congruence | reflexivity]).
    unfold CompositeStore.next, CompositeStore.previous, reverseArray.
    cbn [set_rtl renderedItems orientation includesBaseElement].
    rewrite Hb, andb_false_r. split.
    + apply getNextId_congr; try reflexivity.
      cbn [set_rtl rtl]. now rewrite V.
    + apply getNextId_congr; try reflexivity.
      cbn [set_rtl rtl]. rewrite V. cbn [andb]. apply rev_involutive.
  - unfold CompositeStore.up. apply getNextId_congr; try reflexivity.
    cbn [Orientation_eqb negb]. now rewrite !andb_false_r.
  - unfold CompositeStore.down. apply getNextId_congr; try reflexivity.
    cbn [Orientation_eqb negb]. now rewrite !andb_false_r.
  - intros Ho. unfold CompositeStore.next, CompositeStore.previous.
    cbn [set_rtl renderedItems orientation includesBaseElement].
    rewrite Ho. split; apply getNextId_congr; try reflexivity;
      cbn [Orientation_eqb negb]; now rewrite !andb_false_r.
Qed.

Lemma rtl_mirrors_horizontal_witness :
  let st := stateWith abc (Str "B") horizontal false (FBool false)
              (FBool false) false false in
  (CompositeStore.next (set_rtl st true) None
   = CompositeStore.previous (set_rtl st false) None
   /\ CompositeStore.previous (set_rtl st true) None
      = CompositeStore.next (set_rtl st false) None)
  /\ (let sv := stateWith abc (Str "B") vertical false (FBool false)
                  (FBool false) false false in
      CompositeStore.next (set_rtl sv true) None = CompositeStore.next sv None
      /\ CompositeStore.previous (set_rtl sv true) None
         = CompositeStore.previous sv None).
Proof.
  intros st. split.
  - refine (proj1 (rtl_mirrors_horizontal st None true) _ eq_refl).
    discriminate.
  - intros sv.
    exact (proj2 (proj2 (proj2 (rtl_mirrors_horizontal sv None true)))
             eq_refl).
Defined.

(** ** One-dimensional composites *)

Lemma verticalCell_plain (i : nat) (x : Item) :
  rowId x = None -> CompositeStore.verticalCell i x = x.
Proof.
  intros H. unfold CompositeStore.verticalCell. rewrite H. simpl.
  destruct x; simpl in *. now subst.
Qed.

Lemma group_single (l : list Item) :
  l <> [] -> (forall y, In y l -> rowId y = None) ->
  CompositeStore.groupItemsByRows l = [l].
Proof.
  intros Hne H. destruct l as [|h t]; [congruence|].
  unfold CompositeStore.groupItemsByRows. cbn [fold_left].
  change (CompositeStore.pushToRows [] h) with ([] ++ [[h]]).
  rewrite (@group_acc_last [] h t []).
  - reflexivity.
  - intros r [].
  - intros y Hy. rewrite (H h) by now left. apply H. now right.
Qed.

Lemma columns_single (l pre : list Item) :
  (forall y, In y l -> rowId y = None) ->
  flat_map
    (fun i =>
       flat_map
         (fun row =>
            match nth_error row i with
            | Some item => [CompositeStore.verticalCell i item]
            | None => []
            end)
         [pre ++ l])
    (seq (length pre) (length l)) = l.
Proof.
  revert pre. induction l as [|x l IH]; intros pre H; [reflexivity|].
  cbn [length seq flat_map].
  rewrite nth_error_app2, Nat.sub_diag by lia. cbn [nth_error app].
  rewrite verticalCell_plain by (apply H; now left). f_equal.
  specialize (IH (pre ++ [x])).
  rewrite <- app_assoc, length_app, Nat.add_1_r in IH.
  apply IH. intros. apply H. now right.
Qed.

Lemma verticalize_single (l : list Item) :
  (forall y, In y l -> rowId y = None) ->
  CompositeStore.verticalizeItems l = l.
Proof.
  intros H. destruct l as [|h t]; [reflexivity|].
  unfold CompositeStore.verticalizeItems.
  rewrite group_single by (auto; discriminate).
  replace (CompositeStore.getMaxRowLength [h :: t]) with (length (h :: t))
    by reflexivity.
  apply (columns_single (h :: t) [] H).
Qed.

Lemma normalize_single (l : list Item) (a : jsid) :
  (forall y, In y l -> rowId y = None) ->
  flatten2DArray
    (CompositeStore.normalizeRows (CompositeStore.groupItemsByRows l) a false)
  = l.
Proof.
  intros H. destruct l as [|h t]; [reflexivity|].
  rewrite group_single by (auto; discriminate).
  unfold CompositeStore.normalizeRows, flatten2DArray.
  replace (CompositeStore.getMaxRowLength [h :: t]) with (length (h :: t))
    by reflexivity.
  cbn [map concat]. unfold CompositeStore.normalizeRow.
  rewrite (normalizeRow_kept a (length (h :: t)) 0 (h :: t)) by (simpl; lia).
  apply app_nil_r.
Qed.

(** On a list without [rowId]s the container stop that [down] asks for is
    the one [getNextId] adds by itself. *)
Lemma getNextId_plain_base (st : CompositeStoreState) (l : list Item)
    (skip : option Z) :
  (forall y, In y l -> rowId y = None) ->
  CompositeStore.getNextId st l vertical
    (truthy_focus (focusLoop st)
     && focus_differs (focusLoop st) (Some horizontal)
     && includesBaseElement st) skip
  = CompositeStore.getNextId st l vertical false skip.
Proof.
  intros H. unfold CompositeStore.getNextId.
  cbn [Orientation_eqb negb]. rewrite andb_false_r.
  destruct (is_nullish (activeId st)); [reflexivity|].
  destruct (find _ l) as [x|] eqn:F; [|reflexivity].
  assert (R : rowId x = None) by (apply H; now apply find_some in F).
  rewrite R. destruct skip; [reflexivity|].
  cbn [truthy_str CompositeStore.getOppositeOrientation].
  destruct (truthy_focus (focusLoop st));
    destruct (focus_differs (focusLoop st) (Some horizontal));
    destruct (includesBaseElement st); reflexivity.
Qed.

(** X6. On a one-dimensional composite (no item has a [rowId]) with vertical
    orientation, when [focusShift] does not apply (it is off, or [skip] is a
    non-zero number), [down(skip)] returns what [next(skip)] returns and
    [up(skip)] what [previous(skip)] returns. *)
Theorem vertical_list_down_is_next (st : CompositeStoreState)
    (skip : option Z) :
  orientation st = vertical ->
  (forall y, In y (renderedItems st) -> rowId y = None) ->
  focusShift st && CompositeStore.not_skip skip = false ->
  CompositeStore.down st skip = CompositeStore.next st skip
  /\ CompositeStore.up st skip = CompositeStore.previous st skip.
Proof.
  intros Ho Hrow Hs. split.
  - unfold CompositeStore.down, CompositeStore.next.
    rewrite Hs, Ho, (normalize_single _ _ Hrow), (verticalize_single _ Hrow).
    now apply getNextId_plain_base.
  - unfold CompositeStore.up, CompositeStore.previous, reverseArray.
    rewrite Hs, Ho, (normalize_single _ _ Hrow).
    rewrite verticalize_single
      by (intros y Hy; apply Hrow; now apply in_rev).
    rewrite findFirstEnabledItem_firstEnabled.
    destruct (firstEnabled (renderedItems st)) as [x|] eqn:F;
      [|reflexivity].
    apply firstEnabled_some in F. destruct F as [F _].
    now rewrite (Hrow x F).
Qed.

Lemma vertical_list_down_is_next_witness :
  let st := stateWith abc (Str "B") vertical false (FBool true) (FBool false)
              true true in
  CompositeStore.down st (Some 1%Z) = CompositeStore.next st (Some 1%Z)
  /\ CompositeStore.up st (Some 1%Z) = CompositeStore.previous st (Some 1%Z).
Proof.
  intros st.
  exact (vertical_list_down_is_next st (Some 1%Z) eq_refl abc_single_row
           eq_refl).
Defined.

(** ** Navigation without the base element *)

Lemma enabled_id_find (l l' : list Item) (ex : jsid) :
  incl l' l ->
  enabled_id l (id_of (CompositeStore.findFirstEnabledItem l' ex)).
Proof.
  intros S. unfold CompositeStore.findFirstEnabledItem.
  destruct (find _ l') as [x|] eqn:F; simpl; [|now left].
  apply find_some in F. destruct F as [Hx He].
  right. exists x. repeat split; auto. now apply enabled_pred_enabled in He.
Qed.

Lemma flipItems_incl (l : list Item) (a : jsid) :
  incl (CompositeStore.flipItems l a false) l.
Proof.
  unfold CompositeStore.flipItems. intros x Hx.
  apply in_app_or in Hx. simpl in Hx.
  destruct Hx as [Hx|Hx]; eapply slice_incl; eauto.
Qed.

Lemma getNextId_enabled (st : CompositeStoreState) (l : list Item)
    (o : Orientation) (skip : option Z) :
  includesBaseElement st = false ->
  enabled_id l (CompositeStore.getNextId st l o false skip).
Proof.
  intros Hb. unfold CompositeStore.getNextId. rewrite Hb.
  set (allItems := if rtl st && negb (Orientation_eqb o vertical)
                   then reverseArray l else l).
  assert (A : incl allItems l).
  { subst allItems. destruct (rtl st && _); [|apply incl_refl].
    intros x Hx. unfold reverseArray in Hx. now apply in_rev. }
  destruct (is_nullish (activeId st)); [now apply enabled_id_find|].
  destruct (find _ allItems) as [activeItem|] eqn:F;
    [|now apply enabled_id_find].
  set (nextItems := slice allItems (indexOf allItems activeItem + 1) None).
  assert (N : incl nextItems l).
  { intros x Hx. apply A. eapply slice_incl; eauto. }
  set (inRow := CompositeStore.getItemsInRow nextItems (rowId activeItem)).
  assert (R : incl inRow l).
  { intros x Hx. apply N. eapply getItemsInRow_incl; eauto. }
  destruct skip as [n|].
  - set (en := CompositeStore.getEnabledItems inRow (activeId st)).
    assert (E : forall x, In x en -> enabled_id l (id x)).
    { intros x Hx. apply filter_In in Hx. destruct Hx as [Hx He].
      right. exists x. repeat split; auto.
      now apply enabled_pred_enabled in He. }
    destruct (at_index (slice en n None) 0) as [x|] eqn:Q; simpl.
    + apply E. apply at_index_In in Q. eapply slice_incl; eauto.
    + destruct (at_index en _) as [x|] eqn:Q'; simpl; [|now left].
      apply E. eapply at_index_In; eauto.
  - rewrite !andb_false_r. cbn [orb negb]. rewrite andb_true_r.
    match goal with |- context [if ?c then _ else _] => destruct c end.
    + apply enabled_id_find.
      eapply incl_tran; [apply flipItems_incl|].
      match goal with |- context [if ?c then _ else _] => destruct c end;
        [exact A|].
      intros x Hx. apply A. eapply getItemsInRow_incl; eauto.
    + match goal with |- context [if ?c then _ else _] => destruct c end.
      * now apply enabled_id_find.
      * fold inRow.
        pose proof (enabled_id_find l inRow (activeId st) R) as Q.
        destruct (CompositeStore.findFirstEnabledItem inRow (activeId st));
          [exact Q | now left].
Qed.

Lemma enabled_id_rev (l : list Item) (r : jsid) :
  enabled_id (rev l) r -> enabled_id l r.
Proof.
  intros [H|(x & Hx & He & Hid)]; [now left|].
  right. exists x. repeat split; auto. now apply in_rev.
Qed.

Lemma enabled_id_vertical (l : list Item) (a : jsid) (s flip : bool)
    (r : jsid) :
  enabled_id
    (CompositeStore.verticalizeItems
       ((if flip then @reverseArray Item else fun l0 => l0)
          (flatten2DArray
             (CompositeStore.normalizeRows
                (CompositeStore.groupItemsByRows l) a s)))) r ->
  enabled_id l r.
Proof.
  intros [H|(x & Hx & He & Hid)]; [now left|].
  destruct (@vertical_enabled_origin l a s flip x Hx He) as (y & Hy & Ey & Iy).
  right. exists y. repeat split; auto. congruence.
Qed.

(** X7. When [includesBaseElement] is off, no navigation function returns
    [null], and none returns the id of a disabled item or of a placeholder:
    [next], [previous], [up], [down] (for every [skip]), [first] and [last]
    each return [undefined] or the id of an enabled rendered item. *)
Theorem navigation_without_base_element (st : CompositeStoreState)
    (skip : option Z) :
  includesBaseElement st = false ->
  enabled_id (renderedItems st) (CompositeStore.next st skip)
  /\ enabled_id (renderedItems st) (CompositeStore.previous st skip)
  /\ enabled_id (renderedItems st) (CompositeStore.up st skip)
  /\ enabled_id (renderedItems st) (CompositeStore.down st skip)
  /\ enabled_id (renderedItems st) (CompositeStore.first st)
  /\ enabled_id (renderedItems st) (CompositeStore.last st).
Proof.
  intros Hb. repeat apply conj.
  - now apply getNextId_enabled.
  - unfold CompositeStore.previous. rewrite Hb, andb_false_r.
    apply enabled_id_rev. now apply getNextId_enabled.
  - unfold CompositeStore.up. rewrite Hb.
    apply (enabled_id_vertical _ (activeId st)
             (focusShift st && CompositeStore.not_skip skip) true).
    now apply getNextId_enabled.
  - unfold CompositeStore.down. rewrite Hb, andb_false_r.
    apply (enabled_id_vertical _ (activeId st)
             (focusShift st && CompositeStore.not_skip skip) false).
    now apply getNextId_enabled.
  - apply enabled_id_find, incl_refl.
  - apply enabled_id_rev. apply enabled_id_find, incl_refl.
Qed.

Lemma navigation_without_base_element_witness :
  let st := stateWith grid21 (Str "B") both false (FBool true) (FBool true)
              true false in
  enabled_id (renderedItems st) (CompositeStore.next st None)
  /\ enabled_id (renderedItems st) (CompositeStore.previous st None)
  /\ enabled_id (renderedItems st) (CompositeStore.up st None)
  /\ enabled_id (renderedItems st) (CompositeStore.down st None)
  /\ enabled_id (renderedItems st) (CompositeStore.first st)
  /\ enabled_id (renderedItems st) (CompositeStore.last st).
Proof.
  intros st. exact (navigation_without_base_element st None eq_refl).
Defined.

(** ** [getNextId] from an active item *)

Lemma NoDup_ids_split_post (pre post : list Item) (x : Item) :
  NoDup (map id (pre ++ x :: post)) ->
  forall y, In y post -> jsid_eqb (id y) (id x) = false.
Proof.
  rewrite map_app. simpl. intros H y Hy.
  apply NoDup_remove_2 in H. apply jsid_eqb_neq. intros E.
  apply H. apply in_or_app. right. rewrite <- E. now apply in_map.
Qed.

Lemma getNextId_skip (st : CompositeStoreState) (l pre post : list Item)
    (x : Item) (o : Orientation) (h : bool) (n : Z) (s : string) :
  (if rtl st && negb (Orientation_eqb o vertical) then rev l else l)
  = pre ++ x :: post ->
  activeId st = Str s -> id x = Str s ->
  (forall y, In y pre -> jsid_eqb (id y) (Str s) = false) ->
  CompositeStore.getNextId st l o h (Some n)
  = id_of (pickSkip
             (CompositeStore.getEnabledItems
                (CompositeStore.getItemsInRow post (rowId x)) (Str s)) n).
Proof.
  intros Hall Hact Hid Hpre.
  unfold CompositeStore.getNextId, reverseArray.
  rewrite Hall, Hact. cbn [is_nullish].
  destruct (@find_at (Str s) pre post x Hpre Hid) as (F & Hi & _).
  rewrite F, Hi, slice_after. reflexivity.
Qed.

Lemma getNextId_noloop (st : CompositeStoreState) (l pre post : list Item)
    (x : Item) (o : Orientation) (s : string) :
  (if rtl st && negb (Orientation_eqb o vertical) then rev l else l)
  = pre ++ x :: post ->
  activeId st = Str s -> id x = Str s ->
  (forall y, In y pre -> jsid_eqb (id y) (Str s) = false) ->
  truthy_focus (focusLoop st)
  && focus_differs (focusLoop st) (CompositeStore.getOppositeOrientation o)
  = false ->
  CompositeStore.getNextId st l o false None
  = id_of (CompositeStore.findFirstEnabledItem
             (if truthy_str (rowId x) && truthy_focus (focusWrap st)
                 && focus_differs (focusWrap st)
                      (CompositeStore.getOppositeOrientation o)
              then post
              else CompositeStore.getItemsInRow post (rowId x))
             (Str s)).
Proof.
  intros Hall Hact Hid Hpre Hloop.
  unfold CompositeStore.getNextId, reverseArray.
  rewrite Hall, Hact. cbn [is_nullish].
  destruct (@find_at (Str s) pre post x Hpre Hid) as (F & Hi & _).
  rewrite F, Hi, slice_after.
  replace (if truthy_str (rowId x) then o else o) with o
    by now destruct (truthy_str (rowId x)).
  rewrite Hloop, andb_false_r. cbn [andb orb].
  destruct (truthy_str (rowId x) && truthy_focus (focusWrap st)
            && focus_differs (focusWrap st)
                 (CompositeStore.getOppositeOrientation o));
    [reflexivity|].
  now destruct (CompositeStore.findFirstEnabledItem _ _).
Qed.

Lemma post_ids_differ (st : CompositeStoreState) (pre post : list Item)
    (x : Item) (s : string) :
  navigationOrder st = pre ++ x :: post ->
  NoDup (map id (renderedItems st)) ->
  id x = Str s ->
  (forall y, In y pre -> jsid_eqb (id y) (Str s) = false)
  /\ (forall y, In y post -> jsid_eqb (id y) (Str s) = false).
Proof.
  intros Hnav Hnd Hid. apply navigationOrder_NoDup in Hnd.
  rewrite Hnav in Hnd. rewrite <- Hid. split.
  - now apply NoDup_ids_split with (post := post).
  - now apply NoDup_ids_split_post with (pre := pre).
Qed.

(** X8. Without looping, [next()] from an active item returns the id of the
    first enabled item after it in navigation order: within its row, or
    among all later items when [focusWrap] applies to a grid. It never
    returns the active item or an item before it, and returns [undefined]
    when no such item exists. *)
Theorem next_without_loop (st : CompositeStoreState) (pre post : list Item)
    (x : Item) (s : string) :
  navigationOrder st = pre ++ x :: post ->
  NoDup (map id (renderedItems st)) ->
  activeId st = Str s ->
  id x = Str s ->
  truthy_focus (focusLoop st)
  && focus_differs (focusLoop st)
       (CompositeStore.getOppositeOrientation (orientation st)) = false ->
  CompositeStore.next st None
  = id_of (firstEnabled
             (if truthy_str (rowId x) && truthy_focus (focusWrap st)
                 && focus_differs (focusWrap st)
                      (CompositeStore.getOppositeOrientation (orientation st))
              then post
              else CompositeStore.getItemsInRow post (rowId x))).
Proof.
  intros Hnav Hnd Hact Hid Hloop.
  destruct (post_ids_differ st pre post x s Hnav Hnd Hid) as [Hpre Hpost].
  unfold CompositeStore.next.
  rewrite (getNextId_noloop st _ pre post x _ s Hnav Hact Hid Hpre Hloop).
  rewrite find_enabled_others; [reflexivity|].
  intros y Hy. apply Hpost.
  destruct (truthy_str (rowId x) && _ && _); [exact Hy|].
  eapply getItemsInRow_incl; eauto.
Qed.

Lemma next_without_loop_witness :
  CompositeStore.next
    (stateWith grid2x2 (Str "B") both false (FBool false) (FBool true)
       false false) None = Str "C"
  /\ CompositeStore.next (defaultState grid2x2 (Str "B")) None = Undefined.
Proof.
  assert (N : NoDup (map id grid2x2)).
  { repeat constructor; simpl; intros H; in_literal H; discriminate. }
  split.
  - exact (next_without_loop
             (stateWith grid2x2 (Str "B") both false (FBool false)
                (FBool true) false false)
             [cell "A" "r1"] [cell "C" "r2"; cell "D" "r2"] (cell "B" "r1")
             "B" eq_refl N eq_refl eq_refl eq_refl).
  - exact (next_without_loop (defaultState grid2x2 (Str "B"))
             [cell "A" "r1"] [cell "C" "r2"; cell "D" "r2"] (cell "B" "r1")
             "B" eq_refl N eq_refl eq_refl eq_refl).
Defined.

Lemma find_filter {A} (p q : A -> bool) (l : list A) :
  find p (filter q l) = find (fun z => q z && p z) l.
Proof.
  induction l as [|x l IH]; simpl; [reflexivity|].
  destruct (q x); simpl; [now rewrite IH | exact IH].
Qed.

Lemma find_split_gen {A} (p : A -> bool) (l : list A) (y : A) :
  find p l = Some y ->
  exists mid rest,
    l = mid ++ y :: rest /\ (forall z, In z mid -> p z = false) /\ p y = true.
Proof.
  induction l as [|x l IH]; simpl; [discriminate|].
  destruct (p x) eqn:E.
  - intros [= ->]. exists [], l. repeat split; auto. intros z [].
  - intros H. destruct (IH H) as (mid & rest & -> & Hm & Hy).
    exists (x :: mid), rest. repeat split; auto.
    intros z [<-|Hz]; auto.
Qed.

(** One step forward and one step back on the same list, read in opposite
    directions. *)
Lemma step_back (st : CompositeStoreState) (l : list Item) (o : Orientation)
    (x : Item) (sx sy : string) :
  NoDup (map id l) ->
  focusLoop st = FBool false ->
  focusWrap st = FBool false ->
  In x l ->
  activeId st = Str sx -> id x = Str sx -> is_enabled x = true ->
  CompositeStore.getNextId st l o false None = Str sy ->
  CompositeStore.getNextId (set_activeId st (Str sy)) (rev l) o false None
  = Str sx.
Proof.
  intros Hnd Hfl Hfw Hin Hact Hid Hen Hnext.
  set (c := rtl st && negb (Orientation_eqb o vertical)) in *.
  set (all := if c then rev l else l).
  assert (Nall : NoDup (map id all)).
  { subst all. destruct c; [|exact Hnd]. rewrite map_rev.
    now apply NoDup_rev. }
  assert (Iall : In x all).
  { subst all. destruct c; [now apply in_rev in Hin | exact Hin]. }
  destruct (in_split x all Iall) as (pre & post & Eall).
  assert (Hloop : forall st0, focusLoop st0 = FBool false ->
            truthy_focus (focusLoop st0)
            && focus_differs (focusLoop st0)
                 (CompositeStore.getOppositeOrientation o) = false)
    by (intros st0 ->; reflexivity).
  assert (Hwrap : forall st0 (it : Item), focusWrap st0 = FBool false ->
            truthy_str (rowId it) && truthy_focus (focusWrap st0)
            && focus_differs (focusWrap st0)
                 (CompositeStore.getOppositeOrientation o) = false).
  { intros st0 it ->. simpl. now rewrite andb_false_r. }
  assert (Hpre : forall y, In y pre -> jsid_eqb (id y) (Str sx) = false).
  { rewrite <- Hid. apply NoDup_ids_split with (post := post).
    now rewrite <- Eall. }
  assert (Hpost : forall y, In y post -> jsid_eqb (id y) (Str sx) = false).
  { rewrite <- Hid. apply NoDup_ids_split_post with (pre := pre).
    now rewrite <- Eall. }
  rewrite (getNextId_noloop st l pre post x o sx Eall Hact Hid Hpre
             (Hloop st Hfl)) in Hnext.
  rewrite (Hwrap st x Hfw) in Hnext.
  unfold CompositeStore.findFirstEnabledItem, CompositeStore.getItemsInRow
    in Hnext.
  rewrite find_filter in Hnext.
  destruct (find _ post) as [y|] eqn:Fy; [|discriminate].
  simpl in Hnext.
  destruct (find_split_gen _ post y Fy) as (mid & rest & Epost & Hmid & Hy).
  apply andb_prop in Hy. destruct Hy as [Ry Ey].
  apply opt_string_eqb_eq in Ry.
  assert (Eall' : all = (pre ++ x :: mid) ++ y :: rest).
  { rewrite Eall, Epost, <- app_assoc. reflexivity. }
  assert (Hbefore : forall z, In z (pre ++ x :: mid) ->
                      jsid_eqb (id z) (Str sy) = false).
  { rewrite <- Hnext. apply NoDup_ids_split with (post := rest).
    now rewrite <- Eall'. }
  assert (Hrest : forall z, In z (rev rest) ->
                    jsid_eqb (id z) (Str sy) = false).
  { intros z Hz. apply in_rev in Hz. rewrite <- Hnext.
    apply (NoDup_ids_split_post (pre ++ x :: mid) rest y); [|exact Hz].
    now rewrite <- Eall'. }
  assert (Erev : (if rtl (set_activeId st (Str sy))
                     && negb (Orientation_eqb o vertical)
                  then rev (rev l) else rev l)
                 = rev rest ++ y :: (rev mid ++ x :: rev pre)).
  { cbn [set_activeId rtl]. fold c.
    assert (Q : (if c then rev (rev l) else rev l) = rev all)
      by (subst all; destruct c; reflexivity).
    rewrite Q, Eall'. rewrite rev_app_distr. cbn [rev].
    rewrite rev_app_distr. cbn [rev]. rewrite <- !app_assoc. reflexivity. }
  rewrite (getNextId_noloop (set_activeId st (Str sy)) (rev l) (rev rest)
             (rev mid ++ x :: rev pre) y o sy Erev eq_refl Hnext Hrest
             (Hloop _ Hfl)).
  rewrite (Hwrap (set_activeId st (Str sy)) y Hfw).
  unfold CompositeStore.findFirstEnabledItem, CompositeStore.getItemsInRow.
  rewrite filter_app. cbn [filter]. rewrite Ry, opt_string_eqb_refl.
  rewrite find_app_none.
  - cbn [find]. rewrite enabled_pred_other.
    + rewrite Hen. simpl. exact Hid.
    + apply Hbefore. apply in_or_app. right. now left.
  - intros z Hz. apply filter_In in Hz. destruct Hz as [Hz Qz].
    apply in_rev in Hz. specialize (Hmid z Hz). simpl in Hmid.
    rewrite Qz in Hmid. cbn [andb] in Hmid.
    apply enabled_pred_disabled.
    rewrite <- (enabled_pred_other (Str sx)); [exact Hmid|].
    apply Hpost. rewrite Epost. apply in_or_app. now left.
Qed.

(** X9. [previous] undoes [next] and [next] undoes [previous]: with unique
    ids, without [focusLoop], [focusWrap] and [includesBaseElement], if the
    active item is enabled and [next()] returns an id, then [previous()]
    from that id returns the id one started from; and the same with the two
    functions exchanged. *)
Theorem previous_undoes_next (st : CompositeStoreState) (x : Item)
    (sx sy : string) :
  NoDup (map id (renderedItems st)) ->
  focusLoop st = FBool false ->
  focusWrap st = FBool false ->
  includesBaseElement st = false ->
  In x (renderedItems st) ->
  activeId st = Str sx -> id x = Str sx -> is_enabled x = true ->
  (CompositeStore.next st None = Str sy ->
   CompositeStore.previous (set_activeId st (Str sy)) None = Str sx)
  /\ (CompositeStore.previous st None = Str sy ->
      CompositeStore.next (set_activeId st (Str sy)) None = Str sx).
Proof.
  intros Hnd Hfl Hfw Hb Hin Hact Hid Hen. split.
  - unfold CompositeStore.next, CompositeStore.previous, reverseArray.
    cbn [set_activeId renderedItems orientation includesBaseElement].
    rewrite Hb, andb_false_r. now apply step_back with (x := x).
  - unfold CompositeStore.next, CompositeStore.previous, reverseArray.
    cbn [set_activeId renderedItems orientation includesBaseElement].
    rewrite Hb, andb_false_r. intros H.
    rewrite <- (rev_involutive (renderedItems st)) at 1.
    apply step_back with (x := x); auto.
    + rewrite map_rev. now apply NoDup_rev.
    + now apply in_rev in Hin.
Qed.

Lemma previous_undoes_next_witness :
  CompositeStore.previous
    (set_activeId (defaultState abc (Str "A")) (Str "B")) None = Str "A"
  /\ CompositeStore.next
       (set_activeId (defaultState abc (Str "C")) (Str "B")) None = Str "C".
Proof.
  split.
  - exact (proj1 (previous_undoes_next (defaultState abc (Str "A"))
                    (plain "A") "A" "B" abc_unique_ids eq_refl eq_refl
                    eq_refl (or_introl eq_refl) eq_refl eq_refl eq_refl)
             eq_refl).
  - exact (proj2 (previous_undoes_next (defaultState abc (Str "C"))
                    (plain "C") "C" "B" abc_unique_ids eq_refl eq_refl
                    eq_refl (or_intror (or_intror (or_introl eq_refl)))
                    eq_refl eq_refl eq_refl)
             eq_refl).
Defined.

(** ** [skip]: Home, End and page jumps *)

Lemma slice_from {A} (l : list A) (n : Z) :
  slice l n None
  = skipn (Z.to_nat (if (n <? 0)%Z
                     then Z.max (Z.of_nat (length l) + n) 0
                     else Z.min n (Z.of_nat (length l)))) l.
Proof.
  unfold slice. apply firstn_all2. rewrite length_skipn.
  destruct (n <? 0)%Z eqn:E; lia.
Qed.

Lemma pickSkip_within (en : list Item) (n : Z) :
  (0 <= n < Z.of_nat (length en))%Z ->
  pickSkip en n = nth_error en (Z.to_nat n).
Proof.
  intros H. unfold pickSkip, at_index. rewrite slice_from.
  replace (n <? 0)%Z with false by (symmetry; apply Z.ltb_ge; lia).
  rewrite Z.min_l by lia. cbn [Z.ltb Z.compare Z.to_nat].
  rewrite nth_error_skipn, Nat.add_0_r.
  destruct (nth_error en (Z.to_nat n)) eqn:N; [reflexivity|].
  apply nth_error_None in N. lia.
Qed.

Lemma pickSkip_last (en : list Item) (n : Z) :
  (Z.of_nat (length en) <= n \/ n = -1)%Z ->
  pickSkip en n = nth_error en (length en - 1).
Proof.
  intros H. unfold pickSkip, at_index. rewrite slice_from.
  cbn [Z.ltb Z.compare Z.to_nat]. rewrite nth_error_skipn, Nat.add_0_r.
  assert (L : at_index en (Z.of_nat (length en) - 1)
              = nth_error en (length en - 1)).
  { unfold at_index. destruct en as [|x en]; [reflexivity|].
    replace (Z.of_nat (length (x :: en)) - 1 <? 0)%Z with false
      by (symmetry; apply Z.ltb_ge; simpl length; lia).
    f_equal. simpl length. lia. }
  unfold at_index in L. rewrite L.
  destruct H as [H| ->].
  - replace (n <? 0)%Z with false by (symmetry; apply Z.ltb_ge; lia).
    rewrite Z.min_r by lia. rewrite Nat2Z.id.
    replace (nth_error en (length en)) with (@None Item)
      by (symmetry; apply nth_error_None; lia).
    reflexivity.
  - cbn [Z.ltb Z.compare].
    replace (Z.to_nat (Z.max (Z.of_nat (length en) + -1) 0))
      with (length en - 1) by lia.
    now destruct (nth_error en (length en - 1)).
Qed.

Lemma getEnabledItems_others (ex : jsid) (l : list Item) :
  (forall y, In y l -> jsid_eqb (id y) ex = false) ->
  CompositeStore.getEnabledItems l ex = filter is_enabled l.
Proof.
  unfold CompositeStore.getEnabledItems.
  induction l as [|x l IH]; simpl; intros H; [reflexivity|].
  rewrite enabled_pred_other by (apply H; now left).
  rewrite IH by (intros; apply H; now right). reflexivity.
Qed.

(** X10. [next(skip)] with a number, from an active item with unique ids:
    let the candidates be the enabled items after the active one in its row,
    in navigation order. For [0 <= skip < number of candidates] the result
    is the candidate at index [skip]; when [skip] reaches past the
    candidates, and for [skip = -1] (the End key), it is the last candidate;
    without candidates it is [undefined]. The options [focusLoop],
    [focusWrap] and [includesBaseElement] play no part. *)
Theorem next_skip (st : CompositeStoreState) (pre post : list Item)
    (x : Item) (s : string) (n : Z) :
  navigationOrder st = pre ++ x :: post ->
  NoDup (map id (renderedItems st)) ->
  activeId st = Str s ->
  id x = Str s ->
  let en := filter is_enabled (CompositeStore.getItemsInRow post (rowId x)) in
  ((0 <= n < Z.of_nat (length en))%Z ->
   CompositeStore.next st (Some n) = id_of (nth_error en (Z.to_nat n)))
  /\ ((Z.of_nat (length en) <= n \/ n = -1)%Z ->
      CompositeStore.next st (Some n)
      = id_of (nth_error en (length en - 1)))
  /\ (en = [] -> CompositeStore.next st (Some n) = Undefined).
Proof.
  intros Hnav Hnd Hact Hid en.
  destruct (post_ids_differ st pre post x s Hnav Hnd Hid) as [Hpre Hpost].
  assert (E : CompositeStore.next st (Some n) = id_of (pickSkip en n)).
  { unfold CompositeStore.next.
    rewrite (getNextId_skip st _ pre post x _ false n s Hnav Hact Hid Hpre).
    rewrite getEnabledItems_others; [reflexivity|].
    intros y Hy. apply Hpost. eapply getItemsInRow_incl; eauto. }
  rewrite E. repeat split.
  - intros H. now rewrite pickSkip_within.
  - intros H. now rewrite pickSkip_last.
  - intros H. rewrite H. unfold pickSkip, at_index. rewrite slice_from.
    simpl. now destruct (Z.to_nat _), (n <? 0)%Z.
Qed.

Lemma next_skip_witness :
  let row := [plain "A"; plain "B";
              mkItem (Str "C") None None (Some true) None; plain "D";
              plain "E"] in
  let st := defaultState row (Str "A") in
  CompositeStore.next st (Some 1%Z) = Str "D"
  /\ CompositeStore.next st (Some 7%Z) = Str "E"
  /\ CompositeStore.next st (Some (-1)%Z) = Str "E"
  /\ CompositeStore.next (defaultState row (Str "E")) (Some 0%Z) = Undefined.
Proof.
  intros row st.
  assert (N : NoDup (map id row)).
  { repeat constructor; simpl; intros H; in_literal H; discriminate. }
  pose proof (fun n => next_skip st [] (tl row) (plain "A") "A" n eq_refl N
                         eq_refl eq_refl) as T.
  split; [|split; [|split]].
  - refine (proj1 (T 1%Z) _). simpl. lia.
  - refine (proj1 (proj2 (T 7%Z)) _). left. simpl. lia.
  - refine (proj1 (proj2 (T (-1)%Z)) _). now right.
  - exact (proj2 (proj2 (next_skip (defaultState row (Str "E"))
                           [plain "A"; plain "B";
                            mkItem (Str "C") None None (Some true) None;
                            plain "D"] [] (plain "E") "E" 0%Z eq_refl N
                           eq_refl eq_refl)) eq_refl).
Defined.

(** ** Key presses on a composite item *)

Lemma keyAction_from_rendered (st : CompositeStoreState) (k : jsid)
    (key : CompositeItemKeys.Key) (ctrlKey : bool) (r : jsid) :
  CompositeItemKeys.keyAction st k key ctrlKey = Some r ->
  from_list (renderedItems st) r.
Proof.
  destruct (navigation_from_rendered st None) as (A & B & C & D & E & F).
  destruct (navigation_from_rendered st (Some (-1)%Z)) as (A' & B' & _).
  unfold CompositeItemKeys.keyAction.
  destruct key;
    repeat match goal with
      | |- context [if ?c then _ else _] => destruct c
      end;
    intros [= <-]; assumption.
Qed.

(** X11. A key press on a composite item (arrow keys, Home, End) either
    leaves the store as it is, or commits one move: [activeId] becomes
    [null] or the id of an enabled rendered item, [moves] becomes the sum
    [moves + 1] of the host numbers, and nothing else changes. While
    [moves] is an integer from -2^53 to 2^53 - 1, that is: it grows by one.
    In particular a key press never makes [activeId] the id of a disabled
    or unrendered item. *)
Theorem onKeyDown_effect (st : CompositeStoreState) (k : jsid)
    (key : CompositeItemKeys.Key)
    (ctrlKey preventScroll moveOnKeyPress : bool) :
  let st' := CompositeItemKeys.onKeyDown st k key ctrlKey preventScroll
               moveOnKeyPress in
  st' = st
  \/ exists r,
       (r = Null
        \/ exists x, In x (renderedItems st) /\ is_enabled x = true
                     /\ id x = r)
       /\ st' = set_moves (set_activeId st r) (number_add (moves st) 1)
       /\ ((- 9007199254740992 <= moves st < 9007199254740992)%Z ->
           moves st' = (moves st + 1)%Z).
Proof.
  assert (M : forall r, r <> Undefined ->
                CompositeStore.move st r
                = set_moves (set_activeId st r) (number_add (moves st) 1)
                /\ ((- 9007199254740992 <= moves st < 9007199254740992)%Z ->
                    moves (CompositeStore.move st r) = (moves st + 1)%Z)).
  { intros r Hr. rewrite (move_defined st Hr). split; [reflexivity|].
    cbn [moves set_moves]. apply number_add_one. }
  unfold CompositeItemKeys.onKeyDown.
  destruct (CompositeItemKeys.keyAction st k key ctrlKey) as [r|] eqn:K;
    [|now left].
  apply keyAction_from_rendered in K.
  destruct (preventScroll || negb (jsid_eqb r Undefined)); [|now left].
  destruct (negb moveOnKeyPress); [now left|].
  destruct K as [->|[->|K]].
  - now left.
  - right. exists Null. split; [now left|]. apply M. discriminate.
  - destruct r as [| |s].
    + now left.
    + right. exists Null. split; [now left|]. apply M. discriminate.
    + right. exists (Str s). split; [now right|]. apply M. discriminate.
Qed.

(** The End key on the toolbar [A, B, C], from [A]: one move to [C], the
    counter going from 0 to 1. *)
Lemma onKeyDown_effect_witness :
  let st := stateWith abc (Str "A") horizontal false (FBool false)
              (FBool false) false false in
  let st' := CompositeItemKeys.onKeyDown st (Str "A") CompositeItemKeys.End_
               false false true in
  st' <> st /\ activeId st' = Str "C" /\ moves st' = 1%Z.
Proof.
  intros st st'.
  assert (N : st' <> st) by (intros H; discriminate H).
  destruct (onKeyDown_effect st (Str "A") CompositeItemKeys.End_
              false false true) as [E | (r & _ & E & G)].
  - destruct (N E).
  - refine (conj N (conj eq_refl (G _))). cbn [moves st stateWith]. lia.
Defined.

(** On a horizontal toolbar the vertical arrow keys do nothing, and End
    moves to the last item. *)
Example onKeyDown_toolbar :
  let st := stateWith abc (Str "A") horizontal false (FBool false)
              (FBool false) false false in
  CompositeItemKeys.onKeyDown st (Str "A") CompositeItemKeys.ArrowDown
    false true true = st
  /\ CompositeItemKeys.onKeyDown st (Str "A") CompositeItemKeys.End_
       false false true
     = set_moves (set_activeId st (Str "C")) 1.
Proof. split; reflexivity. Qed.

(** * Further properties of the tooltip store *)

Lemma exclusive_setActiveRef (a : option nat) (w : TooltipStore.World) :
  exclusive w -> exclusive (TooltipStore.setActiveRef a w).
Proof.
  intros H. unfold TooltipStore.setActiveRef.
  destruct (option_eqb Nat.eqb a (TooltipStore.activeRef w)); [exact H|].
  intros t Ht Ho. simpl in *. apply in_map_iff in Ht.
  destruct Ht as (u & <- & _). simpl in *.
  destruct a as [x|]; simpl in Ho; [|discriminate].
  apply Nat.eqb_eq in Ho. now subst.
Qed.

Lemma exclusive_setOpen (r : nat) (v : bool) (w : TooltipStore.World) :
  (v = true -> TooltipStore.activeRef w = Some r) ->
  exclusive w -> exclusive (TooltipStore.setOpen r v w).
Proof.
  intros Hv H t Ht Ho. simpl in *. apply in_map_iff in Ht.
  destruct Ht as (u & <- & Hu).
  destruct (TooltipStore.ref u =? r)%nat eqn:E.
  - simpl in *. apply Nat.eqb_eq in E. rewrite E. now apply Hv.
  - now apply H.
Qed.

Lemma exclusive_same_tooltips (w w' : TooltipStore.World) :
  TooltipStore.activeRef w' = TooltipStore.activeRef w ->
  map (fun t => (TooltipStore.ref t, TooltipStore.open t))
    (TooltipStore.tooltips w')
  = map (fun t => (TooltipStore.ref t, TooltipStore.open t))
      (TooltipStore.tooltips w) ->
  exclusive w -> exclusive w'.
Proof.
  intros Ha Hm H t Ht Ho. rewrite Ha.
  assert (I : In (TooltipStore.ref t, TooltipStore.open t)
                (map (fun t => (TooltipStore.ref t, TooltipStore.open t))
                   (TooltipStore.tooltips w))).
  { rewrite <- Hm. now apply (in_map (fun t => (TooltipStore.ref t,
                                                 TooltipStore.open t))). }
  apply in_map_iff in I. destruct I as (u & [= Hr Hop] & Hu).
  rewrite <- Hr. apply H; [exact Hu | congruence].
Qed.

Lemma exclusive_disclosureListener (t : TooltipStore.Tooltip)
    (a b : bool) (w : TooltipStore.World) :
  exclusive w -> exclusive (TooltipStore.disclosureListener t a b w).
Proof.
  intros H. unfold TooltipStore.disclosureListener.
  destruct a.
  - destruct (_ || _).
    + apply exclusive_setOpen.
      * intros _. apply setActiveRef_activeRef.
      * now apply exclusive_setActiveRef.
    + apply (exclusive_same_tooltips (TooltipStore.setActiveRef None w));
        [reflexivity | reflexivity | now apply exclusive_setActiveRef].
  - destruct (negb (Bool.eqb false b)); [|exact H].
    apply (exclusive_same_tooltips (TooltipStore.setOpen
                                      (TooltipStore.ref t) false w));
      [reflexivity | reflexivity |].
    apply exclusive_setOpen; [discriminate | exact H].
Qed.

Lemma exclusive_setDisclosureOpen (r : nat) (v : bool)
    (w : TooltipStore.World) :
  exclusive w -> exclusive (TooltipStore.setDisclosureOpen r v w).
Proof.
  intros H. unfold TooltipStore.setDisclosureOpen.
  destruct (find _ (TooltipStore.tooltips w)) as [t|]; [|exact H].
  destruct (Bool.eqb v (TooltipStore.disclosureOpen t)); [exact H|].
  apply exclusive_disclosureListener.
  apply (exclusive_same_tooltips w); [reflexivity | | exact H].
  simpl. rewrite map_map. apply map_ext. intros u.
  now destruct (TooltipStore.ref u =? r)%nat.
Qed.

Lemma exclusive_fire (n : nat) (w : TooltipStore.World) :
  exclusive w -> exclusive (TooltipStore.fire n w).
Proof.
  intros H. unfold TooltipStore.fire.
  destruct (nth_error (TooltipStore.timers w) n) as [tm|]; [|exact H].
  unfold TooltipStore.runCallback.
  destruct (TooltipStore.callback tm); apply exclusive_setActiveRef;
    apply (exclusive_same_tooltips w); auto.
Qed.

Lemma reachable_exclusive (w : TooltipStore.World) :
  reachable w -> exclusive w.
Proof.
  induction 1 as [w Ha Hc| |].
  - intros t Ht Ho. rewrite (Hc t Ht) in Ho. discriminate.
  - now apply exclusive_setDisclosureOpen.
  - now apply exclusive_fire.
Qed.

(** X12. Whatever the order in which disclosures open and close and timers
    fire, starting with all tooltips closed: a tooltip whose [open] state is
    true holds the shared [activeRef] token, so any two open tooltips are
    the same one -- at most one tooltip shows at a time. *)
Theorem at_most_one_tooltip_open (w : TooltipStore.World)
    (t1 t2 : TooltipStore.Tooltip) :
  reachable w ->
  In t1 (TooltipStore.tooltips w) -> In t2 (TooltipStore.tooltips w) ->
  TooltipStore.open t1 = true -> TooltipStore.open t2 = true ->
  TooltipStore.activeRef w = Some (TooltipStore.ref t1)
  /\ TooltipStore.ref t1 = TooltipStore.ref t2.
Proof.
  intros R I1 I2 O1 O2. apply reachable_exclusive in R.
  pose proof (R t1 I1 O1) as A1. pose proof (R t2 I2 O2) as A2.
  split; [exact A1 | congruence].
Qed.

Lemma at_most_one_tooltip_open_witness :
  let w := TooltipStore.setDisclosureOpen 2 true tooltip1Open in
  TooltipStore.activeRef w = Some 2 /\ 2 = 2.
Proof.
  intros w.
  assert (R : reachable w).
  { apply reach_disclosure, reach_fire, reach_disclosure, reach_start.
    - reflexivity.
    - intros t H. in_literal H; reflexivity. }
  exact (at_most_one_tooltip_open w
           (TooltipStore.mkTooltip 2 500 true true)
           (TooltipStore.mkTooltip 2 500 true true)
           R (or_intror (or_introl eq_refl)) (or_intror (or_introl eq_refl))
           eq_refl eq_refl).
Defined.

Lemma find_ref (r : nat) (l : list TooltipStore.Tooltip)
    (t : TooltipStore.Tooltip) :
  find (fun u => TooltipStore.ref u =? r)%nat l = Some t ->
  TooltipStore.ref t = r.
Proof.
  intros F. apply find_some in F. destruct F as [_ F].
  now apply Nat.eqb_eq in F.
Qed.

(** The tooltip found under [r] once the disclosure state of [r] is
    stored. *)
Lemma find_disclosure_stored (r q : nat) (v : bool)
    (l : list TooltipStore.Tooltip) :
  find (fun u => TooltipStore.ref u =? q)%nat
    (map (fun u => if (TooltipStore.ref u =? r)%nat
                   then TooltipStore.set_disclosureOpen v u else u) l)
  = option_map
      (fun u => if (TooltipStore.ref u =? r)%nat
                then TooltipStore.set_disclosureOpen v u else u)
      (find (fun u => TooltipStore.ref u =? q)%nat l).
Proof.
  apply find_map_ref. intros u. now destruct (TooltipStore.ref u =? r)%nat.
Qed.

Lemma fire_last (a : option nat) (l : list TooltipStore.Tooltip)
    (tms : list TooltipStore.Timer) (tm : TooltipStore.Timer) :
  TooltipStore.fire (length tms) (TooltipStore.mkWorld a l (tms ++ [tm]))
  = TooltipStore.runCallback tm (TooltipStore.mkWorld a l tms).
Proof.
  unfold TooltipStore.fire. cbn [TooltipStore.timers].
  rewrite nth_error_app2, Nat.sub_diag by lia. cbn [nth_error].
  rewrite firstn_app, Nat.sub_diag, firstn_all, firstn_O, app_nil_r.
  rewrite skipn_all2 by (rewrite length_app; simpl; lia).
  now rewrite app_nil_r.
Qed.

(** X13. Let the disclosure of a set-up tooltip [r] go from closed to open
    while nobody holds the [activeRef] token and the timeout of [r] is not
    zero. Then the tooltip does not open yet: its [open] state is as before,
    the token stays free, and one timer of [timeout] milliseconds has been
    scheduled for [r], after the timers of the other tooltips. When that
    timer fires, [r] takes the token and its [open] state becomes true. *)
Theorem tooltip_opens_after_timeout (w : TooltipStore.World) (r : nat)
    (t : TooltipStore.Tooltip) :
  find (fun u => TooltipStore.ref u =? r)%nat (TooltipStore.tooltips w)
  = Some t ->
  TooltipStore.disclosureOpen t = false ->
  TooltipStore.timeout t <> 0%Z ->
  TooltipStore.activeRef w = None ->
  let pending := filter (fun tm => negb (TooltipStore.owner tm =? r)%nat)
                   (TooltipStore.timers w) in
  let w' := TooltipStore.setDisclosureOpen r true w in
  let w'' := TooltipStore.fire (length pending) w' in
  (TooltipStore.isOpen r w' = Some (TooltipStore.open t)
   /\ TooltipStore.activeRef w' = None
   /\ TooltipStore.timers w'
      = pending ++ [TooltipStore.mkTimer r (TooltipStore.timeout t)
                      TooltipStore.Acquire])
  /\ (TooltipStore.isOpen r w'' = Some true
      /\ TooltipStore.activeRef w'' = Some r
      /\ TooltipStore.timers w'' = pending).
Proof.
  intros F D T A pending w' w''.
  pose proof (find_ref r _ t F) as R.
  assert (E : w' = TooltipStore.mkWorld None
                (map (fun u => if (TooltipStore.ref u =? r)%nat
                               then TooltipStore.set_disclosureOpen true u
                               else u) (TooltipStore.tooltips w))
                (pending ++ [TooltipStore.mkTimer r (TooltipStore.timeout t)
                               TooltipStore.Acquire])).
  { subst w'. unfold TooltipStore.setDisclosureOpen. rewrite F, D.
    cbn [Bool.eqb]. unfold TooltipStore.disclosureListener.
    apply Z.eqb_neq in T. rewrite T, R.
    unfold TooltipStore.cleanup at 1. cbn [TooltipStore.activeRef].
    rewrite A. cbn [TooltipStore.isSome orb].
    unfold TooltipStore.setActiveRef, TooltipStore.cleanup.
    cbn [TooltipStore.activeRef]. rewrite ?A. reflexivity. }
  split.
  - rewrite E. unfold TooltipStore.isOpen. cbn [TooltipStore.tooltips].
    rewrite find_disclosure_stored, F. cbn [option_map].
    rewrite R, Nat.eqb_refl. repeat split.
  - subst w''. rewrite E, fire_last.
    unfold TooltipStore.runCallback, TooltipStore.setActiveRef,
      TooltipStore.isOpen.
    cbn -[find]. rewrite find_map_ref by reflexivity.
    rewrite find_disclosure_stored, F. cbn [option_map].
    rewrite R, Nat.eqb_refl. cbn. rewrite R, Nat.eqb_refl. repeat split.
Qed.

(** Tooltip 1 of [twoTooltips] (timeout 500): closed and waiting, then open
    once its timer has fired. *)
Lemma tooltip_opens_after_timeout_witness :
  (TooltipStore.isOpen 1 tooltip1Waiting = Some false
   /\ TooltipStore.activeRef tooltip1Waiting = None
   /\ TooltipStore.timers tooltip1Waiting
      = [TooltipStore.mkTimer 1 500 TooltipStore.Acquire])
  /\ (TooltipStore.isOpen 1 tooltip1Open = Some true
      /\ TooltipStore.activeRef tooltip1Open = Some 1
      /\ TooltipStore.timers tooltip1Open = []).
Proof.
  exact (tooltip_opens_after_timeout twoTooltips 1
           (TooltipStore.mkTooltip 1 500 false false)
           eq_refl eq_refl ltac:(discriminate) eq_refl).
Defined.

(** The listener of [r] shows the tooltip at once when a token is held. *)
Lemma setDisclosureOpen_token_held (w : TooltipStore.World) (r a : nat)
    (t : TooltipStore.Tooltip) :
  find (fun u => TooltipStore.ref u =? r)%nat (TooltipStore.tooltips w)
  = Some t ->
  TooltipStore.disclosureOpen t = false ->
  TooltipStore.activeRef w = Some a ->
  TooltipStore.isOpen r (TooltipStore.setDisclosureOpen r true w) = Some true
  /\ TooltipStore.activeRef (TooltipStore.setDisclosureOpen r true w)
     = Some r.
Proof.
  intros F D A. pose proof (find_ref r _ t F) as R.
  unfold TooltipStore.setDisclosureOpen. rewrite F, D. cbn [Bool.eqb].
  unfold TooltipStore.disclosureListener. rewrite R.
  set (w1 := TooltipStore.cleanup r _).
  assert (G : ((TooltipStore.timeout t =? 0)%Z
               || TooltipStore.isSome (TooltipStore.activeRef w1)) = true).
  { subst w1. cbn [TooltipStore.cleanup TooltipStore.activeRef].
    rewrite A. apply orb_true_r. }
  rewrite G. split.
  - pose proof (setActiveRef_find (Some r) r w1) as Q.
    subst w1. unfold TooltipStore.cleanup in Q at 2.
    cbn [TooltipStore.tooltips] in Q.
    rewrite find_disclosure_stored, F in Q. cbn [option_map] in Q.
    destruct (find _ (TooltipStore.tooltips (TooltipStore.setActiveRef _ _)))
      as [u2|] eqn:Fu2; [|discriminate Q].
    exact (isOpen_setOpen_same r true _ Fu2).
  - cbn [TooltipStore.setOpen TooltipStore.activeRef].
    apply setActiveRef_activeRef.
Qed.

(** X14. Let the disclosure of a set-up tooltip [r] go from open to closed.
    The tooltip's [open] state is false at once, but the [activeRef] token
    is left where it is, and a timer of [timeout] milliseconds is scheduled
    to release it. So another tooltip whose disclosure opens before that
    timer fires, while [r] still holds the token, is shown immediately. When
    the timer fires, the token is released only if [r] still holds it. *)
Theorem tooltip_hides_and_keeps_token (w : TooltipStore.World) (r : nat)
    (t : TooltipStore.Tooltip) :
  find (fun u => TooltipStore.ref u =? r)%nat (TooltipStore.tooltips w)
  = Some t ->
  TooltipStore.disclosureOpen t = true ->
  let pending := filter (fun tm => negb (TooltipStore.owner tm =? r)%nat)
                   (TooltipStore.timers w) in
  let w' := TooltipStore.setDisclosureOpen r false w in
  let w'' := TooltipStore.fire (length pending) w' in
  (TooltipStore.isOpen r w' = Some false
   /\ TooltipStore.activeRef w' = TooltipStore.activeRef w
   /\ TooltipStore.timers w'
      = pending ++ [TooltipStore.mkTimer r (TooltipStore.timeout t)
                      TooltipStore.Release])
  /\ (forall r2 t2,
        r2 <> r -> TooltipStore.activeRef w = Some r ->
        find (fun u => TooltipStore.ref u =? r2)%nat (TooltipStore.tooltips w)
        = Some t2 ->
        TooltipStore.disclosureOpen t2 = false ->
        TooltipStore.isOpen r2 (TooltipStore.setDisclosureOpen r2 true w')
        = Some true)
  /\ TooltipStore.activeRef w''
     = (if option_eqb Nat.eqb (TooltipStore.activeRef w) (Some r)
        then None else TooltipStore.activeRef w).
Proof.
  intros F D pending w' w''.
  pose proof (find_ref r _ t F) as R.
  set (l1 := map (fun u => if (TooltipStore.ref u =? r)%nat
                           then TooltipStore.set_disclosureOpen false u
                           else u) (TooltipStore.tooltips w)).
  assert (E : w' = TooltipStore.mkWorld (TooltipStore.activeRef w)
                (map (fun u => if (TooltipStore.ref u =? r)%nat
                               then TooltipStore.set_open false u else u) l1)
                (pending ++ [TooltipStore.mkTimer r (TooltipStore.timeout t)
                               TooltipStore.Release])).
  { subst w'. unfold TooltipStore.setDisclosureOpen. rewrite F, D.
    cbn [Bool.eqb]. unfold TooltipStore.disclosureListener.
    cbn [Bool.eqb negb]. rewrite R. reflexivity. }
  assert (F1 : forall q u,
             find (fun u => TooltipStore.ref u =? q)%nat
               (TooltipStore.tooltips w) = Some u ->
             find (fun u => TooltipStore.ref u =? q)%nat
               (TooltipStore.tooltips w')
             = Some ((fun u => if (TooltipStore.ref u =? r)%nat
                               then TooltipStore.set_open false u else u)
                       ((fun u => if (TooltipStore.ref u =? r)%nat
                                  then TooltipStore.set_disclosureOpen false u
                                  else u) u))).
  { intros q u Fq. rewrite E. cbn [TooltipStore.tooltips].
    rewrite find_map_ref
      by (intros v; now destruct (TooltipStore.ref v =? r)%nat).
    subst l1. rewrite find_disclosure_stored, Fq. reflexivity. }
  split; [|split].
  - unfold TooltipStore.isOpen. rewrite (F1 r t F). cbn [option_map].
    rewrite R, Nat.eqb_refl. cbn. rewrite R, Nat.eqb_refl.
    rewrite E. repeat split.
  - intros r2 t2 N A F2 D2.
    pose proof (find_ref r2 _ t2 F2) as R2.
    assert (N2 : (TooltipStore.ref t2 =? r)%nat = false)
      by (apply Nat.eqb_neq; congruence).
    pose proof (F1 r2 t2 F2) as G. cbv beta in G. rewrite !N2 in G.
    refine (proj1 (setDisclosureOpen_token_held w' r2 r t2 G D2 _)).
    rewrite E. exact A.
  - subst w''. rewrite E, fire_last.
    unfold TooltipStore.runCallback.
    cbn [TooltipStore.callback TooltipStore.owner TooltipStore.activeRef].
    apply setActiveRef_activeRef.
Qed.

(** Tooltip 1 of [tooltip1Open] hides: it is closed at once, still holds
    the token, and the token is free when the timer has fired; tooltip 2,
    opened meanwhile, shows at once. *)
Lemma tooltip_hides_and_keeps_token_witness :
  let w' := TooltipStore.setDisclosureOpen 1 false tooltip1Open in
  (TooltipStore.isOpen 1 w' = Some false
   /\ TooltipStore.activeRef w' = Some 1
   /\ TooltipStore.timers w'
      = [TooltipStore.mkTimer 1 500 TooltipStore.Release])
  /\ TooltipStore.isOpen 2 (TooltipStore.setDisclosureOpen 2 true w')
     = Some true
  /\ TooltipStore.activeRef (TooltipStore.fire 0 w') = None.
Proof.
  intros w'.
  destruct (tooltip_hides_and_keeps_token tooltip1Open 1
              (TooltipStore.mkTooltip 1 500 true true) eq_refl eq_refl)
    as (A & B & C).
  refine (conj A (conj _ C)).
  exact (B 2 (TooltipStore.mkTooltip 2 500 false false)
           ltac:(discriminate) eq_refl eq_refl eq_refl).
Defined.

(** * Further properties of the collection store *)

Lemma item_cache_ok (heap : nat -> list Item) (c : CollectionRender.Cache)
    (a : nat) (k : jsid) :
  CollectionRender.cache_ok heap c ->
  fst (CollectionRender.item heap c a k)
  = CollectionRender.lookup (heap a) k
  /\ CollectionRender.cache_ok heap (snd (CollectionRender.item heap c a k)).
Proof.
  intros H. unfold CollectionRender.item, CollectionRender.lookup.
  destruct (truthy_id k) eqn:T; cbn [negb]; [|now split].
  destruct (jsid_eqb (CollectionRender.cachedId c) k
            && (CollectionRender.cachedItems c =? a)%nat) eqn:E.
  - apply andb_true_iff in E. destruct E as [E1 E2].
    apply jsid_eqb_eq in E1. apply Nat.eqb_eq in E2. subst k a.
    cbn [fst snd]. split; [|exact H].
    rewrite (H T). unfold CollectionRender.lookup. now rewrite T.
  - cbn [fst snd]. split; [reflexivity|].
    intros _. cbn. unfold CollectionRender.lookup. now rewrite T.
Qed.

Lemma itemCalls_lookup (heap : nat -> list Item)
    (calls : list (nat * jsid)) (c : CollectionRender.Cache) :
  CollectionRender.cache_ok heap c ->
  CollectionRender.itemCalls heap c calls
  = map (fun q => CollectionRender.lookup (heap (fst q)) (snd q)) calls.
Proof.
  revert c. induction calls as [|[a k] calls IH]; intros c H;
    [reflexivity|].
  cbn [CollectionRender.itemCalls map fst snd].
  destruct (item_cache_ok heap c a k H) as [R K].
  destruct (CollectionRender.item heap c a k) as [r c'].
  cbn [fst snd] in *. rewrite R. f_equal. now apply IH.
Qed.

(** X15. The cache of [item(id)] cannot be observed: in any sequence of
    calls, whatever the [items] array of the store is at each call, every
    call returns the first item of the current array with the given id, and
    nothing for a falsy id -- as long as arrays are not written in place,
    which the store never does. *)
Theorem item_cache_transparent (heap : nat -> list Item) (a0 : nat)
    (calls : list (nat * jsid)) :
  CollectionRender.itemCalls heap (CollectionRender.initialCache a0) calls
  = map (fun q => CollectionRender.lookup (heap (fst q)) (snd q)) calls.
Proof.
  apply itemCalls_lookup. intros T. discriminate T.
Qed.

(** The same id asked twice of the same array (a cache hit), then of a new
    array in which the item has been replaced, then an id that is absent. *)
Example item_calls :
  let heap := fun a => match a with
                       | 0 => [plain "A"; plain "B"]
                       | _ => [plain "A"; cell "B" "r"]
                       end in
  CollectionRender.itemCalls heap (CollectionRender.initialCache 0)
    [(0, Str "B"); (0, Str "B"); (1, Str "B"); (1, Str "C"); (1, Null)]
  = [Some (plain "B"); Some (plain "B"); Some (cell "B" "r"); None; None].
Proof. reflexivity. Qed.

Lemma find_id_app_hit (k : jsid) (pre post : list Item) (x : Item) :
  (forall y, In y pre -> jsid_eqb (id y) k = false) ->
  jsid_eqb (id x) k = true ->
  find (fun it => jsid_eqb (id it) k) (pre ++ x :: post) = Some x.
Proof.
  intros Hpre Hx. induction pre as [|y pre IH]; simpl.
  - now rewrite Hx.
  - rewrite (Hpre y) by now left. apply IH. intros z Hz. apply Hpre.
    now right.
Qed.

Lemma find_id_replace (k : jsid) (pre post : list Item) (x x' : Item) :
  jsid_eqb (id x) k = false -> jsid_eqb (id x') k = false ->
  find (fun it => jsid_eqb (id it) k) (pre ++ x' :: post)
  = find (fun it => jsid_eqb (id it) k) (pre ++ x :: post).
Proof.
  intros Hx Hx'. induction pre as [|y pre IH]; simpl.
  - now rewrite Hx, Hx'.
  - now rewrite IH.
Qed.

Lemma find_id_snoc_other (k : jsid) (l : list Item) (x : Item) :
  jsid_eqb (id x) k = false ->
  find (fun it => jsid_eqb (id it) k) (l ++ [x])
  = find (fun it => jsid_eqb (id it) k) l.
Proof.
  intros Hx. induction l as [|y l IH]; simpl.
  - now rewrite Hx.
  - now rewrite IH.
Qed.

(** What [mergeItem] does to the array it updates. *)
Lemma mergeUpdate_lookup (item : ItemObject) (l : list Item) :
  let l' := fst (CollectionStore.mergeUpdate item l) in
  let previous := find (fun it => jsid_eqb (id it) (objId item)) l in
  find (fun it => jsid_eqb (id it) (objId item)) l'
  = Some (match previous with
          | Some prev => CollectionStore.mergeProps prev item
          | None => asItem item
          end)
  /\ (forall k, k <> objId item ->
        find (fun it => jsid_eqb (id it) k) l'
        = find (fun it => jsid_eqb (id it) k) l)
  /\ map id l' = map id l ++ match previous with
                             | Some _ => []
                             | None => [objId item]
                             end.
Proof.
  intros l' previous. subst l' previous.
  unfold CollectionStore.mergeUpdate.
  destruct (find (fun it => jsid_eqb (id it) (objId item)) l)
    as [prev|] eqn:F; cbn [fst].
  - destruct (find_split _ _ F) as (pre & post & E & Hq & Hid & Hi & _).
    rewrite E in *. rewrite Hi. unfold CollectionStore.assignAt.
    replace (Z.of_nat (length pre) <? 0)%Z with false
      by (symmetry; apply Z.ltb_ge; lia).
    rewrite Nat2Z.id, array_set_middle.
    split; [|split].
    + apply find_id_app_hit; [exact Hq|]. cbn. apply jsid_eqb_refl.
    + intros k N. apply find_id_replace.
      * rewrite Hid. apply jsid_eqb_neq. congruence.
      * cbn. apply jsid_eqb_neq. congruence.
    + rewrite !map_app, app_nil_r. cbn. now rewrite Hid.
  - split; [|split].
    + apply find_id_app_hit.
      * intros y Hy. exact (find_none _ _ F y Hy).
      * apply jsid_eqb_refl.
    + intros k N. apply find_id_snoc_other. apply jsid_eqb_neq.
      cbn. congruence.
    + now rewrite map_app.
Qed.

(** The spread, property by property: what the object owns is what is read
    afterwards, what it lacks is read as before. *)
Lemma mergeProps_reads (prev : Item) (item : ItemObject) :
  let m := CollectionStore.mergeProps prev item in
  id m = objId item
  /\ element m = match objElement item with
                 | Own v => v
                 | Absent => element prev
                 end
  /\ rowId m = match objRowId item with
               | Own v => v
               | Absent => rowId prev
               end
  /\ disabled m = match objDisabled item with
                  | Own v => v
                  | Absent => disabled prev
                  end
  /\ children m = match objChildren item with
                  | Own v => v
                  | Absent => children prev
                  end.
Proof. repeat split. Qed.

(** X16. After [registerItem(item)], a search by the item's id finds the
    registered data: when the id was present, the spread
    [{ ...prevItem, ...item }] of the previous entry and the item, in which
    every property the item owns has the item's value (also the value
    [undefined]) and every other property the previous one; when it was
    absent, the item itself. Searches by any other id give what they gave
    before, and the list of ids is the same as before, with the new id at its
    end when it was absent: a registration never makes an id appear twice.
    [renderedItems] is not touched. *)
Theorem registerItem_lookup (st : CollectionStore.State)
    (item : ItemObject) :
  let st' := fst (CollectionStore.registerItem st item) in
  let previous := find (fun it => jsid_eqb (id it) (objId item))
                    (CollectionStore.items st) in
  (exists found,
     find (fun it => jsid_eqb (id it) (objId item))
       (CollectionStore.items st') = Some found
     /\ id found = objId item
     /\ element found
        = match objElement item, previous with
          | Own v, _ => v
          | Absent, Some prev => element prev
          | Absent, None => None
          end
     /\ rowId found
        = match objRowId item, previous with
          | Own v, _ => v
          | Absent, Some prev => rowId prev
          | Absent, None => None
          end
     /\ disabled found
        = match objDisabled item, previous with
          | Own v, _ => v
          | Absent, Some prev => disabled prev
          | Absent, None => None
          end
     /\ children found
        = match objChildren item, previous with
          | Own v, _ => v
          | Absent, Some prev => children prev
          | Absent, None => None
          end)
  /\ (forall k, k <> objId item ->
        find (fun it => jsid_eqb (id it) k) (CollectionStore.items st')
        = find (fun it => jsid_eqb (id it) k) (CollectionStore.items st))
  /\ map id (CollectionStore.items st')
     = map id (CollectionStore.items st)
       ++ match previous with
          | Some _ => []
          | None => [objId item]
          end
  /\ CollectionStore.renderedItems st' = CollectionStore.renderedItems st.
Proof.
  intros st' previous. subst st' previous.
  destruct (mergeUpdate_lookup item (CollectionStore.items st))
    as (A & B & C).
  unfold CollectionStore.registerItem.
  destruct (CollectionStore.mergeUpdate item (CollectionStore.items st))
    as [l reg].
  cbn [fst CollectionStore.items CollectionStore.renderedItems] in *.
  split; [|auto].
  eexists. split; [exact A|].
  destruct (find _ (CollectionStore.items st)) as [prev|].
  - destruct (mergeProps_reads prev item) as (I & E & R & D & Ch).
    cbv zeta in *. rewrite I, E, R, D, Ch.
    destruct (objElement item), (objRowId item), (objDisabled item),
      (objChildren item); repeat split.
  - unfold asItem, read. cbn [id element rowId disabled children].
    destruct (objElement item), (objRowId item), (objDisabled item),
      (objChildren item); repeat split.
Qed.

(** An object registered over an entry with the same id: the properties it
    lacks keep their value, those it owns are replaced, also by
    [undefined]; the other entry is found as before. *)
Example registerItem_lookup_merge :
  let st := CollectionStore.mkState [cell "A" "r1"; plain "B"] [] in
  let st1 := fst (CollectionStore.registerItem st
                    (mkItemObject (Str "A") (Own (Some 7)) Absent Absent
                       Absent)) in
  let st2 := fst (CollectionStore.registerItem st
                    (mkItemObject (Str "A") (Own (Some 7)) (Own None)
                       (Own (Some false)) Absent)) in
  find (fun it => jsid_eqb (id it) (Str "A")) (CollectionStore.items st1)
  = Some (mkItem (Str "A") (Some 7) (Some "r1") None None)
  /\ find (fun it => jsid_eqb (id it) (Str "A")) (CollectionStore.items st2)
     = Some (mkItem (Str "A") (Some 7) None (Some false) None)
  /\ find (fun it => jsid_eqb (id it) (Str "B")) (CollectionStore.items st1)
     = Some (plain "B")
  /\ map id (CollectionStore.items st1) = [Str "A"; Str "B"].
Proof. repeat split. Qed.

(** X17. [renderItem(item)] writes the item into both lists -- the [items]
    of the store and the private [renderedItems] -- where a search by its id
    then finds it: the item itself, or the spread
    [{ ...prevItem, ...item }] over the previous entry of that list (every
    property the item owns has the item's value, also [undefined], see
    [mergeProps_reads]); and the function it returns, called next, puts both
    lists back as they were. *)
Theorem renderItem_unrender (s : CollectionRender.Stores)
    (item : ItemObject) :
  let s' := fst (CollectionRender.renderItem s item) in
  let regs := snd (CollectionRender.renderItem s item) in
  let merged := fun l =>
    match find (fun it => jsid_eqb (id it) (objId item)) l with
    | Some prev => CollectionStore.mergeProps prev item
    | None => asItem item
    end in
  find (fun it => jsid_eqb (id it) (objId item))
    (CollectionStore.items (CollectionRender.store s'))
  = Some (merged (CollectionStore.items (CollectionRender.store s)))
  /\ find (fun it => jsid_eqb (id it) (objId item))
       (CollectionRender.privateRenderedItems s')
     = Some (merged (CollectionRender.privateRenderedItems s))
  /\ CollectionRender.unrenderItem item regs s' = s.
Proof.
  intros s' regs merged. subst s' regs merged.
  destruct (mergeUpdate_lookup item
              (CollectionStore.items (CollectionRender.store s)))
    as (A & _).
  destruct (mergeUpdate_lookup item (CollectionRender.privateRenderedItems s))
    as (B & _).
  pose proof (mergeUpdate_unregisterUpdate item
                (CollectionStore.items (CollectionRender.store s))) as U1.
  pose proof (mergeUpdate_unregisterUpdate item
                (CollectionRender.privateRenderedItems s)) as U2.
  unfold CollectionRender.renderItem, CollectionRender.unrenderItem,
    CollectionStore.registerItem, CollectionStore.unregisterItem.
  destruct (CollectionStore.mergeUpdate item
              (CollectionStore.items (CollectionRender.store s)))
    as [l1 reg1].
  destruct (CollectionStore.mergeUpdate item
              (CollectionRender.privateRenderedItems s)) as [l2 reg2].
  cbn in *. rewrite U1, U2. repeat split; try assumption.
  destruct s as [[? ?] ?]. reflexivity.
Qed.

(** Rendering [{ id: "A", rowId: undefined }] over an entry of row ["r1"]:
    both lists hold the entry without its row, and the returned function
    restores them. *)
Example renderItem_own_undefined :
  let s := CollectionRender.mkStores
             (CollectionStore.mkState [cell "A" "r1"] [])
             [cell "A" "r1"; plain "B"] in
  let item := mkItemObject (Str "A") Absent (Own None) Absent Absent in
  let r := CollectionRender.renderItem s item in
  CollectionStore.items (CollectionRender.store (fst r)) = [plain "A"]
  /\ CollectionRender.privateRenderedItems (fst r) = [plain "A"; plain "B"]
  /\ CollectionRender.unrenderItem item (snd r) (fst r) = s.
Proof. repeat split. Qed.

(** * Moving along the columns of a grid *)

Lemma index_to_string_inj (i j : nat) :
  index_to_string i = index_to_string j -> i = j.
Proof.
  unfold index_to_string. intros E.
  assert (Q : NilEmpty.uint_of_string (NilEmpty.string_of_uint (Nat.to_uint i))
              = NilEmpty.uint_of_string
                  (NilEmpty.string_of_uint (Nat.to_uint j)))
    by now rewrite E.
  rewrite !NilEmpty.usu in Q. injection Q as Q.
  now apply DecimalNat.Unsigned.to_uint_inj.
Qed.

Lemma column_cells (i : nat) (rows : list (list Item)) :
  flat_map (fun row => match nth_error row i with
                       | Some item => [CompositeStore.verticalCell i item]
                       | None => []
                       end) rows
  = map (CompositeStore.verticalCell i) (column i rows).
Proof.
  induction rows as [|row rows IH]; [reflexivity|].
  unfold column in *. cbn [flat_map]. rewrite map_app, IH.
  now destruct (nth_error row i).
Qed.

Lemma column_app (j : nat) (a b : list (list Item)) :
  column j (a ++ b) = column j a ++ column j b.
Proof. apply flat_map_app. Qed.

Lemma column_In (j : nat) (rows : list (list Item)) (y : Item) :
  In y (column j rows) ->
  exists row, In row rows /\ nth_error row j = Some y.
Proof.
  intros H. apply in_flat_map in H. destruct H as (row & Hr & Hy).
  exists row. split; [exact Hr|].
  destruct (nth_error row j) as [z|]; [|destruct Hy].
  destruct Hy as [->|[]]. reflexivity.
Qed.

(** The transposed order of a grid: column after column. *)
Lemma vertical_as_columns (rows : list (list Item)) :
  grid rows ->
  CompositeStore.verticalizeItems (concat rows)
  = flat_map (fun i => map (CompositeStore.verticalCell i) (column i rows))
      (seq 0 (CompositeStore.getMaxRowLength rows)).
Proof.
  intros G. unfold CompositeStore.verticalizeItems.
  rewrite (group_concat G). apply flat_map_ext. intros i.
  apply column_cells.
Qed.

Lemma verticalCell_id (i : nat) (x : Item) :
  id (CompositeStore.verticalCell i x) = id x.
Proof. reflexivity. Qed.

Lemma verticalCell_enabled (i : nat) (x : Item) :
  is_enabled (CompositeStore.verticalCell i x) = is_enabled x.
Proof. reflexivity. Qed.

Lemma firstEnabled_verticalCell (i : nat) (l : list Item) :
  firstEnabled (map (CompositeStore.verticalCell i) l)
  = option_map (CompositeStore.verticalCell i) (firstEnabled l).
Proof.
  induction l as [|x l IH]; [reflexivity|]. cbn [map firstEnabled].
  rewrite verticalCell_enabled. now destruct (is_enabled x).
Qed.

(** [getNextId] on a vertical order, without loop and wrap: the first
    enabled item after the active one in its row, or nothing. *)
Lemma getNextId_vertical_step (st : CompositeStoreState)
    (pre post : list Item) (x : Item) (s : string) (h : bool) :
  activeId st = Str s -> id x = Str s ->
  (forall y, In y pre -> jsid_eqb (id y) (Str s) = false) ->
  focusLoop st = FBool false -> focusWrap st = FBool false ->
  CompositeStore.getNextId st (pre ++ x :: post) vertical h None
  = match CompositeStore.findFirstEnabledItem
            (CompositeStore.getItemsInRow post (rowId x)) (Str s) with
    | Some it => id it
    | None => if h then Null else Undefined
    end.
Proof.
  intros Hact Hid Hpre Hloop Hwrap.
  unfold CompositeStore.getNextId, reverseArray.
  rewrite Hact, Hloop, Hwrap. cbn [is_nullish Orientation_eqb negb].
  rewrite andb_false_r.
  destruct (@find_at (Str s) pre post x Hpre Hid) as (F & Hi & _).
  rewrite F, Hi, slice_after.
  cbn [truthy_focus andb orb]. rewrite !andb_false_r. cbn [andb orb].
  rewrite orb_false_r. reflexivity.
Qed.

(** The step along a column, on the transposed order of a grid. *)
Lemma vertical_step (st : CompositeStoreState)
    (before after : list (list Item)) (l1 l2 : list Item) (x : Item)
    (s : string) (h : bool) :
  grid (before ++ (l1 ++ x :: l2) :: after) ->
  (forall y, In y (concat before ++ l1) \/ In y (l2 ++ concat after) ->
             jsid_eqb (id y) (Str s) = false) ->
  activeId st = Str s -> id x = Str s ->
  focusLoop st = FBool false -> focusWrap st = FBool false ->
  CompositeStore.getNextId st
    (CompositeStore.verticalizeItems
       (concat (before ++ (l1 ++ x :: l2) :: after))) vertical h None
  = match firstEnabled (column (length l1) after) with
    | Some it => id it
    | None => if h then Null else Undefined
    end.
Proof.
  intros G Hoth Hact Hid Hloop Hwrap.
  set (rows := before ++ (l1 ++ x :: l2) :: after) in *.
  set (j := length l1).
  rewrite (vertical_as_columns rows G).
  set (m := CompositeStore.getMaxRowLength rows).
  assert (Hj : j < m).
  { assert (L : length (l1 ++ x :: l2) <= m).
    { apply getMaxRowLength_ge. subst rows. apply in_or_app. right.
      now left. }
    rewrite length_app in L. simpl in L. subst j. lia. }
  replace m with (j + S (m - S j)) by lia.
  rewrite seq_app, flat_map_app. cbn [seq flat_map Nat.add].
  assert (C : column j rows
              = column j before ++ x :: column j after).
  { subst rows. rewrite column_app. f_equal. unfold column at 1.
    cbn [flat_map]. subst j.
    rewrite nth_error_app2, Nat.sub_diag by lia. reflexivity. }
  rewrite C, map_app. cbn [map].
  rewrite <- app_assoc, <- app_comm_cons, app_assoc.
  set (A := flat_map _ (seq 0 j)).
  set (B := flat_map _ (seq (S j) (m - S j))).
  assert (Hrow : forall row, In row rows -> grid_row row)
    by (destruct G as [F _]; now apply Forall_forall).
  assert (Hx : grid_row (l1 ++ x :: l2)).
  { apply Hrow. subst rows. apply in_or_app. right. now left. }
  assert (Tx : truthy_str (rowId x) = true).
  { destruct Hx as (_ & T & U). rewrite (U x); [exact T|].
    apply in_or_app. right. now left. }
  assert (Hcell : forall row i y,
             In row rows -> nth_error row i = Some y ->
             truthy_str (rowId y) = true).
  { intros row i y Hr Hy. destruct (Hrow row Hr) as (_ & T & U).
    rewrite (U y); [exact T|]. eapply nth_error_In; eauto. }
  assert (Hsplit : forall row, In row rows ->
                     In row before \/ row = l1 ++ x :: l2 \/ In row after).
  { subst rows. intros row H. apply in_app_or in H.
    destruct H as [H|[H|H]]; auto. }
  assert (Hother : forall row i y,
             In row rows -> nth_error row i = Some y -> i <> j ->
             jsid_eqb (id y) (Str s) = false).
  { intros row i y Hr Hy Hij. apply Hoth.
    destruct (Hsplit row Hr) as [Hb|[->|Ha]].
    - left. apply in_or_app. left. apply in_concat. exists row.
      split; [exact Hb|]. eapply nth_error_In; eauto.
    - destruct (Nat.lt_ge_cases i j) as [Lt|Ge].
      + left. apply in_or_app. right.
        rewrite nth_error_app1 in Hy by (subst j; lia).
        eapply nth_error_In; eauto.
      + right. apply in_or_app. left.
        rewrite nth_error_app2 in Hy by (subst j; lia).
        destruct (i - length l1) as [|k] eqn:K; [subst j; lia|].
        simpl in Hy. eapply nth_error_In; eauto.
    - right. apply in_or_app. right. apply in_concat. exists row.
      split; [exact Ha|]. eapply nth_error_In; eauto. }
  rewrite (getNextId_vertical_step st _ _ _ s h Hact).
  - cbn [CompositeStore.verticalCell rowId]. rewrite Tx.
    assert (R : CompositeStore.getItemsInRow
                  (map (CompositeStore.verticalCell j) (column j after) ++ B)
                  (Some (index_to_string j))
                = map (CompositeStore.verticalCell j) (column j after)).
    { unfold CompositeStore.getItemsInRow. rewrite filter_app.
      rewrite filter_all_true, filter_none; [apply app_nil_r| |].
      - intros y Hy. subst B. apply in_flat_map in Hy.
        destruct Hy as (i & Hi & Hy). apply in_seq in Hi.
        apply in_map_iff in Hy. destruct Hy as (z & <- & Hz).
        apply column_In in Hz. destruct Hz as (row & Hr & Hz).
        cbn [CompositeStore.verticalCell rowId].
        rewrite (Hcell row i z Hr Hz). cbn [opt_string_eqb].
        apply String.eqb_neq. intros E. apply index_to_string_inj in E.
        lia.
      - intros y Hy. apply in_map_iff in Hy. destruct Hy as (z & <- & Hz).
        apply column_In in Hz. destruct Hz as (row & Hr & Hz).
        cbn [CompositeStore.verticalCell rowId].
        rewrite (Hcell row j z); [|subst rows; apply in_or_app; right;
                                   now right | exact Hz].
        cbn [opt_string_eqb]. apply String.eqb_refl. }
    rewrite R, find_enabled_others, firstEnabled_verticalCell.
    + now destruct (firstEnabled (column j after)).
    + intros y Hy. apply in_map_iff in Hy. destruct Hy as (z & <- & Hz).
      rewrite verticalCell_id. apply Hoth. right. apply in_or_app. right.
      apply column_In in Hz. destruct Hz as (row & Hr & Hz).
      apply in_concat. exists row. split; [exact Hr|].
      eapply nth_error_In; eauto.
  - exact Hid.
  - intros y Hy. apply in_app_or in Hy. destruct Hy as [Hy|Hy].
    + subst A. apply in_flat_map in Hy. destruct Hy as (i & Hi & Hy).
      apply in_seq in Hi. apply in_map_iff in Hy.
      destruct Hy as (z & <- & Hz). rewrite verticalCell_id.
      apply column_In in Hz. destruct Hz as (row & Hr & Hz).
      apply (Hother row i z Hr Hz). lia.
    + apply in_map_iff in Hy. destruct Hy as (z & <- & Hz).
      rewrite verticalCell_id. apply Hoth. left. apply in_or_app. left.
      apply column_In in Hz. destruct Hz as (row & Hr & Hz).
      apply in_concat. exists row. split; [exact Hr|].
      eapply nth_error_In; eauto.
  - exact Hloop.
  - exact Hwrap.
Qed.

Lemma getMaxRowLength_le_acc (rows : list (list Item)) (acc m : nat) :
  acc <= m -> (forall row, In row rows -> length row <= m) ->
  fold_left
    (fun maxLength row =>
       if (maxLength <? length row)%nat then length row else maxLength)
    rows acc <= m.
Proof.
  revert acc. induction rows as [|row rows IH]; intros acc Ha H;
    cbn [fold_left]; [exact Ha|].
  apply IH.
  - destruct (acc <? length row)%nat; [apply H; now left | exact Ha].
  - intros r Hr. apply H. now right.
Qed.

Lemma normalizeCell_same (a : jsid) (s : bool) (row : list Item) (k : nat) :
  k < length row ->
  (s = true -> forall y, In y row -> is_enabled y = true) ->
  CompositeStore.normalizeCell a s row k = row.
Proof.
  intros Hk He. unfold CompositeStore.normalizeCell.
  destruct (nth_error row k) as [it|] eqn:N.
  - destruct s; [|reflexivity].
    pose proof (He eq_refl it (nth_error_In _ _ N)) as E.
    unfold is_enabled in E. apply negb_true_iff in E. now rewrite E.
  - apply nth_error_None in N. lia.
Qed.

Lemma normalizeRow_same (a : jsid) (s : bool) (row : list Item) (m : nat) :
  m <= length row ->
  (s = true -> forall y, In y row -> is_enabled y = true) ->
  CompositeStore.normalizeRow a s m row = row.
Proof.
  intros Hm He. unfold CompositeStore.normalizeRow.
  assert (G : forall n k, k + n <= length row ->
                fold_left (CompositeStore.normalizeCell a s) (seq k n) row
                = row).
  { induction n as [|n IH]; intros k Hk; [reflexivity|].
    cbn [seq fold_left]. rewrite normalizeCell_same by (auto; lia).
    apply IH. lia. }
  apply G. lia.
Qed.

(** Rows of equal length are left as they are by [normalizeRows], unless
    [focusShift] finds a disabled item. *)
Lemma normalizeRows_rectangular (rows : list (list Item)) (a : jsid)
    (s : bool) (n : nat) :
  (forall row, In row rows -> length row = n) ->
  (s = true -> forall y, In y (concat rows) -> is_enabled y = true) ->
  CompositeStore.normalizeRows rows a s = rows.
Proof.
  intros Hn He. unfold CompositeStore.normalizeRows.
  transitivity (map (fun row : list Item => row) rows); [|apply map_id].
  apply map_ext_in. intros row Hr.
  apply normalizeRow_same.
  - rewrite (Hn row Hr). apply getMaxRowLength_le_acc; [lia|].
    intros r H. rewrite (Hn r H). lia.
  - intros S y Hy. apply (He S). apply in_concat. eauto.
Qed.

Lemma rev_concat_rows (rows : list (list Item)) :
  rev (concat rows) = concat (map (@rev Item) (rev rows)).
Proof.
  induction rows as [|row rows IH]; [reflexivity|].
  cbn [concat rev]. rewrite rev_app_distr, IH, map_app, concat_app.
  cbn [map concat]. now rewrite app_nil_r.
Qed.

Lemma rowKey_rev (row : list Item) :
  grid_row row -> rowKey (rev row) = rowKey row.
Proof.
  intros (Hne & _ & Hu). destruct (rev row) as [|h t] eqn:E.
  - exfalso. apply Hne. rewrite <- (rev_involutive row), E. reflexivity.
  - cbn [rowKey]. apply Hu. apply in_rev. rewrite E. now left.
Qed.

Lemma grid_rev (rows : list (list Item)) :
  grid rows -> grid (map (@rev Item) (rev rows)).
Proof.
  intros [F N]. pose proof (proj1 (Forall_forall _ _) F) as Hrow.
  split.
  - apply Forall_forall. intros r Hr. apply in_map_iff in Hr.
    destruct Hr as (row & <- & Hin). apply in_rev in Hin.
    pose proof (Hrow row Hin) as G. destruct G as (Hne & T & Hu).
    pose proof (rowKey_rev row (conj Hne (conj T Hu))) as K.
    split; [|split].
    + intros E. apply Hne. rewrite <- (rev_involutive row), E. reflexivity.
    + now rewrite K.
    + intros y Hy. rewrite K. apply Hu. now apply in_rev.
  - rewrite map_map.
    rewrite (map_ext_in (fun r => rowKey (rev r)) rowKey).
    + rewrite map_rev. now apply NoDup_rev.
    + intros r Hr. apply rowKey_rev. apply Hrow. now apply in_rev.
Qed.

Lemma column_rev (j j' n : nat) (rows : list (list Item)) :
  (forall row, In row rows -> length row = n) -> j + j' + 1 = n ->
  column j' (map (@rev Item) (rev rows)) = rev (column j rows).
Proof.
  intros Hn Hj. induction rows as [|row rows IH]; [reflexivity|].
  cbn [rev]. rewrite map_app, column_app, IH
    by (intros r Hr; apply Hn; now right).
  unfold column at 2 3. cbn [map flat_map]. rewrite app_nil_r, rev_app_distr.
  f_equal. rewrite nth_error_rev, (Hn row) by now left.
  replace (j' <? n)%nat with true by (symmetry; apply Nat.ltb_lt; lia).
  replace (n - S j') with j by lia.
  now destruct (nth_error row j).
Qed.

(** X18. In a grid whose rows have the same length, with [focusLoop] and
    [focusWrap] off and unique ids, [down()] from the item in column [j]
    returns the first enabled item below it in column [j] ([undefined] when
    there is none), and [up()] the nearest enabled item above it in column
    [j] -- or, when there is none, [null] if the base element takes part in
    the navigation and [undefined] otherwise. [focusShift] makes no
    difference as long as no item is disabled. *)
Theorem down_up_in_grid (st : CompositeStoreState)
    (before after : list (list Item)) (l1 l2 : list Item) (x : Item)
    (s : string) :
  renderedItems st = concat (before ++ (l1 ++ x :: l2) :: after) ->
  grid (before ++ (l1 ++ x :: l2) :: after) ->
  (forall row, In row (before ++ (l1 ++ x :: l2) :: after) ->
               length row = length (l1 ++ x :: l2)) ->
  NoDup (map id (concat (before ++ (l1 ++ x :: l2) :: after))) ->
  activeId st = Str s -> id x = Str s ->
  focusLoop st = FBool false -> focusWrap st = FBool false ->
  (focusShift st = true ->
   forall y, In y (concat (before ++ (l1 ++ x :: l2) :: after)) ->
             is_enabled y = true) ->
  CompositeStore.down st None
  = id_of (firstEnabled (column (length l1) after))
  /\ CompositeStore.up st None
     = match lastEnabled (column (length l1) before) with
       | Some it => id it
       | None => if includesBaseElement st then Null else Undefined
       end.
Proof.
  intros Hr G Hlen Hnd Hact Hid Hloop Hwrap Hen.
  set (rows := before ++ (l1 ++ x :: l2) :: after) in *.
  assert (Hnorm : CompositeStore.normalizeRows
                    (CompositeStore.groupItemsByRows (renderedItems st))
                    (activeId st) (focusShift st && true) = rows).
  { rewrite Hr, (group_concat G), andb_true_r.
    apply (normalizeRows_rectangular rows _ _ _ Hlen).
    exact Hen. }
  assert (Hc : concat rows
               = (concat before ++ l1) ++ x :: (l2 ++ concat after)).
  { subst rows. rewrite concat_app. cbn [concat].
    now rewrite <- !app_assoc. }
  assert (Hoth : forall y,
             In y (concat before ++ l1) \/ In y (l2 ++ concat after) ->
             jsid_eqb (id y) (Str s) = false).
  { rewrite Hc in Hnd. rewrite <- Hid. intros y [Hy|Hy].
    - exact (NoDup_ids_split _ _ _ Hnd y Hy).
    - exact (NoDup_ids_split_post _ _ _ Hnd y Hy). }
  split.
  - unfold CompositeStore.down. cbn [CompositeStore.not_skip].
    rewrite Hnorm, Hloop. cbn [truthy_focus andb].
    unfold flatten2DArray. subst rows.
    rewrite (vertical_step st before after l1 l2 x s false G Hoth Hact Hid
               Hloop Hwrap).
    now destruct (firstEnabled (column (length l1) after)).
  - unfold CompositeStore.up. cbn [CompositeStore.not_skip].
    rewrite Hnorm. unfold flatten2DArray, reverseArray.
    rewrite rev_concat_rows.
    assert (Er : map (@rev Item) (rev rows)
                 = map (@rev Item) (rev after)
                   ++ (rev l2 ++ x :: rev l1)
                   :: map (@rev Item) (rev before)).
    { subst rows. rewrite rev_app_distr. cbn [rev].
      rewrite !map_app. cbn [map]. rewrite <- !app_assoc. cbn [app].
      do 2 f_equal. rewrite rev_app_distr. cbn [rev].
      now rewrite <- app_assoc. }
    pose proof (grid_rev rows G) as G'. rewrite Er in *.
    rewrite (vertical_step st _ _ _ _ x s (includesBaseElement st) G').
    + rewrite (column_rev (length l1) (length (rev l2))
                 (length (l1 ++ x :: l2))).
      * now rewrite firstEnabled_rev.
      * intros row H. apply Hlen. subst rows. apply in_or_app. now left.
      * rewrite length_rev, length_app. simpl. lia.
    + intros y [Hy|Hy]; apply Hoth.
      * right. apply in_app_or in Hy. apply in_or_app.
        destruct Hy as [Hy|Hy].
        -- right. rewrite <- rev_concat_rows in Hy. now apply in_rev.
        -- left. now apply in_rev.
      * left. apply in_app_or in Hy. apply in_or_app.
        destruct Hy as [Hy|Hy].
        -- right. now apply in_rev.
        -- left. rewrite <- rev_concat_rows in Hy. now apply in_rev.
    + exact Hact.
    + exact Hid.
    + exact Hloop.
    + exact Hwrap.
Qed.

Lemma grid3x3_rows :
  grid ([[cell "A" "r1"; cell "B" "r1"; cell "C" "r1"]]
        ++ ([cell "D" "r2"] ++ cell "E" "r2" :: [cell "F" "r2"])
        :: [[cell "G" "r3"; cell "H" "r3"; cell "I" "r3"]]).
Proof.
  split.
  - repeat constructor; try discriminate;
      intros y H; in_literal H; reflexivity.
  - repeat constructor; simpl; intros H; in_literal H; discriminate.
Qed.

Lemma grid3x3_ids :
  NoDup (map id
           (concat ([[cell "A" "r1"; cell "B" "r1"; cell "C" "r1"]]
                    ++ ([cell "D" "r2"] ++ cell "E" "r2" :: [cell "F" "r2"])
                    :: [[cell "G" "r3"; cell "H" "r3"; cell "I" "r3"]]))).
Proof.
  repeat constructor; simpl; intros H; in_literal H; discriminate.
Qed.

(** The middle of a 3 x 3 grid: [down()] gives the item below, [up()] the
    item above; from the top row, [up()] gives [null] when the base element
    takes part. *)
Lemma down_up_in_grid_witness :
  let l := [cell "A" "r1"; cell "B" "r1"; cell "C" "r1";
            cell "D" "r2"; cell "E" "r2"; cell "F" "r2";
            cell "G" "r3"; cell "H" "r3"; cell "I" "r3"] in
  let st := stateWith l (Str "E") both false (FBool false) (FBool false)
              true true in
  CompositeStore.down st None = Str "H"
  /\ CompositeStore.up st None = Str "B".
Proof.
  intros l st.
  assert (L : forall row,
             In row ([[cell "A" "r1"; cell "B" "r1"; cell "C" "r1"]]
                     ++ ([cell "D" "r2"] ++ cell "E" "r2" :: [cell "F" "r2"])
                     :: [[cell "G" "r3"; cell "H" "r3"; cell "I" "r3"]]) ->
             length row
             = length ([cell "D" "r2"] ++ cell "E" "r2" :: [cell "F" "r2"])).
  { intros row H. in_literal H; reflexivity. }
  assert (E : focusShift st = true ->
              forall y,
                In y (concat
                        ([[cell "A" "r1"; cell "B" "r1"; cell "C" "r1"]]
                         ++ ([cell "D" "r2"] ++ cell "E" "r2"
                             :: [cell "F" "r2"])
                         :: [[cell "G" "r3"; cell "H" "r3"; cell "I" "r3"]]))
                -> is_enabled y = true).
  { intros _ y H. in_literal H; reflexivity. }
  exact (down_up_in_grid st
           [[cell "A" "r1"; cell "B" "r1"; cell "C" "r1"]]
           [[cell "G" "r3"; cell "H" "r3"; cell "I" "r3"]]
           [cell "D" "r2"] [cell "F" "r2"] (cell "E" "r2") "E"
           eq_refl grid3x3_rows L grid3x3_ids eq_refl eq_refl eq_refl eq_refl
           E).
Defined.

(** A disabled item in the column is stepped over; at the top row, [up()]
    goes to the base element when it takes part. *)
Example down_up_disabled_cell :
  let H' := mkItem (Str "H") None (Some "r3") (Some true) None in
  let l := [cell "A" "r1"; cell "B" "r1";
            cell "D" "r2"; cell "E" "r2";
            cell "G" "r3"; H';
            cell "J" "r4"; cell "K" "r4"] in
  CompositeStore.down
    (stateWith l (Str "E") both false (FBool false) (FBool false)
       false false) None = Str "K"
  /\ CompositeStore.up
       (stateWith l (Str "B") both false (FBool false) (FBool false)
          false true) None = Null.
Proof. split; reflexivity. Qed.

(** * Looping *)

Lemma getItemsInRow_split (pre post : list Item) (x : Item) :
  CompositeStore.getItemsInRow (pre ++ x :: post) (rowId x)
  = CompositeStore.getItemsInRow pre (rowId x)
    ++ x :: CompositeStore.getItemsInRow post (rowId x).
Proof.
  unfold CompositeStore.getItemsInRow. rewrite filter_app. cbn [filter].
  now rewrite opt_string_eqb_refl.
Qed.

Lemma flipItems_split (pre post : list Item) (x : Item) (s : string)
    (h : bool) :
  (forall y, In y pre -> jsid_eqb (id y) (Str s) = false) ->
  id x = Str s ->
  CompositeStore.flipItems (pre ++ x :: post) (Str s) h
  = post ++ (if h then [CompositeStore.NULL_ITEM] else []) ++ pre.
Proof.
  intros Hpre Hid. unfold CompositeStore.flipItems.
  destruct (@find_at (Str s) pre post x Hpre Hid) as (_ & _ & Hf).
  rewrite Hf, slice_after.
  replace (pre ++ x :: post) with (pre ++ (x :: post)) by reflexivity.
  now rewrite slice_prefix.
Qed.

(** X19. With looping on, [next()] from an item walks a cycle: it returns
    the first enabled item after the active one; when there is none, the
    base element ([null]) if the composite is not a grid and
    [includesBaseElement] is set, and otherwise the first enabled item
    before the active one ([undefined] when the active item is the only
    enabled one). In a grid the cycle is the row of the active item, or all
    the items when [focusWrap] applies. *)
Theorem next_with_loop (st : CompositeStoreState) (pre post : list Item)
    (x : Item) (s : string) :
  navigationOrder st = pre ++ x :: post ->
  NoDup (map id (renderedItems st)) ->
  activeId st = Str s ->
  id x = Str s ->
  truthy_focus (focusLoop st)
  && focus_differs (focusLoop st)
       (CompositeStore.getOppositeOrientation (orientation st)) = true ->
  let isGrid := truthy_str (rowId x) in
  let canWrap :=
    isGrid && truthy_focus (focusWrap st)
    && focus_differs (focusWrap st)
         (CompositeStore.getOppositeOrientation (orientation st)) in
  let cycle := fun l => if canWrap then l
                        else CompositeStore.getItemsInRow l (rowId x) in
  CompositeStore.next st None
  = match firstEnabled (cycle post) with
    | Some y => id y
    | None =>
        if negb isGrid && includesBaseElement st then Null
        else id_of (firstEnabled (cycle pre))
    end.
Proof.
  intros Hnav Hnd Hact Hid Hloop isGrid canWrap cycle.
  destruct (post_ids_differ st pre post x s Hnav Hnd Hid) as [Hpre Hpost].
  assert (Hcpre : forall y, In y (cycle pre) ->
                    jsid_eqb (id y) (Str s) = false).
  { intros y Hy. apply Hpre. subst cycle. cbv beta in Hy.
    destruct canWrap; [exact Hy|]. eapply getItemsInRow_incl; eauto. }
  assert (Hcpost : forall y, In y (cycle post) ->
                     jsid_eqb (id y) (Str s) = false).
  { intros y Hy. apply Hpost. subst cycle. cbv beta in Hy.
    destruct canWrap; [exact Hy|]. eapply getItemsInRow_incl; eauto. }
  destruct (@find_at (Str s) pre post x Hpre Hid) as (F & Hi & _).
  unfold CompositeStore.next, CompositeStore.getNextId.
  change (if rtl st && negb (Orientation_eqb (orientation st) vertical)
          then reverseArray (renderedItems st) else renderedItems st)
    with (navigationOrder st).
  rewrite Hact. cbn [is_nullish]. rewrite Hnav, F, Hi, slice_after.
  replace (if truthy_str (rowId x) then orientation st else orientation st)
    with (orientation st) by now destruct (truthy_str (rowId x)).
  rewrite Hloop. fold isGrid. fold canWrap. cbn [orb andb].
  rewrite andb_true_r.
  set (h := negb isGrid && includesBaseElement st).
  assert (Hw : canWrap && negb h = canWrap).
  { subst h canWrap. destruct isGrid; cbn [negb andb];
      [apply andb_true_r | reflexivity]. }
  rewrite Hw.
  assert (L : (if canWrap then pre ++ x :: post
               else CompositeStore.getItemsInRow (pre ++ x :: post)
                      (rowId x))
              = cycle pre ++ x :: cycle post).
  { subst cycle. cbv beta. destruct canWrap; [reflexivity|].
    apply getItemsInRow_split. }
  rewrite L, (flipItems_split _ _ x s h Hcpre Hid).
  rewrite find_enabled_others.
  - rewrite !firstEnabled_app.
    destruct (firstEnabled (cycle post)); [reflexivity|].
    destruct h; reflexivity.
  - intros y Hy. apply in_app_or in Hy. destruct Hy as [Hy|Hy]; auto.
    apply in_app_or in Hy. destruct Hy as [Hy|Hy]; auto.
    destruct h; [|destruct Hy]. destruct Hy as [<-|[]]. reflexivity.
Qed.

(** A toolbar [A, B, C] that loops: from [C] to [A]; to the base element
    when it takes part; and within the row of a grid. *)
Lemma next_with_loop_witness :
  CompositeStore.next
    (stateWith abc (Str "C") both false (FBool true) (FBool false)
       false false) None = Str "A"
  /\ CompositeStore.next
       (stateWith abc (Str "C") both false (FBool true) (FBool false)
          false true) None = Null
  /\ CompositeStore.next
       (stateWith grid2x2 (Str "B") both false (FBool true) (FBool false)
          false true) None = Str "A".
Proof.
  assert (N : NoDup (map id grid2x2)).
  { repeat constructor; simpl; intros H; in_literal H; discriminate. }
  refine (conj _ (conj _ _)).
  - exact (next_with_loop
             (stateWith abc (Str "C") both false (FBool true) (FBool false)
                false false)
             [plain "A"; plain "B"] [] (plain "C") "C"
             eq_refl abc_unique_ids eq_refl eq_refl eq_refl).
  - exact (next_with_loop
             (stateWith abc (Str "C") both false (FBool true) (FBool false)
                false true)
             [plain "A"; plain "B"] [] (plain "C") "C"
             eq_refl abc_unique_ids eq_refl eq_refl eq_refl).
  - exact (next_with_loop
             (stateWith grid2x2 (Str "B") both false (FBool true)
                (FBool false) false true)
             [cell "A" "r1"] [cell "C" "r2"; cell "D" "r2"] (cell "B" "r1")
             "B" eq_refl N eq_refl eq_refl eq_refl).
Defined.

(** [getNextId] on items without [rowId]: the next enabled item, then the
    base element, then (when looping) the first enabled item. *)
Lemma getNextId_plain (st : CompositeStoreState) (l pre post : list Item)
    (x : Item) (o : Orientation) (h : bool) (s : string) :
  (if rtl st && negb (Orientation_eqb o vertical) then rev l else l)
  = pre ++ x :: post ->
  activeId st = Str s -> id x = Str s ->
  (forall y, In y pre -> jsid_eqb (id y) (Str s) = false) ->
  (forall y, In y post -> jsid_eqb (id y) (Str s) = false) ->
  (forall y, In y (pre ++ x :: post) -> rowId y = None) ->
  let canLoop :=
    truthy_focus (focusLoop st)
    && focus_differs (focusLoop st)
         (CompositeStore.getOppositeOrientation o) in
  CompositeStore.getNextId st l o h None
  = match firstEnabled post with
    | Some y => id y
    | None =>
        if h || (canLoop && includesBaseElement st) then Null
        else if canLoop then id_of (firstEnabled pre)
        else Undefined
    end.
Proof.
  intros Hall Hact Hid Hpre Hpost Hrow canLoop.
  assert (Rx : rowId x = None).
  { apply Hrow. apply in_or_app. right. now left. }
  assert (Rall : CompositeStore.getItemsInRow (pre ++ x :: post) None
                 = pre ++ x :: post)
    by (apply getItemsInRow_all; exact Hrow).
  assert (Rpost : CompositeStore.getItemsInRow post None = post).
  { apply getItemsInRow_all. intros y Hy. apply Hrow. apply in_or_app.
    right. now right. }
  destruct (@find_at (Str s) pre post x Hpre Hid) as (F & Hi & _).
  unfold CompositeStore.getNextId, reverseArray.
  rewrite Hall, Hact. cbn [is_nullish].
  rewrite F, Hi, slice_after, Rx, Rpost, Rall.
  cbn [truthy_str negb andb orb]. fold canLoop.
  set (h' := h || (canLoop && includesBaseElement st)).
  destruct canLoop.
  - rewrite (flipItems_split _ _ x s h' Hpre Hid).
    rewrite find_enabled_others.
    + rewrite !firstEnabled_app.
      destruct (firstEnabled post); [reflexivity|].
      destruct h'; reflexivity.
    + intros y Hy. apply in_app_or in Hy. destruct Hy as [Hy|Hy]; auto.
      apply in_app_or in Hy. destruct Hy as [Hy|Hy]; auto.
      destruct h'; [|destruct Hy]. destruct Hy as [<-|[]]. reflexivity.
  - rewrite (@find_enabled_others (Str s) post Hpost).
    now destruct (firstEnabled post).
Qed.

Lemma lastEnabled_rev (l : list Item) : lastEnabled (rev l) = firstEnabled l.
Proof. now rewrite <- firstEnabled_rev, rev_involutive. Qed.

(** X20. [previous()] on a one-dimensional composite (no item has a
    [rowId]) with unique ids, from an active item: it returns the nearest
    enabled item before the active one in navigation order; when there is
    none, [null] -- the base element -- if [includesBaseElement] is set,
    with or without looping; otherwise the last enabled item after the
    active one when looping is on, and [undefined] when it is off. *)
Theorem previous_in_list (st : CompositeStoreState) (pre post : list Item)
    (x : Item) (s : string) :
  navigationOrder st = pre ++ x :: post ->
  NoDup (map id (renderedItems st)) ->
  (forall y, In y (renderedItems st) -> rowId y = None) ->
  activeId st = Str s ->
  id x = Str s ->
  let canLoop :=
    truthy_focus (focusLoop st)
    && focus_differs (focusLoop st)
         (CompositeStore.getOppositeOrientation (orientation st)) in
  CompositeStore.previous st None
  = match lastEnabled pre with
    | Some y => id y
    | None =>
        if includesBaseElement st then Null
        else if canLoop then id_of (lastEnabled post)
        else Undefined
    end.
Proof.
  intros Hnav Hnd Hrow Hact Hid canLoop.
  destruct (post_ids_differ st pre post x s Hnav Hnd Hid) as [Hpre Hpost].
  unfold CompositeStore.previous.
  assert (G : match CompositeStore.findFirstEnabledItem (renderedItems st)
                      Undefined with
              | Some it => truthy_str (rowId it)
              | None => false
              end = false).
  { destruct (CompositeStore.findFirstEnabledItem _ _) as [it|] eqn:E;
      [|reflexivity].
    apply find_some in E. destruct E as [E _]. now rewrite (Hrow it E). }
  rewrite G. cbn [negb andb].
  assert (Hall : (if rtl st
                     && negb (Orientation_eqb (orientation st) vertical)
                  then rev (reverseArray (renderedItems st))
                  else reverseArray (renderedItems st))
                 = rev post ++ x :: rev pre).
  { unfold reverseArray. rewrite previous_order, Hnav, rev_app_distr.
    cbn [rev]. now rewrite <- app_assoc. }
  rewrite (getNextId_plain st _ (rev post) (rev pre) x (orientation st)
             (includesBaseElement st) s Hall Hact Hid).
  - fold canLoop. rewrite !firstEnabled_rev.
    destruct (lastEnabled pre); [reflexivity|].
    destruct (includesBaseElement st); [reflexivity|].
    rewrite andb_false_r. reflexivity.
  - intros y Hy. apply Hpost. now apply in_rev.
  - intros y Hy. apply Hpre. now apply in_rev.
  - intros y Hy. apply Hrow. apply navigationOrder_In. rewrite Hnav.
    apply in_app_or in Hy. apply in_or_app.
    destruct Hy as [Hy|[<-|Hy]].
    + right. right. now apply in_rev.
    + right. now left.
    + left. now apply in_rev.
Qed.

(** A toolbar [A, B, C]: [previous()] from [B] is [A]; from [A] it is the
    base element when that takes part, [C] when the toolbar loops, and
    nothing otherwise. *)
Lemma previous_in_list_witness :
  CompositeStore.previous (defaultState abc (Str "B")) None = Str "A"
  /\ CompositeStore.previous
       (stateWith abc (Str "A") both false (FBool false) (FBool false)
          false true) None = Null
  /\ CompositeStore.previous
       (stateWith abc (Str "A") both false (FBool true) (FBool false)
          false false) None = Str "C"
  /\ CompositeStore.previous (defaultState abc (Str "A")) None = Undefined.
Proof.
  refine (conj _ (conj _ (conj _ _))).
  - exact (previous_in_list (defaultState abc (Str "B"))
             [plain "A"] [plain "C"] (plain "B") "B"
             eq_refl abc_unique_ids abc_single_row eq_refl eq_refl).
  - exact (previous_in_list
             (stateWith abc (Str "A") both false (FBool false)
                (FBool false) false true)
             [] [plain "B"; plain "C"] (plain "A") "A"
             eq_refl abc_unique_ids abc_single_row eq_refl eq_refl).
  - exact (previous_in_list
             (stateWith abc (Str "A") both false (FBool true)
                (FBool false) false false)
             [] [plain "B"; plain "C"] (plain "A") "A"
             eq_refl abc_unique_ids abc_single_row eq_refl eq_refl).
  - exact (previous_in_list (defaultState abc (Str "A"))
             [] [plain "B"; plain "C"] (plain "A") "A"
             eq_refl abc_unique_ids abc_single_row eq_refl eq_refl).
Defined.
